(** * create-peachy-app: a shallow embedding of [src/index.js]

    The program is one asynchronous function, [main], that runs a fixed
    sequence of guarded steps against the file system and two external
    commands (git and npm).  The embedding has three layers:

    - JavaScript strings as lists of UTF-16 code units, with the two
      regular expressions of the layout patch written out as matchers;
    - JSON values as produced by [JSON.parse], with the property
      operations the manifest rewrite and the report use;
    - a small state-and-exception monad over a [World] (file system, log
      of what was executed and printed) in which [main] is transcribed
      statement by statement. *)

From Stdlib Require Import Ascii String DecimalString.
From stdpp Require Import gmap list fin_maps.

Set Warnings "-register-all".

(** ** JavaScript strings *)

(** A JavaScript string is a sequence of 16-bit code units. *)
Abbreviation jstring := (list N).

(** The code units of an ASCII literal of the source. *)
Definition js (s : string) : jstring :=
  List.map N_of_ascii (list_ascii_of_string s).
Arguments js s%_string.

Definition LF : N := 10%N.

(** [s.startsWith(p)], also the way a literal of a regular expression is
    matched at the current position. *)
Fixpoint starts_with (p s : jstring) : bool :=
  match p, s with
  | [], _ => true
  | _ :: _, [] => false
  | a :: p', b :: s' => N.eqb a b && starts_with p' s'
  end.

(** [s.split(sep)] for a separator of one code unit: never the empty
    array, [''.split('\n')] is [['']]. *)
Fixpoint split_on (sep : N) (s : jstring) : list jstring :=
  match s with
  | [] => [[]]
  | c :: s' =>
      if N.eqb c sep then [] :: split_on sep s'
      else match split_on sep s' with
           | l :: ls => (c :: l) :: ls
           | [] => [[c]]
           end
  end.

(** [ls.join(sep)]: the empty array joins to the empty string. *)
Fixpoint join_with (sep : jstring) (ls : list jstring) : jstring :=
  match ls with
  | [] => []
  | [l] => l
  | l :: ls' => l ++ sep ++ join_with sep ls'
  end.

(** ** The regular expressions of the layout patch *)

(** The class [\s] of ECMAScript: tab, LF, VT, FF, CR, space, NBSP,
    U+1680, U+2000 to U+200A, LS, PS, U+202F, U+205F, U+3000 and the BOM. *)
Definition is_space (c : N) : bool :=
  ((9 <=? c) && (c <=? 13) || (c =? 32) || (c =? 160) || (c =? 5760)
   || (8192 <=? c) && (c <=? 8202) || (c =? 8232) || (c =? 8233)
   || (c =? 8239) || (c =? 8287) || (c =? 12288) || (c =? 65279))%N.

(** [.] (without the [s] flag) matches every code unit but the line
    terminators LF, CR, LS and PS. *)
Definition is_line_terminator (c : N) : bool :=
  ((c =? 10) || (c =? 13) || (c =? 8232) || (c =? 8233))%N.

Definition Header : jstring := js "Header".
Definition Footer : jstring := js "Footer".

(** [.*(Header|Footer)] matched at the head of [s]. *)
Fixpoint dot_star_symbol (s : jstring) : bool :=
  starts_with Header s || starts_with Footer s
  || match s with
     | [] => false
     | c :: s' => negb (is_line_terminator c) && dot_star_symbol s'
     end.

(** [\s+.*(Header|Footer)] matched at the head of [s]. *)
Fixpoint spaces_then_symbol (s : jstring) : bool :=
  match s with
  | [] => false
  | c :: s' => is_space c && (dot_star_symbol s' || spaces_then_symbol s')
  end.

(** [/import\s+.*(Header|Footer)/.test(line)]: a match may start at any
    position of the line. *)
Fixpoint import_re_test (line : jstring) : bool :=
  starts_with (js "import") line
    && spaces_then_symbol (drop 6 line)
  || match line with
     | [] => false
     | _ :: line' => import_re_test line'
     end.

(** The longest run of [\s] at the head of [s]. *)
Fixpoint space_run (s : jstring) : nat :=
  match s with
  | c :: s' => if is_space c then S (space_run s') else 0
  | [] => 0
  end.

(** [<Name\s*\/>] matched at the head of [s]: the length of the match.
    [\s*] is greedy, and since [/] is not in [\s] no shorter run can be
    followed by [/>]. *)
Definition marker_length (name s : jstring) : option nat :=
  let opening := js "<" ++ name in
  if starts_with opening s then
    let k := space_run (drop (length opening) s) in
    if starts_with (js "/>") (drop (length opening + k) s)
    then Some (length opening + k + 2)
    else None
  else None.

(** [s.replace(/<Name\s*\/>/g, '')]: the scan goes left to right; after a
    match it resumes behind the match ([lastIndex]), which [skip] counts
    down; where nothing matches the code unit is kept. *)
Fixpoint replace_marker (name : jstring) (skip : nat) (s : jstring) : jstring :=
  match s with
  | [] => []
  | c :: s' =>
      match skip with
      | S k => replace_marker name k s'
      | O =>
          match marker_length name s with
          | Some n => replace_marker name (pred n) s'
          | None => c :: replace_marker name 0 s'
          end
      end
  end.

Definition remove_marker (name s : jstring) : jstring := replace_marker name 0 s.

(** Some position of [s] starts a match of [<Name\s*\/>]. *)
Fixpoint has_marker (name s : jstring) : bool :=
  match marker_length name s with
  | Some _ => true
  | None => match s with
            | [] => false
            | _ :: s' => has_marker name s'
            end
  end.

(** Lines 358-361: drop the lines that match the import pattern. *)
Definition kept_lines (text : jstring) : list jstring :=
  List.filter (fun line => negb (import_re_test line)) (split_on LF text).

Definition filter_imports (text : jstring) : jstring :=
  join_with [LF] (kept_lines text).

(** Lines 358-364: the layout patch as a function of the text read. *)
Definition layout_patch (text : jstring) : jstring :=
  let layoutContent := filter_imports text in
  let layoutContent := remove_marker Header layoutContent in
  remove_marker Footer layoutContent.

Definition QUOTE : N := 34%N.

(** ** JSON values *)

(** What [JSON.parse] returns.  A number is kept as the 64 bits of its
    IEEE-754 double; the properties of an object are listed in own-property
    order; an array is dense. *)
Inductive value : Type :=
| VNull
| VBool (b : bool)
| VNum (bits : Z)
| VStr (s : jstring)
| VArr (elems : list value)
| VObj (props : list (jstring * value)).

(** [o[key]] on own properties: nothing on the prototype chain of a parsed
    object answers to the keys the program uses. *)
Fixpoint get_prop (key : jstring) (props : list (jstring * value)) : option value :=
  match props with
  | [] => None
  | (k, v) :: rest => if decide (k = key) then Some v else get_prop key rest
  end.

(** [o[key] = v]: an existing property keeps its place, a new one (whose
    name is not an array index) goes last. *)
Fixpoint set_prop (key : jstring) (v : value) (props : list (jstring * value))
  : list (jstring * value) :=
  match props with
  | [] => [(key, v)]
  | (k, v') :: rest =>
      if decide (k = key) then (k, v) :: rest else (k, v') :: set_prop key v rest
  end.

(** [delete o[key]]. *)
Definition delete_prop (key : jstring) (props : list (jstring * value))
  : list (jstring * value) :=
  List.filter (fun kv => negb (bool_decide (kv.1 = key))) props.

(** [ToBoolean] of a number: false for +0, -0 and NaN. *)
Definition number_truthy (bits : Z) : bool :=
  let magnitude := Z.land bits (Z.ones 63) in
  negb (magnitude =? 0)%Z
  && negb ((Z.shiftr magnitude 52 =? 2047)%Z
           && negb (Z.land magnitude (Z.ones 52) =? 0)%Z).

(** [ToBoolean]; [None] is [undefined]. *)
Definition truthy (v : option value) : bool :=
  match v with
  | None | Some VNull => false
  | Some (VBool b) => b
  | Some (VNum bits) => number_truthy bits
  | Some (VStr s) => negb (bool_decide (s = []))
  | Some (VArr _) | Some (VObj _) => true
  end.

(** The decimal name of an array index. *)
Definition index_name (i : nat) : jstring :=
  js (DecimalString.NilEmpty.string_of_uint (Nat.to_uint i)).

(** [Object.entries(v)] for a value that is not null: the own enumerable
    string-keyed properties.  A string has one per code unit, a number or
    a boolean none. *)
Definition object_entries (v : value) : list (jstring * value) :=
  match v with
  | VObj props => props
  | VArr elems => imap (fun i x => (index_name i, x)) elems
  | VStr s => imap (fun i c => (index_name i, VStr [c])) s
  | VNull | VBool _ | VNum _ => []
  end.

(** A double that is neither an infinity nor a NaN, and one that is +0
    or -0, by its bits. *)
Definition number_finite (bits : Z) : bool :=
  negb (Z.shiftr (Z.land bits (Z.ones 63)) 52 =? 2047)%Z.

Definition number_zero (bits : Z) : bool :=
  (Z.land bits (Z.ones 63) =? 0)%Z.

(** The functions of the JavaScript runtime and of the npm packages the
    program calls, whose code is not the program's.  [JSON.stringify] is
    written out below, up to the decimal text of a number and to the depth
    at which the runtime runs out of stack. *)
Record Runtime : Type := {
  JSON_parse : jstring -> option value;     (* [None]: SyntaxError *)
  stack_overflow : value -> bool;           (* [JSON.stringify(v, null, 2)]
                                               throws a RangeError *)
  Number_toString : Z -> jstring;           (* of the double with these bits *)
  boxen : jstring -> jstring                (* with the options of line 481 *)
}.

(** *** The text of [JSON.stringify(v, null, 2)] *)

Definition is_high_surrogate (c : N) : bool := ((55296 <=? c) && (c <=? 56319))%N.
Definition is_low_surrogate (c : N) : bool := ((56320 <=? c) && (c <=? 57343))%N.

(** [UnicodeEscape]: [\u] and four hexadecimal digits, in lower case. *)
Definition hex_digit (d : N) : N := (if d <? 10 then 48 + d else 87 + d)%N.

Definition unicode_escape (c : N) : jstring :=
  js "\u"
  ++ [ hex_digit ((c / 4096) mod 16); hex_digit ((c / 256) mod 16);
       hex_digit ((c / 16) mod 16); hex_digit (c mod 16) ]%N.

(** [QuoteJSONString] on one code unit that is no surrogate. *)
Definition quote_unit (c : N) : jstring :=
  if (c =? 8)%N then js "\b"
  else if (c =? 9)%N then js "\t"
  else if (c =? 10)%N then js "\n"
  else if (c =? 12)%N then js "\f"
  else if (c =? 13)%N then js "\r"
  else if (c =? 34)%N then [92; 34]%N
  else if (c =? 92)%N then [92; 92]%N
  else if (c <? 32)%N then unicode_escape c
  else [c].

(** [QuoteJSONString] without the quotes: a surrogate pair is kept, a
    surrogate that is alone is escaped. *)
Fixpoint quote_units (s : jstring) : jstring :=
  match s with
  | [] => []
  | c :: rest =>
      if is_high_surrogate c then
        match rest with
        | d :: rest' =>
            if is_low_surrogate d then c :: d :: quote_units rest'
            else unicode_escape c ++ quote_units rest
        | [] => unicode_escape c
        end
      else if is_low_surrogate c then unicode_escape c ++ quote_units rest
      else quote_unit c ++ quote_units rest
  end.

Definition QuoteJSONString (s : jstring) : jstring :=
  [QUOTE] ++ quote_units s ++ [QUOTE].

(** [SerializeJSONProperty] of a number: a zero of either sign is [0],
    an infinity or a NaN is [null]. *)
Definition number_json (number : Z -> jstring) (bits : Z) : jstring :=
  if number_zero bits then js "0"
  else if number_finite bits then number bits
  else js "null".

(** [SerializeJSONProperty] with the gap of two spaces, at the
    indentation [indent]; [number] is [Number::toString].  A parsed value
    has no [toJSON] that can be called, no [undefined] and no cycle. *)
Fixpoint json_text (number : Z -> jstring) (indent : jstring) (v : value) : jstring :=
  match v with
  | VNull => js "null"
  | VBool true => js "true"
  | VBool false => js "false"
  | VNum bits => number_json number bits
  | VStr s => QuoteJSONString s
  | VArr elems =>
      match elems with
      | [] => js "[]"
      | _ :: _ =>
          let inner := indent ++ js "  " in
          js "[" ++ [LF] ++ inner
          ++ join_with (js "," ++ [LF] ++ inner)
               (List.map (json_text number inner) elems)
          ++ [LF] ++ indent ++ js "]"
      end
  | VObj props =>
      match props with
      | [] => js "{}"
      | _ :: _ =>
          let inner := indent ++ js "  " in
          js "{" ++ [LF] ++ inner
          ++ join_with (js "," ++ [LF] ++ inner)
               (List.map (fun kv : jstring * value =>
                            QuoteJSONString kv.1 ++ js ": "
                            ++ json_text number inner kv.2)
                         props)
          ++ [LF] ++ indent ++ js "}"
      end
  end.

(** [JSON.stringify(v, null, 2)]; [None] is the RangeError of a runtime
    that runs out of stack on a value nested too deep. *)
Definition JSON_stringify (rt : Runtime) (v : value) : option jstring :=
  if stack_overflow rt v then None
  else Some (json_text (Number_toString rt) [] v).

(** The value that the text of [v] is the text of: what is written for a
    number that is not finite is [null], for a negative zero [0]. *)
Fixpoint json_written (v : value) : value :=
  match v with
  | VNum bits =>
      if number_zero bits then VNum 0
      else if number_finite bits then VNum bits
      else VNull
  | VArr elems => VArr (List.map json_written elems)
  | VObj props =>
      VObj (List.map (fun kv : jstring * value => (kv.1, json_written kv.2)) props)
  | other => other
  end.

(** [ToString(v)] as a template literal applies it; [None] is the
    TypeError of [OrdinaryToPrimitive].  A parsed object inherits
    [Object.prototype.toString] unless it has an own [toString] property,
    which is never callable; then [valueOf] is tried, which is either an own
    non-callable property or [Object.prototype.valueOf], which returns the
    object itself: no primitive is reached.  An array goes through
    [Array.prototype.join], where [null] elements count as empty. *)
Fixpoint to_string (rt : Runtime) (v : value) : option jstring :=
  match v with
  | VNull => Some (js "null")
  | VBool true => Some (js "true")
  | VBool false => Some (js "false")
  | VNum bits => Some (Number_toString rt bits)
  | VStr s => Some s
  | VArr elems =>
      let element x :=
        match x with VNull => Some [] | _ => to_string rt x end in
      (fix join elems :=
         match elems with
         | [] => Some []
         | [x] => element x
         | x :: rest =>
             match element x, join rest with
             | Some s, Some r => Some (s ++ js "," ++ r)
             | _, _ => None
             end
         end) elems
  | VObj props =>
      match get_prop (js "toString") props with
      | Some _ => None
      | None => Some (js "[object Object]")
      end
  end.

(** ** Paths *)

(** An absolute, normalized POSIX path is the list of its components; the
    root is the empty list. *)
Abbreviation path := (list jstring).

Definition SLASH : N := 47%N.

(** The string of a path: ["/"] for the root, ["/a/b"] otherwise. *)
Definition render_path (p : path) : jstring := SLASH :: join_with [SLASH] p.

(** [normalizeString]: empty segments and ["."] are dropped, [".."] goes
    up one level and stays at the root. *)
Definition normalize_onto (base : path) (segments : list jstring) : path :=
  fold_left
    (fun acc seg =>
       if decide (seg = []) then acc
       else if decide (seg = js ".") then acc
       else if decide (seg = js "..") then removelast acc
       else acc ++ [seg])
    segments base.

(** One argument of [path.resolve], taken left to right: an absolute
    argument starts over from the root, a relative one continues from the
    path resolved so far, an empty one is skipped. *)
Definition resolve_step (base : path) (arg : jstring) : path :=
  match arg with
  | [] => base
  | c :: _ => normalize_onto (if N.eqb c SLASH then [] else base) (split_on SLASH arg)
  end.

(** [path.resolve(...args)] in a process whose working directory is [cwd]. *)
Definition path_resolve (cwd : path) (args : list jstring) : path :=
  fold_left resolve_step args cwd.

(** [path.join(dir, ...names)] for a resolved [dir] and literal names. *)
Definition path_join (dir : path) (names : list jstring) : path := dir ++ names.

(** [path.basename]: the last component, [''] for the root. *)
Definition path_basename (p : path) : jstring := List.last p [].

(** ** The world the program runs in *)

Inductive node : Type :=
| File (content : jstring)
| Dir.

(** The file system: the nodes below the root, by absolute path.  The root
    itself is a directory and has no entry. *)
Abbreviation filesystem := (gmap path node).

Inductive spinner_call : Type := Start | Succeed | Fail | Warn.

(** What the program does that can be observed from outside, in the order
    it does it.  The colours of chalk are not recorded. *)
Inductive event : Type :=
| Access (p : path)
| Readdir (p : path)
| Rm (p : path)
| ReadFile (p : path)
| WriteFile (p : path) (data : jstring)
| Unlink (p : path)
| Exec (command : jstring) (cwd : option path)
| Spinner (call : spinner_call) (text : jstring)
| ConsoleError (text : jstring)
| ConsoleLog (text : jstring).

(** The calls that ask for a change of the file system. *)
Definition mutating (e : event) : bool :=
  match e with
  | Rm _ | WriteFile _ _ | Unlink _ | Exec _ _ => true
  | _ => false
  end.

(** What the program cannot decide: whether a call of [fs] fails for a
    reason outside the tree (permissions, I/O errors), by the number of the
    call; which of the entries it was to remove a recursive removal had
    removed already when it failed so; and what an external command does to
    the tree and whether it exits with 0. *)
Record Env : Type := {
  io_fails : nat -> bool;
  io_removed : nat -> path -> bool;
  exec_run : jstring -> option path -> filesystem -> filesystem * bool
}.

Record World : Type := {
  fs : filesystem;
  clock : nat;            (* calls of [fs] and [exec] made so far *)
  trace : list event
}.

Inductive error : Type := IOError | ExecError | SyntaxError | TypeError | RangeError.

(** How a piece of the program ends: normally, by an exception that a
    [catch] can handle, or by [process.exit], which nothing handles. *)
Inductive outcome (A : Type) : Type :=
| Ret (a : A)
| Throw (e : error)
| Exit (code : Z).
Arguments Ret {A} a.
Arguments Throw {A} e.
Arguments Exit {A} code.

Definition M (A : Type) : Type := World -> World * outcome A.

Definition ret {A} (a : A) : M A := fun w => (w, Ret a).

Definition bind {A B} (m : M A) (k : A -> M B) : M B :=
  fun w =>
    match m w with
    | (w', Ret a) => k a w'
    | (w', Throw e) => (w', Throw e)
    | (w', Exit code) => (w', Exit code)
    end.

Definition throw {A} (e : error) : M A := fun w => (w, Throw e).

Definition process_exit {A} (code : Z) : M A := fun w => (w, Exit code).

(** A step that computes without the world and may throw. *)
Definition or_throw {A} (e : error) (o : option A) : M A :=
  match o with
  | Some a => ret a
  | None => throw e
  end.

(** [try { body } catch (err) { handler }]. *)
Definition try_catch {A} (body : M A) (handler : error -> M A) : M A :=
  fun w =>
    match body w with
    | (w', Throw e) => handler e w'
    | r => r
    end.

Declare Scope prog_scope.
Delimit Scope prog_scope with prog.
Bind Scope prog_scope with M.
Notation "'let*' x := m 'in' k" := (bind m (fun x => k))
  (at level 10, x name, m at level 100, k at level 200) : prog_scope.
Notation "m ;; k" := (bind m (fun _ => k))
  (at level 100, k at level 200, right associativity) : prog_scope.
Local Open Scope prog_scope.

(** [for (const x of xs) body]. *)
Fixpoint for_of {A} (xs : list A) (body : A -> M unit) : M unit :=
  match xs with
  | [] => ret tt
  | x :: rest => body x ;; for_of rest body
  end.

Definition log (e : event) : M unit :=
  fun w => ({| fs := fs w; clock := clock w; trace := trace w ++ [e] |}, Ret tt).

(** ** The calls of [fs.promises] on the tree *)

Definition lookup_node (tree : filesystem) (p : path) : option node :=
  match p with
  | [] => Some Dir
  | _ => tree !! p
  end.

(** The names in a directory. *)
Definition children (tree : filesystem) (p : path) : list jstring :=
  omap (fun q : path =>
          match last q with
          | Some name => if decide (removelast q = p) then Some name else None
          | None => None
          end)
       (map_to_list tree).*1.

Definition access_in (p : path) (tree : filesystem) : option (filesystem * unit) :=
  match lookup_node tree p with
  | Some _ => Some (tree, tt)
  | None => None
  end.

Definition readdir_in (p : path) (tree : filesystem)
  : option (filesystem * list jstring) :=
  match lookup_node tree p with
  | Some Dir => Some (tree, children tree p)
  | _ => None
  end.

(** A regular file: a file with nothing below it.  (The trees are not
    required to be well formed; a node that has entries below it is walked
    through as a directory, whatever it is.) *)
Definition regular_file (tree : filesystem) (q : path) : bool :=
  match lookup_node tree q with
  | Some (File _) =>
      bool_decide (map_Forall (fun (p : path) (_ : node) => q `prefix_of` p -> p = q) tree)
  | _ => false
  end.

(** ENOTDIR: a component of the path before the last is a regular file. *)
Definition not_a_directory (p : path) (tree : filesystem) : bool :=
  existsb (fun k => regular_file tree (take k p)) (seq 0 (length p)).

(** [fs.rm(p, { recursive: true, force: true })]: the node and all below
    it go; a missing node is no error ([force] silences ENOENT), a path
    that leads through a regular file is one ([force] does not silence
    ENOTDIR), and nothing is removed then. *)
Definition rm_in (p : path) (tree : filesystem) : option (filesystem * unit) :=
  if not_a_directory p tree then None
  else Some (filter (fun entry : path * node => ¬ (p `prefix_of` entry.1)) tree, tt).

Definition readFile_in (p : path) (tree : filesystem)
  : option (filesystem * jstring) :=
  match lookup_node tree p with
  | Some (File content) => Some (tree, content)
  | _ => None
  end.

(** [fs.writeFile]: creates or replaces a file in an existing directory. *)
Definition writeFile_in (p : path) (data : jstring) (tree : filesystem)
  : option (filesystem * unit) :=
  match lookup_node tree p, lookup_node tree (removelast p) with
  | Some Dir, _ => None
  | _, Some Dir => Some (<[p := File data]> tree, tt)
  | _, _ => None
  end.

Definition unlink_in (p : path) (tree : filesystem) : option (filesystem * unit) :=
  match lookup_node tree p with
  | Some (File _) => Some (delete p tree, tt)
  | _ => None
  end.

(** ** The program *)

Section Program.

Variable rt : Runtime.
Variable env : Env.

(** The two template literals of lines 113-334 and 372-429: the
    stylesheet and the page that replace the template's. *)
Variable newCssContent newPageContent : jstring.

(** A call of [fs] other than a recursive removal: it is counted and
    recorded, then fails if the environment says so or if the tree does not
    allow it.  A call that fails leaves the tree as it was; for
    [fs.writeFile], which opens the file before it writes, this takes a
    failed write to fail at the opening, before the file is truncated. *)
Definition fs_call {A} (e : event)
    (run : filesystem -> option (filesystem * A)) : M A :=
  fun w =>
    let attempted tree :=
      {| fs := tree; clock := S (clock w); trace := trace w ++ [e] |} in
    if io_fails env (clock w) then (attempted (fs w), Throw IOError)
    else match run (fs w) with
         | Some (tree, a) => (attempted tree, Ret a)
         | None => (attempted (fs w), Throw IOError)
         end.

Definition fs_access (p : path) : M unit := fs_call (Access p) (access_in p).
Definition fs_readdir (p : path) : M (list jstring) :=
  fs_call (Readdir p) (readdir_in p).
(** [fs.rm] goes through the tree below [p] entry by entry: when it fails
    for a reason outside the tree, the entries that it had removed by then
    are gone, the others are left. *)
Definition fs_rm (p : path) : M unit :=
  fun w =>
    let attempted tree :=
      {| fs := tree; clock := S (clock w); trace := trace w ++ [Rm p] |} in
    if io_fails env (clock w) then
      (attempted
         (filter (fun entry : path * node =>
                    ¬ (p `prefix_of` entry.1
                       /\ io_removed env (clock w) entry.1 = true))
                 (fs w)),
       Throw IOError)
    else match rm_in p (fs w) with
         | Some (tree, a) => (attempted tree, Ret a)
         | None => (attempted (fs w), Throw IOError)
         end.
Definition fs_readFile (p : path) : M jstring :=
  fs_call (ReadFile p) (readFile_in p).
Definition fs_writeFile (p : path) (data : jstring) : M unit :=
  fs_call (WriteFile p data) (writeFile_in p data).
Definition fs_unlink (p : path) : M unit := fs_call (Unlink p) (unlink_in p).

(** [await execAsync(command, { cwd })]: rejects when the command does
    not exit with 0; what it did to the tree stays. *)
Definition execAsync (command : jstring) (cwd : option path) : M unit :=
  fun w =>
    let result := exec_run env command cwd (fs w) in
    let w' := {| fs := result.1; clock := S (clock w);
                 trace := trace w ++ [Exec command cwd] |} in
    (w', if result.2 then Ret tt else Throw ExecError).

Definition parse (text : jstring) : M value :=
  or_throw SyntaxError (JSON_parse rt text).

Definition not_empty_message (targetDir : path) : jstring :=
  js "Error: Directory " ++ [QUOTE] ++ render_path targetDir ++ [QUOTE]
  ++ js " is not empty.".

Definition clone_command (targetDir : path) : jstring :=
  js "git clone https://github.com/Sidmaz666/peachy.git "
  ++ [QUOTE] ++ render_path targetDir ++ [QUOTE].

(** Lines 53-54: the existence check, then the listing. *)
Definition list_target (targetDir : path) : M (list jstring) :=
  fs_access targetDir ;; fs_readdir targetDir.

(** Lines 51-61. *)
Definition check_target (targetDir : path) : M unit :=
  try_catch
    (let* files := list_target targetDir in
     if (0 <? length files)%nat then
       log (ConsoleError (not_empty_message targetDir)) ;;
       process_exit 1
     else ret tt)
    (fun _ => ret tt).

(** Lines 63-71. *)
Definition clone_repository (targetDir : path) : M unit :=
  log (Spinner Start (js "Setting up project...")) ;;
  try_catch
    (execAsync (clone_command targetDir) None ;;
     log (Spinner Succeed (js "Repository cloned.")))
    (fun _ =>
       log (Spinner Fail (js "Project setup failed: Cloning repository failed.")) ;;
       process_exit 1).

Definition docsDir (targetDir : path) : path :=
  path_join targetDir [js "src"; js "app"; js "docs"].
Definition blogDir (targetDir : path) : path :=
  path_join targetDir [js "src"; js "app"; js "blog"].

(** Lines 73-83. *)
Definition setup_directories (targetDir : path) : M unit :=
  log (Spinner Start (js "Setting up directories...")) ;;
  try_catch
    (fs_rm (docsDir targetDir) ;;
     fs_rm (blogDir targetDir) ;;
     log (Spinner Succeed (js "Directories set up.")))
    (fun _ =>
       log (Spinner Warn (js "Some issues encountered during directory setup."))).

Definition pkgPath (targetDir : path) : path :=
  path_join targetDir [js "package.json"].

(** Lines 92-99 on the parsed manifest; [None] is a TypeError.  Assigning
    to a property of [null] throws; on a boolean, a number or a string the
    assignments are dropped (the module is not in strict mode); on an array
    they create named properties, which [JSON.stringify] does not write, so
    that the array is kept as it is. *)
Definition rewrite_manifest (projectName : jstring) (pkgJson : value) : option value :=
  match pkgJson with
  | VNull => None
  | VObj props =>
      let props := set_prop (js "name") (VStr projectName) props in
      let props := delete_prop (js "keywords") props in
      let props := delete_prop (js "author") props in
      let props := set_prop (js "version") (VStr (js "0.0.0")) props in
      let props := set_prop (js "description") (VStr []) props in
      Some (VObj props)
  | other => Some other
  end.

(** Lines 85-106. *)
Definition setup_package_json (targetDir : path) (projectName : jstring) : M unit :=
  log (Spinner Start (js "Setting up package.json...")) ;;
  try_catch
    (let* pkgData := fs_readFile (pkgPath targetDir) in
     let* pkgJson := parse pkgData in
     let* pkgJson := or_throw TypeError (rewrite_manifest projectName pkgJson) in
     let* text := or_throw RangeError (JSON_stringify rt pkgJson) in
     fs_writeFile (pkgPath targetDir) text ;;
     log (Spinner Succeed (js "package.json set up.")))
    (fun _ =>
       log (Spinner Fail (js "Failed to set up package.json.")) ;;
       process_exit 1).

Definition cssPath (targetDir : path) : path :=
  path_join targetDir [js "src"; js "index.css"].
Definition componentsDir (targetDir : path) : path :=
  path_join targetDir [js "src"; js "components"].
Definition filesToRemove : list jstring :=
  [js "CodeBlock.js"; js "Footer.js"; js "Header.js"; js "Peach3dModel.js"].
Definition layoutPath (targetDir : path) : path :=
  path_join targetDir [js "src"; js "app"; js "layout.js"].
Definition pagePath (targetDir : path) : path :=
  path_join targetDir [js "src"; js "app"; js "page.js"].

(** Lines 335-339. *)
Definition replace_stylesheet (targetDir : path) : M unit :=
  try_catch (fs_writeFile (cssPath targetDir) newCssContent) (fun _ => ret tt).

(** Lines 341-351. *)
Definition remove_components (targetDir : path) : M unit :=
  for_of filesToRemove (fun file =>
    let filePath := path_join (componentsDir targetDir) [file] in
    try_catch (fs_unlink filePath) (fun _ => ret tt)).

(** Lines 353-368. *)
Definition patch_layout (targetDir : path) : M unit :=
  try_catch
    (let* layoutContent := fs_readFile (layoutPath targetDir) in
     fs_writeFile (layoutPath targetDir) (layout_patch layoutContent))
    (fun _ => ret tt).

(** Lines 430-434. *)
Definition overwrite_page (targetDir : path) : M unit :=
  try_catch (fs_writeFile (pagePath targetDir) newPageContent) (fun _ => ret tt).

(** Lines 108-435. *)
Definition customize (targetDir : path) : M unit :=
  log (Spinner Start (js "Customizing application files...")) ;;
  replace_stylesheet targetDir ;;
  remove_components targetDir ;;
  patch_layout targetDir ;;
  overwrite_page targetDir ;;
  log (Spinner Succeed (js "Application files customized.")).

Definition gitDir (targetDir : path) : path := path_join targetDir [js ".git"].

(** Lines 437-447. *)
Definition setup_version_control (targetDir : path) : M unit :=
  log (Spinner Start (js "Setting up version control...")) ;;
  try_catch
    (fs_rm (gitDir targetDir) ;;
     execAsync (js "git init") (Some targetDir) ;;
     log (Spinner Succeed (js "Version control set up.")))
    (fun _ =>
       log (Spinner Fail (js "Failed to set up version control.")) ;;
       process_exit 1).

(** Lines 449-457. *)
Definition install_dependencies (targetDir : path) : M unit :=
  log (Spinner Start (js "Installing dependencies...")) ;;
  try_catch
    (execAsync (js "npm install") (Some targetDir) ;;
     log (Spinner Succeed (js "Dependencies installed.")))
    (fun _ =>
       log (Spinner Fail (js "Dependency installation failed.")) ;;
       process_exit 1).

(** [pkgJson.scripts]; the outer [None] is a TypeError, the inner one
    [undefined].  Reading a property of [null] throws; an array, a string,
    a number or a boolean has no such property. *)
Definition get_scripts (pkgJson : value) : option (option value) :=
  match pkgJson with
  | VNull => None
  | VObj props => Some (get_prop (js "scripts") props)
  | _ => Some None
  end.

(** The template literal of line 468; [None] is a TypeError. *)
Definition script_line (entry : jstring * value) : option jstring :=
  match to_string rt entry.2 with
  | Some command => Some (js "npm run " ++ entry.1 ++ js "  ->  " ++ command)
  | None => None
  end.

(** [entries.map(...)]: [None] as soon as one entry throws. *)
Fixpoint script_lines (entries : list (jstring * value)) : option (list jstring) :=
  match entries with
  | [] => Some []
  | entry :: rest =>
      match script_line entry, script_lines rest with
      | Some l, Some ls => Some (l :: ls)
      | _, _ => None
      end
  end.

(** Lines 466-472: the text for the value of [scripts]; [None] is a
    TypeError. *)
Definition describe_scripts (scripts : option value) : option jstring :=
  match scripts with
  | Some v =>
      if truthy scripts && (0 <? length (object_entries v))%nat then
        match script_lines (object_entries v) with
        | Some ls => Some (join_with [LF] ls)
        | None => None
        end
      else Some (js "No npm scripts available.")
  | None => Some (js "No npm scripts available.")
  end.

(** Lines 459-487. *)
Definition report (targetDir : path) : M unit :=
  log (Spinner Start (js "Finalizing setup...")) ;;
  let* availableScripts :=
    try_catch
      (let* pkgData := fs_readFile (pkgPath targetDir) in
       let* pkgJson := parse pkgData in
       let* scripts := or_throw TypeError (get_scripts pkgJson) in
       let* availableScripts := or_throw TypeError (describe_scripts scripts) in
       log (Spinner Succeed (js "Setup finalized.")) ;;
       ret availableScripts)
      (fun _ =>
         log (Spinner Warn (js "Final setup encountered issues.")) ;;
         ret (js "Unable to fetch npm scripts.")) in
  log (ConsoleLog (js "Project setup complete! Happy Coding!")) ;;
  log (ConsoleLog (boxen rt availableScripts)).

(** The statements of [main] after the arguments are read, in order. *)
Definition pipeline (targetDir : path) (projectName : jstring) : list (M unit) :=
  [ check_target targetDir;
    clone_repository targetDir;
    setup_directories targetDir;
    setup_package_json targetDir projectName;
    customize targetDir;
    setup_version_control targetDir;
    install_dependencies targetDir;
    report targetDir ].

Definition sequence (steps : list (M unit)) : M unit :=
  for_of steps (fun step => step).

(** Lines 37-492, in a process whose working directory is [cwd] and whose
    arguments after the script name are [args]. *)
Definition main (cwd : path) (args : list jstring) : M unit :=
  try_catch
    (match args with
     | [] =>
         log (ConsoleError (js "Usage: create-peachy-app <project-directory>")) ;;
         process_exit 1
     | providedPath :: _ =>
         let projectName := path_basename (path_resolve cwd [providedPath]) in
         let targetDir := path_resolve cwd [render_path cwd; providedPath] in
         sequence (pipeline targetDir projectName)
     end)
    (fun _ =>
       log (ConsoleError (js "Unexpected error:")) ;;
       process_exit 1).

End Program.

(** The exit code of the process for the way [main] ended. *)
Definition exit_code (r : outcome unit) : Z :=
  match r with
  | Ret _ => 0
  | Throw _ => 1
  | Exit code => code
  end.

Definition initial_world (tree : filesystem) : World :=
  {| fs := tree; clock := 0; trace := [] |}.

(** ** Vocabulary of the statements about the layout patch *)

(** No line of [text] matches the import pattern. *)
Definition no_import_line (text : jstring) : bool :=
  forallb (fun line => negb (import_re_test line)) (split_on LF text).

(** Some line of [text] matches the import pattern. *)
Definition has_import_line (text : jstring) : bool :=
  existsb import_re_test (split_on LF text).

(** Neither an import line nor a marker is left in [text]. *)
Definition clean (text : jstring) : bool :=
  no_import_line text
  && negb (has_marker Header text) && negb (has_marker Footer text).

(** [s.includes(p)]. *)
Fixpoint contains (p s : jstring) : bool :=
  starts_with p s
  || match s with
     | [] => false
     | _ :: s' => contains p s'
     end.

(** The line mentions one of the two symbols. *)
Definition references_symbol (line : jstring) : bool :=
  contains Header line || contains Footer line.

(** One pass of a global replace by the empty string, as a relation: at
    each position, from the left, a match is dropped whole and the scan
    goes on behind it; a code unit that starts no match is kept. *)
Inductive scan (name : jstring) : jstring -> jstring -> Prop :=
| scan_end : scan name [] []
| scan_keep c s out :
    marker_length name (c :: s) = None ->
    scan name s out -> scan name (c :: s) (c :: out)
| scan_drop s n out :
    marker_length name s = Some n ->
    scan name (drop n s) out -> scan name s out.

(** The code units and separators of a list of lines, plus one. *)
Definition weight (ls : list jstring) : nat :=
  sum_list_with length ls + length ls.

(** The patch as the specification words it, for the texts it speaks of:
    no import line and no marker is left, and the lines that mention
    neither symbol are all there, as they were and in their order. *)
Definition layout_patch_claim (text : jstring) : Prop :=
  has_import_line text = true ->
  no_import_line (layout_patch text) = true
  /\ has_marker Header (layout_patch text) = false
  /\ has_marker Footer (layout_patch text) = false
  /\ List.filter (fun line => negb (references_symbol line)) (split_on LF text)
     `sublist_of` split_on LF (layout_patch text).

(** ** Vocabulary of the statements about paths and manifests *)

(** A component of a normalized path: a name that is not empty, is neither
    ["."] nor [".."] and has no slash.  [process.cwd()] is made of such. *)
Definition wf_component (c : jstring) : Prop :=
  c <> [] /\ c <> js "." /\ c <> js ".." /\ SLASH ∉ c.

Definition wf_path (p : path) : Prop := Forall wf_component p.

(** The keys the manifest rewrite writes or deletes. *)
Definition rewritten_keys : list jstring :=
  [js "name"; js "keywords"; js "author"; js "version"; js "description"].

(** An event of a step that goes well: a call of [fs], a spinner that
    starts or succeeds; no failure or warning shown, no external command. *)
Definition uneventful (e : event) : Prop :=
  match e with
  | Spinner Fail _ | Spinner Warn _ | ConsoleError _ | ConsoleLog _ | Exec _ _ => False
  | _ => True
  end.

(** A program that never calls [process.exit]. *)
Definition never_exits {A} (m : M A) : Prop :=
  forall w w' c, m w <> (w', Exit c).

(** Every run of [m] takes a world to one related to it by [R], however it
    ends. *)
Definition respects {A} (R : relation World) (m : M A) : Prop :=
  forall w w' r, m w = (w', r) -> R w w'.

(** The worlds related when a property of the tree is kept. *)
Definition keeps (I : filesystem -> Prop) : relation World :=
  fun w w' => I (fs w) -> I (fs w').

(** The worlds related when the trace grows by events that satisfy [P]. *)
Definition emits (P : event -> Prop) : relation World :=
  fun w w' => exists evs, trace w' = trace w ++ evs /\ Forall P evs.

(** None of the events asks for a change of the file system. *)
Definition read_only (evs : list event) : bool :=
  forallb (fun e => negb (mutating e)) evs.

(** The guard on the target as the specification words it: when the
    target exists and has an entry, the process ends with a code that is
    not 0, the tree is as it was, and all the program did was to look and
    to print that the directory is not empty. *)
Definition occupied_target_claim (rt : Runtime) (env : Env) (css page : jstring)
    (cwd : path) (providedPath : jstring) (w : World) : Prop :=
  let targetDir := path_resolve cwd [render_path cwd; providedPath] in
  let run := main rt env css page cwd [providedPath] w in
  is_Some (lookup_node (fs w) targetDir) ->
  (exists name, is_Some (fs w !! (targetDir ++ [name]))) ->
  exit_code run.2 <> 0%Z
  /\ fs run.1 = fs w
  /\ exists evs,
       trace run.1 = trace w ++ evs
       /\ read_only evs = true
       /\ ConsoleError (not_empty_message targetDir) ∈ evs.

Definition no_scripts_message : jstring := js "No npm scripts available.".
Definition unable_message : jstring := js "Unable to fetch npm scripts.".

(** What reading the manifest gives in world [w], if the call made then
    does not fail. *)
Definition manifest_read (env : Env) (targetDir : path) (w : World) : option jstring :=
  if io_fails env (clock w) then None
  else match lookup_node (fs w) (pkgPath targetDir) with
       | Some (File content) => Some content
       | _ => None
       end.

(** The text of the summary for what was read: the lines of the scripts
    when there are some and every command converts to a string; the fixed
    message when there are none; the other fixed message when the read,
    the parse, the access to [scripts] or a conversion throws. *)
Definition report_text (rt : Runtime) (read : option jstring) : jstring :=
  match read with
  | None => unable_message
  | Some text =>
      match JSON_parse rt text with
      | None | Some VNull => unable_message
      | Some (VObj props) =>
          match get_prop (js "scripts") props with
          | Some scripts =>
              if truthy (Some scripts) && (0 <? length (object_entries scripts))%nat
              then match script_lines rt (object_entries scripts) with
                   | Some ls => join_with [LF] ls
                   | None => unable_message
                   end
              else no_scripts_message
          | None => no_scripts_message
          end
      | Some _ => no_scripts_message
      end
  end.

(** The report as the specification words it: it ends normally, and what
    it shows is one line per entry when the manifest read has a [scripts]
    value with entries, the first fixed message when it has none, the
    second when the manifest cannot be read or parsed. *)
Definition report_claim (rt : Runtime) (env : Env) (targetDir : path) (w : World) : Prop :=
  exists w' shown,
    report rt env targetDir w = (w', Ret tt)
    /\ last (trace w') = Some (ConsoleLog (boxen rt shown))
    /\ match manifest_read env targetDir w with
       | None => shown = unable_message
       | Some text =>
           match JSON_parse rt text with
           | None => shown = unable_message
           | Some (VObj props) =>
               match get_prop (js "scripts") props with
               | Some scripts =>
                   let entries := object_entries scripts in
                   if (0 <? length entries)%nat then
                     exists commands,
                       length commands = length entries
                       /\ shown
                          = join_with [LF]
                              (zip_with
                                 (fun entry command =>
                                    js "npm run " ++ entry.1 ++ js "  ->  " ++ command)
                                 entries commands)
                   else shown = no_scripts_message
               | None => shown = no_scripts_message
               end
           | Some _ => True
           end
       end.

(** Nothing is at [d] or below it. *)
Definition absent (d : path) (tree : filesystem) : Prop :=
  forall q, d `prefix_of` q -> tree !! q = None.

(** The external command, run in [cwd], keeps a property of the tree. *)
Definition command_keeps (I : filesystem -> Prop) (env : Env)
    (command : jstring) (cwd : option path) : Prop :=
  forall tree, I tree -> I (exec_run env command cwd tree).1.

(** ** Sample inputs *)

(** A layout file as the template has it. *)
Definition typical_layout : jstring :=
  js "import Header from './Header';
import x from 'y';
<div><Header /><Footer/></div>".

(** An import line and a marker that the deletions put together, and a
    marker across a line break. *)
Definition adversarial_layout : jstring :=
  js "import Header from './Header';
imp<Header/>ort Footer from './Footer';
<Head<Header/>er/>
<main><Header
/></main>".


(** The text of a manifest as the template of the samples has it in its
    file: compact, for values whose strings need no escape and that hold
    no number but zeros. *)
Fixpoint sample_stringify (v : value) : jstring :=
  match v with
  | VNull => js "null"
  | VBool true => js "true"
  | VBool false => js "false"
  | VNum _ => js "0"
  | VStr s => [QUOTE] ++ s ++ [QUOTE]
  | VArr elems => js "[" ++ join_with (js ",") (List.map sample_stringify elems) ++ js "]"
  | VObj props =>
      js "{"
      ++ join_with (js ",")
           (List.map (fun kv : jstring * value =>
                        [QUOTE] ++ kv.1 ++ [QUOTE] ++ js ":" ++ sample_stringify kv.2)
                     props)
      ++ js "}"
  end.

(** A runtime that parses the texts of the given documents, in the
    compact form of the template and in the form that [JSON.stringify]
    writes, and nothing else; it does not run out of stack. *)
Definition sample_runtime (documents : list value) : Runtime :=
  {| JSON_parse text :=
       List.find
         (fun v => bool_decide (sample_stringify v = text)
                   || bool_decide (json_text (fun _ => js "0") [] v = text))
         documents;
     stack_overflow _ := false;
     Number_toString _ := js "0";
     boxen text := text |}.

(** A runtime that parses the given texts to the values given with them,
    and nothing else, and does not run out of stack. *)
Definition reading_runtime (files : list (jstring * value)) : Runtime :=
  {| JSON_parse text :=
       option_map snd (List.find (fun tv => bool_decide (tv.1 = text)) files);
     stack_overflow _ := false;
     Number_toString _ := js "0";
     boxen text := text |}.

Definition sample_cwd : path := [js "home"; js "dev"].
Definition sample_target : path := [js "home"; js "dev"; js "my-app"].

(** The manifest of the template in the samples, and what the rewrite makes
    of it for the project [my-app]. *)
Definition sample_manifest : value :=
  VObj [ (js "name", VStr (js "peachy"));
         (js "version", VStr (js "1.4.2"));
         (js "author", VStr (js "someone"));
         (js "scripts", VObj [ (js "start", VStr (js "peach dev"));
                               (js "build", VStr (js "peach build")) ]);
         (js "keywords", VArr [VStr (js "peach")]);
         (js "license", VStr (js "MIT")) ].

Definition sample_rewritten : value :=
  VObj [ (js "name", VStr (js "my-app"));
         (js "version", VStr (js "0.0.0"));
         (js "scripts", VObj [ (js "start", VStr (js "peach dev"));
                               (js "build", VStr (js "peach build")) ]);
         (js "license", VStr (js "MIT"));
         (js "description", VStr []) ].

(** A manifest with a script whose command is an object with an own
    [toString] property, before and after the rewrite. *)
Definition odd_manifest : value :=
  VObj [ (js "name", VStr (js "peachy"));
         (js "scripts", VObj [ (js "build", VObj [(js "toString", VBool true)]) ]) ].

Definition odd_rewritten : value :=
  VObj [ (js "name", VStr (js "my-app"));
         (js "scripts", VObj [ (js "build", VObj [(js "toString", VBool true)]) ]);
         (js "version", VStr (js "0.0.0"));
         (js "description", VStr []) ].

(** What [git clone] leaves in the target in the samples. *)
Definition template_tree (manifest : value) : list (path * node) :=
  let at_target names := sample_target ++ List.map js names in
  [ (at_target [], Dir);
    (at_target [".git"], Dir);
    (at_target [".git"; "HEAD"], File (js "ref: refs/heads/main"));
    (at_target ["package.json"], File (sample_stringify manifest));
    (at_target ["src"], Dir);
    (at_target ["src"; "index.css"], File (js "body {}"));
    (at_target ["src"; "components"], Dir);
    (at_target ["src"; "components"; "Header.js"], File (js "export {}"));
    (at_target ["src"; "app"], Dir);
    (at_target ["src"; "app"; "layout.js"], File typical_layout);
    (at_target ["src"; "app"; "page.js"], File (js "export {}"));
    (at_target ["src"; "app"; "docs"], Dir);
    (at_target ["src"; "app"; "docs"; "page.js"], File (js "export {}"));
    (at_target ["src"; "app"; "blog"], Dir) ]%string.

(** An environment where nothing fails: [git clone] puts the template in
    place, [git init] makes a new [.git], [npm install] a [node_modules]. *)
Definition sample_env (manifest : value) : Env :=
  {| io_fails _ := false;
     io_removed _ _ := false;
     exec_run command cwd tree :=
       if starts_with (js "git clone ") command
       then (list_to_map (template_tree manifest) ∪ tree, true)
       else if bool_decide (command = js "git init")
       then (<[sample_target ++ [js ".git"] := Dir]> tree, true)
       else (<[sample_target ++ [js "node_modules"] := Dir]> tree, true) |}.

(** An environment where the second call of [fs] fails and git refuses to
    clone. *)
Definition unreadable_env : Env :=
  {| io_fails n := (n =? 1)%nat;
     io_removed _ _ := false;
     exec_run command cwd tree := (tree, false) |}.

Definition empty_home : filesystem :=
  list_to_map [ ([js "home"], Dir); ([js "home"; js "dev"], Dir) ].

(** The target is there and has a file in it. *)
Definition occupied_home : filesystem :=
  list_to_map [ ([js "home"], Dir); ([js "home"; js "dev"], Dir);
                (sample_target, Dir);
                (sample_target ++ [js "notes.txt"], File (js "keep me")) ].

(** The runtime and the world of a run on the manifest with the odd
    script, from an empty home, when the report starts. *)
Definition odd_runtime : Runtime := sample_runtime [odd_manifest; odd_rewritten].

Definition odd_project : World :=
  (sequence
     (take 7 (pipeline odd_runtime (sample_env odd_manifest) [] []
                sample_target (js "my-app")))
     (initial_world empty_home)).1.

(** The project of the samples as [git clone] leaves it. *)
Definition cloned_project : World :=
  initial_world (list_to_map (template_tree sample_manifest) ∪ empty_home).

(** ** Vocabulary of the further statements *)

(** A program that ends the process with code 1 only. *)
Definition exits_with_1 {A} (m : M A) : Prop :=
  forall w w' c, m w = (w', Exit c) -> c = 1%Z.

(** A program that lets no exception out. *)
Definition never_throws {A} (m : M A) : Prop :=
  forall w w' e, m w <> (w', Throw e).


(** An environment like [sample_env] where [npm install] fails and leaves
    the tree as it finds it. *)
Definition offline_env (manifest : value) : Env :=
  {| io_fails _ := false;
     io_removed _ _ := false;
     exec_run command cwd tree :=
       if bool_decide (command = js "npm install") then (tree, false)
       else exec_run (sample_env manifest) command cwd tree |}.


(** The event stays with the target: a call of [fs] addresses the target
    or a path below it, a command is run in the target or is the clone
    into it. *)
Definition inside_target (targetDir : path) (e : event) : Prop :=
  match e with
  | Access p | Readdir p | Rm p | ReadFile p | WriteFile p _ | Unlink p =>
      targetDir `prefix_of` p
  | Exec command cwd =>
      cwd = Some targetDir
      \/ (cwd = None
          /\ command = js "git clone https://github.com/Sidmaz666/peachy.git "
                       ++ [34%N] ++ render_path targetDir ++ [34%N])
  | Spinner _ _ | ConsoleError _ | ConsoleLog _ => True
  end.


(** What a swallowed [fs.unlink] leaves: a file goes, anything else
    stays. *)
Definition unlinked (p : path) (tree : filesystem) : filesystem :=
  match tree !! p with
  | Some (File _) => delete p tree
  | _ => tree
  end.


(** The command of an event that runs one, with its working directory. *)
Definition command_of (e : event) : option (jstring * option path) :=
  match e with
  | Exec command cwd => Some (command, cwd)
  | _ => None
  end.

Definition commands (evs : list event) : list (jstring * option path) :=
  omap command_of evs.

(** The commands of a run that goes to its end. *)
Definition planned_commands (targetDir : path) : list (jstring * option path) :=
  [ (clone_command targetDir, None);
    (js "git init", Some targetDir);
    (js "npm install", Some targetDir) ].

(** A program that runs the commands [planned], in this order, when it
    returns, and the first ones of them when it does not. *)
Definition runs (planned : list (jstring * option path)) (m : M unit) : Prop :=
  forall w w' r,
    m w = (w', r) ->
    exists evs,
      trace w' = trace w ++ evs
      /\ commands evs `prefix_of` planned
      /\ (r = Ret tt -> commands evs = planned).


(** The call of the spinner that an event is. *)
Definition spinner_of (e : event) : option spinner_call :=
  match e with
  | Spinner call _ => Some call
  | _ => None
  end.

(** Whether the spinner spins after the calls, when [spinning] says
    whether it did before them; [None] when a call does not fit: a start
    while it spins, or a [succeed], [fail] or [warn] while it does not. *)
Fixpoint spinner_after (spinning : bool) (calls : list spinner_call) : option bool :=
  match calls with
  | [] => Some spinning
  | Start :: rest => if spinning then None else spinner_after true rest
  | _ :: rest => if spinning then spinner_after false rest else None
  end.

(** A program whose calls of the spinner fit, from the state [before] to
    the state given for the way it ends. *)
Definition spins {A} (m : M A) (before on_ret on_throw on_exit : bool) : Prop :=
  forall w w' r,
    m w = (w', r) ->
    exists evs,
      trace w' = trace w ++ evs
      /\ spinner_after before (omap spinner_of evs)
         = Some (match r with
                 | Ret _ => on_ret
                 | Throw _ => on_throw
                 | Exit _ => on_exit
                 end).

(** The line that an event prints with [console.log]. *)
Definition logged_of (e : event) : option jstring :=
  match e with
  | ConsoleLog text => Some text
  | _ => None
  end.

Definition logged (evs : list event) : list jstring := omap logged_of evs.

Definition success_banner : jstring := js "Project setup complete! Happy Coding!".




(** ** Vocabulary of the statements about the manifest written *)

(** The rewrite of the manifest as the specification words it: the
    manifest that the file holds after the step, as the runtime reads it,
    has the new [name], [version] and [description], neither [keywords]
    nor [author], and for every other key the value that the manifest of
    the template had. *)
Definition manifest_rewrite_claim (rt : Runtime) (env : Env) (cwd : path)
    (providedPath : jstring) (w : World) (text : jstring)
    (props : list (jstring * value)) : Prop :=
  let targetDir := path_resolve cwd [render_path cwd; providedPath] in
  let projectName := path_basename (path_resolve cwd [providedPath]) in
  let run := setup_package_json rt env targetDir projectName w in
  wf_path cwd ->
  fs w !! pkgPath targetDir = Some (File text) ->
  JSON_parse rt text = Some (VObj props) ->
  run.2 = Ret tt ->
  exists written props',
    fs run.1 !! pkgPath targetDir = Some (File written)
    /\ JSON_parse rt written = Some (VObj props')
    /\ get_prop (js "name") props' = Some (VStr (path_basename targetDir))
    /\ get_prop (js "version") props' = Some (VStr (js "0.0.0"))
    /\ get_prop (js "description") props' = Some (VStr [])
    /\ get_prop (js "keywords") props' = None
    /\ get_prop (js "author") props' = None
    /\ forall key, key ∉ rewritten_keys -> get_prop key props' = get_prop key props.

(** The invariant of [scripts] as the specification words it: in a run
    that goes from the clone to the report, the manifest that the report
    reads has the [scripts] of the manifest that the clone put there. *)
Definition scripts_claim (rt : Runtime) (env : Env) (css page : jstring)
    (targetDir : path) (projectName : jstring)
    (cloned : World) (text : jstring) (manifest : value) : Prop :=
  let steps := pipeline rt env css page targetDir projectName in
  let run := sequence (take 5 (drop 2 steps)) cloned in
  fs cloned !! pkgPath targetDir = Some (File text) ->
  JSON_parse rt text = Some manifest ->
  (forall nd command,
     command ∈ [js "git init"; js "npm install"] ->
     command_keeps (fun tree => tree !! pkgPath targetDir = Some nd)
       env command (Some targetDir)) ->
  run.2 = Ret tt ->
  exists text' manifest',
    fs run.1 !! pkgPath targetDir = Some (File text')
    /\ JSON_parse rt text' = Some manifest'
    /\ get_scripts manifest' = get_scripts manifest.

(** What is written for the value of [scripts]. *)
Definition scripts_written (scripts : option (option value)) : option (option value) :=
  option_map (option_map json_written) scripts.

(** ** Manifests with a number that JSON cannot write *)

Definition quoted (s : string) : jstring := [QUOTE] ++ js s ++ [QUOTE].

(** The bits of [Infinity], which is what [JSON.parse] makes of [1e400]. *)
Definition infinity_bits : Z := 9218868437227405312.

(** A manifest with such a number at the key [big]: the text of the
    file, what [JSON.parse] makes of it, and what it makes of the text
    that the rewrite writes for the project [my-app]. *)
Definition big_text : jstring :=
  js "{" ++ quoted "name" ++ js ":" ++ quoted "peachy" ++ js ","
  ++ quoted "big" ++ js ":1e400}".

Definition big_manifest : value :=
  VObj [ (js "name", VStr (js "peachy")); (js "big", VNum infinity_bits) ].

Definition big_written : value :=
  VObj [ (js "name", VStr (js "my-app"));
         (js "big", VNull);
         (js "version", VStr (js "0.0.0"));
         (js "description", VStr []) ].

Definition big_runtime : Runtime :=
  reading_runtime
    [ (big_text, big_manifest);
      (json_text (fun _ => js "0") [] big_written, big_written) ].

Definition big_project : World :=
  initial_world
    (<[sample_target ++ [js "package.json"] := File big_text]>
       (<[sample_target := Dir]> empty_home)).

(** The same with the number in [scripts]. *)
Definition port_text : jstring :=
  js "{" ++ quoted "name" ++ js ":" ++ quoted "peachy" ++ js ","
  ++ quoted "scripts" ++ js ":{" ++ quoted "start" ++ js ":"
  ++ quoted "peach dev" ++ js "," ++ quoted "port" ++ js ":1e400}}".

Definition port_manifest : value :=
  VObj [ (js "name", VStr (js "peachy"));
         (js "scripts", VObj [ (js "start", VStr (js "peach dev"));
                               (js "port", VNum infinity_bits) ]) ].

Definition port_written : value :=
  VObj [ (js "name", VStr (js "my-app"));
         (js "scripts", VObj [ (js "start", VStr (js "peach dev"));
                               (js "port", VNull) ]);
         (js "version", VStr (js "0.0.0"));
         (js "description", VStr []) ].

Definition port_runtime : Runtime :=
  reading_runtime
    [ (port_text, port_manifest);
      (json_text (fun _ => js "0") [] port_written, port_written) ].

Definition port_project : World :=
  initial_world
    (<[sample_target ++ [js "package.json"] := File port_text]>
       (<[sample_target := Dir]> empty_home)).

(** * Properties *)

(** ** Splitting and joining *)

Lemma split_on_cons sep c s :
  split_on sep (c :: s) =
  if N.eqb c sep then [] :: split_on sep s
  else match split_on sep s with
       | l :: ls => (c :: l) :: ls
       | [] => [[c]]
       end.
Proof. reflexivity. Qed.

Lemma split_on_nonempty sep s : split_on sep s ≠ [].
Proof.
  destruct s as [|c s]; simpl; [done|].
  destruct (N.eqb c sep); [done|]. by destruct (split_on sep s).
Qed.

Lemma join_with_cons sep l l' ls :
  join_with sep (l :: l' :: ls) = l ++ sep ++ join_with sep (l' :: ls).
Proof. reflexivity. Qed.

Lemma join_split sep s : join_with [sep] (split_on sep s) = s.
Proof.
  induction s as [|c s IH]; [done|].
  rewrite split_on_cons. pose proof (split_on_nonempty sep s) as Hne.
  destruct (N.eqb_spec c sep) as [->|Hc].
  - destruct (split_on sep s) as [|l ls]; [done|].
    change (join_with [sep] ([] :: l :: ls))
      with (sep :: join_with [sep] (l :: ls)). by rewrite IH.
  - destruct (split_on sep s) as [|l ls]; [done|].
    destruct ls as [|l' ls]; simpl in *; by subst s.
Qed.

Lemma split_on_no_sep sep s : Forall (fun l => sep ∉ l) (split_on sep s).
Proof.
  induction s as [|c s IH]; simpl.
  - repeat constructor. by intros ?%elem_of_nil.
  - destruct (N.eqb_spec c sep) as [->|Hc].
    + constructor; [by intros ?%elem_of_nil | done].
    + destruct (split_on sep s) as [|l ls].
      * repeat constructor. intros ?%list_elem_of_singleton. congruence.
      * inversion IH; subst. constructor; [|done].
        intros [?|?]%elem_of_cons; [congruence | done].
Qed.

Lemma split_on_free sep l : sep ∉ l → split_on sep l = [l].
Proof.
  induction l as [|c l IH]; [done|]. intros Hl.
  rewrite split_on_cons. destruct (N.eqb_spec c sep) as [->|Hc].
  - exfalso. apply Hl. by left.
  - rewrite IH; [done|]. intros ?. apply Hl. by right.
Qed.

Lemma split_on_app sep l s :
  sep ∉ l → split_on sep (l ++ sep :: s) = l :: split_on sep s.
Proof.
  induction l as [|c l IH]; intros Hl.
  - simpl. by rewrite N.eqb_refl.
  - rewrite <- app_comm_cons, split_on_cons.
    destruct (N.eqb_spec c sep) as [->|Hc].
    + exfalso. apply Hl. by left.
    + rewrite IH; [done|]. intros ?. apply Hl. by right.
Qed.

Lemma split_join sep ls :
  ls ≠ [] → Forall (fun l => sep ∉ l) ls →
  split_on sep (join_with [sep] ls) = ls.
Proof.
  induction ls as [|l ls IH]; [done|]. intros _ Hall.
  inversion Hall as [|? ? Hl Hls]; subst.
  destruct ls as [|l' ls].
  - simpl. by apply split_on_free.
  - rewrite join_with_cons. simpl app at 2.
    rewrite split_on_app by done. f_equal. by apply IH.
Qed.

(** ** The layout patch *)

Lemma filter_id {A} (f : A -> bool) (l : list A) :
  Forall (fun x => f x = true) l -> List.filter f l = l.
Proof.
  induction 1 as [|x l Hx _ IH]; simpl; [done|]. by rewrite Hx, IH.
Qed.

Lemma filter_Forall {A} (f : A -> bool) (l : list A) :
  Forall (fun x => f x = true) (List.filter f l).
Proof.
  induction l as [|x l IH]; simpl; [constructor|].
  destruct (f x) eqn:Hx; [by constructor | done].
Qed.

Lemma forallb_true_Forall {A} (f : A -> bool) (l : list A) :
  forallb f l = true <-> Forall (fun x => f x = true) l.
Proof.
  induction l as [|x l IH]; simpl.
  - split; [constructor | done].
  - rewrite andb_true_iff, IH. split.
    + intros [? ?]. by constructor.
    + by inversion 1.
Qed.

Lemma kept_lines_no_LF text : Forall (fun l => LF ∉ l) (kept_lines text).
Proof.
  unfold kept_lines. pose proof (split_on_no_sep LF text) as H.
  induction H as [|l ls Hl _ IH]; simpl; [constructor|].
  destruct (negb (import_re_test l)); [by constructor | done].
Qed.

(** The lines of the filtered text are the lines kept, or the one empty
    line of the empty text when none is kept. *)
Lemma lines_filter_imports text :
  split_on LF (filter_imports text) =
  match kept_lines text with
  | [] => [[]]
  | _ :: _ => kept_lines text
  end.
Proof.
  unfold filter_imports. pose proof (kept_lines_no_LF text) as H.
  destruct (kept_lines text) as [|l ls] eqn:E; [done|].
  by apply split_join.
Qed.

Lemma filter_imports_no_import_line text :
  no_import_line (filter_imports text) = true.
Proof.
  unfold no_import_line. rewrite lines_filter_imports.
  destruct (kept_lines text) as [|l ls] eqn:E; [done|].
  rewrite <- E. apply forallb_true_Forall, filter_Forall.
Qed.

Lemma filter_imports_fixed text :
  no_import_line text = true -> filter_imports text = text.
Proof.
  unfold no_import_line, filter_imports, kept_lines. intros H.
  rewrite filter_id; [apply join_split|].
  by apply forallb_true_Forall.
Qed.

Lemma filter_imports_idempotent text :
  filter_imports (filter_imports text) = filter_imports text.
Proof. apply filter_imports_fixed, filter_imports_no_import_line. Qed.

Lemma marker_length_pos name s n : marker_length name s = Some n -> (0 < n)%nat.
Proof.
  unfold marker_length. repeat case_match; intros; simplify_eq. lia.
Qed.

Lemma replace_marker_skip name k s :
  replace_marker name k s = replace_marker name 0 (drop k s).
Proof.
  revert k. induction s as [|c s IH]; intros [|k]; try done.
  simpl replace_marker at 1. by rewrite IH.
Qed.

(** A match at the head is dropped and the scan resumes behind it. *)
Lemma remove_marker_match name s n :
  marker_length name s = Some n ->
  remove_marker name s = remove_marker name (drop n s).
Proof.
  intros H. pose proof (marker_length_pos _ _ _ H) as Hn.
  unfold remove_marker. destruct s as [|c s].
  - by rewrite drop_nil.
  - simpl replace_marker at 1. rewrite H.
    rewrite replace_marker_skip. by destruct n; [lia|].
Qed.

Lemma remove_marker_keep name c s :
  marker_length name (c :: s) = None ->
  remove_marker name (c :: s) = c :: remove_marker name s.
Proof. unfold remove_marker. simpl. by intros ->. Qed.

Lemma remove_marker_scan_bounded name n s :
  (length s <= n)%nat -> scan name s (remove_marker name s).
Proof.
  revert s. induction n as [|n IH]; intros s Hlen.
  - destruct s; [constructor | simpl in Hlen; lia].
  - destruct s as [|c s]; [constructor|].
    destruct (marker_length name (c :: s)) as [m|] eqn:Hm.
    + rewrite (remove_marker_match _ _ _ Hm).
      apply scan_drop with m; [done|]. apply IH.
      pose proof (marker_length_pos _ _ _ Hm).
      rewrite length_drop. simpl in *. lia.
    + rewrite remove_marker_keep by done.
      apply scan_keep; [done|]. apply IH. simpl in Hlen. lia.
Qed.

Lemma remove_marker_scan name s : scan name s (remove_marker name s).
Proof. by apply remove_marker_scan_bounded with (length s). Qed.

Lemma replace_marker_sublist name k s : replace_marker name k s `sublist_of` s.
Proof.
  revert k. induction s as [|c s IH]; intros k; [done|].
  simpl. destruct k as [|k]; [|by apply sublist_cons].
  destruct (marker_length name (c :: s)).
  - by apply sublist_cons.
  - by apply sublist_skip.
Qed.

Lemma has_marker_cons name c s :
  has_marker name (c :: s) = false ->
  marker_length name (c :: s) = None /\ has_marker name s = false.
Proof. simpl. by destruct (marker_length name (c :: s)). Qed.

(** A text without a match is returned as it is. *)
Lemma remove_marker_fixed name s :
  has_marker name s = false -> remove_marker name s = s.
Proof.
  induction s as [|c s IH]; [done|].
  intros [Hm Hs]%has_marker_cons.
  rewrite remove_marker_keep by done. by rewrite IH.
Qed.

Lemma layout_patch_fixed text : clean text = true -> layout_patch text = text.
Proof.
  unfold clean. rewrite !andb_true_iff, !negb_true_iff.
  intros [[Hi Hh] Hf]. unfold layout_patch.
  rewrite (filter_imports_fixed _ Hi).
  rewrite (remove_marker_fixed _ _ Hh). by apply remove_marker_fixed.
Qed.

Example layout_patch_typical :
  layout_patch typical_layout
  = js "import x from 'y';
<div></div>".
Proof. vm_compute. reflexivity. Qed.

(** A marker around a marker: one pass takes the inner one out and leaves
    the outer one standing. *)
Example layout_patch_nested :
  layout_patch (js "<Head<Header/>er/>") = js "<Header/>".
Proof. vm_compute. reflexivity. Qed.

Example layout_patch_adversarial :
  layout_patch adversarial_layout
  = js "import Footer from './Footer';
<Header/>
<main></main>".
Proof. vm_compute. reflexivity. Qed.

Lemma sublist_elem_of {A} (l k : list A) (x : A) :
  l `sublist_of` k -> x ∈ l -> x ∈ k.
Proof.
  induction 1 as [|y l k _ IH|y l k _ IH]; [done| |].
  - intros [->|?]%elem_of_cons; [by left | right; auto].
  - right; auto.
Qed.

(** C2, as stated, fails.  On [adversarial_layout], which has an import
    line for Header, the patched text still has a line that matches the
    import pattern and still has a [<Header/>] marker, both put together by
    the deletions, and the line of the input that closes a marker opened on
    the line before, which mentions neither symbol, is not a line of the
    output. *)
Lemma layout_patch_claim_fails :
  has_import_line adversarial_layout = true
  /\ no_import_line (layout_patch adversarial_layout) = false
  /\ has_marker Header (layout_patch adversarial_layout) = true
  /\ ~ (List.filter (fun line => negb (references_symbol line))
          (split_on LF adversarial_layout)
        `sublist_of` split_on LF (layout_patch adversarial_layout))
  /\ ~ layout_patch_claim adversarial_layout.
Proof.
  assert (Hin : has_import_line adversarial_layout = true)
    by (vm_compute; reflexivity).
  assert (Hout : no_import_line (layout_patch adversarial_layout) = false)
    by (vm_compute; reflexivity).
  split; [exact Hin|]. split; [exact Hout|].
  split; [vm_compute; reflexivity|]. split.
  - intros Hsub.
    assert (Hel : js "/></main>" ∈ split_on LF (layout_patch adversarial_layout)).
    { eapply sublist_elem_of; [exact Hsub|]. vm_compute. by left. }
    apply list_elem_of_In in Hel. vm_compute in Hel.
    repeat (destruct Hel as [Hel|Hel]; [discriminate Hel|]). done.
  - intros Hclaim. destruct (Hclaim Hin) as [Hno _]. congruence.
Qed.

(** C2, amended.  For every text: the filtered text has no line that
    matches the import pattern, and its lines are the lines of the input
    that do not match it, as they were and in their order (the one empty
    line when none is left); the Header pass and then the Footer pass each
    drop the matches of their marker found by one scan from the left and
    keep every other code unit, so that the output is what is left of the
    filtered text after deletions only; and when the filtered text has no
    marker the output is the filtered text. *)
Theorem layout_patch_effect (text : jstring) :
  let filtered := filter_imports text in
  let kept :=
    List.filter (fun line => negb (import_re_test line)) (split_on LF text) in
  no_import_line filtered = true
  /\ split_on LF filtered = match kept with [] => [[]] | _ :: _ => kept end
  /\ scan Header filtered (remove_marker Header filtered)
  /\ scan Footer (remove_marker Header filtered) (layout_patch text)
  /\ layout_patch text `sublist_of` filtered
  /\ (if has_marker Header filtered || has_marker Footer filtered then True
      else layout_patch text = filtered).
Proof.
  cbv zeta. repeat split.
  - apply filter_imports_no_import_line.
  - apply lines_filter_imports.
  - apply remove_marker_scan.
  - apply remove_marker_scan.
  - unfold layout_patch, remove_marker.
    etrans; apply replace_marker_sublist.
  - destruct (has_marker Header (filter_imports text)) eqn:Hh; [done|].
    destruct (has_marker Footer (filter_imports text)) eqn:Hf; [done|].
    simpl. unfold layout_patch.
    rewrite (remove_marker_fixed _ _ Hh). by apply remove_marker_fixed.
Qed.

(** C10, as stated, fails: patching [<Head<Header/>er/>] leaves
    [<Header/>], which a second patch takes out. *)
Lemma layout_patch_not_idempotent :
  layout_patch (layout_patch (js "<Head<Header/>er/>"))
  <> layout_patch (js "<Head<Header/>er/>").
Proof. vm_compute. discriminate. Qed.

(** Lengths: a pass that finds a match makes the text shorter, and so
    does the filter when it drops a line. *)
Lemma remove_marker_length name s :
  (length (remove_marker name s) <= length s)%nat.
Proof. apply sublist_length, replace_marker_sublist. Qed.

Lemma remove_marker_shorter name s :
  has_marker name s = true ->
  (length (remove_marker name s) < length s)%nat.
Proof.
  induction s as [|c s IH]; [done|].
  destruct (marker_length name (c :: s)) as [n|] eqn:Hn.
  - intros _. rewrite (remove_marker_match _ _ _ Hn).
    pose proof (marker_length_pos _ _ _ Hn).
    pose proof (remove_marker_length name (drop n (c :: s))) as Hle.
    rewrite length_drop in Hle. simpl in *. lia.
  - simpl. rewrite Hn. intros Hs%IH.
    rewrite remove_marker_keep by done. simpl. lia.
Qed.

Lemma join_with_length sep ls :
  length (join_with [sep] ls) = pred (weight ls).
Proof.
  unfold weight. induction ls as [|l ls IH]; [done|].
  destruct ls as [|l' ls]; [simpl; lia|].
  rewrite join_with_cons, !length_app, IH. simpl. lia.
Qed.

Lemma weight_filter (f : jstring -> bool) ls :
  (weight (List.filter f ls) <= weight ls)%nat.
Proof.
  unfold weight. induction ls as [|l ls IH]; [done|].
  simpl. destruct (f l); simpl; lia.
Qed.

Lemma weight_filter_drops (f : jstring -> bool) ls :
  forallb f ls = false ->
  (forall l, f l = false -> l <> []) ->
  (weight (List.filter f ls) + 2 <= weight ls)%nat.
Proof.
  intros Hsome Hne. induction ls as [|l ls IH]; [done|].
  simpl in Hsome. unfold weight in *. simpl.
  destruct (f l) eqn:Hl; simpl in *.
  - specialize (IH Hsome). lia.
  - pose proof (weight_filter f ls) as Hle. unfold weight in Hle.
    specialize (Hne l Hl). destruct l; [done|]. simpl. lia.
Qed.

Lemma filter_imports_length text :
  (length (filter_imports text) <= length text)%nat.
Proof.
  unfold filter_imports, kept_lines.
  rewrite <- (join_split LF text) at 2. rewrite !join_with_length.
  pose proof (weight_filter (fun line => negb (import_re_test line))
                (split_on LF text)). lia.
Qed.

Lemma filter_imports_shorter text :
  no_import_line text = false ->
  (length (filter_imports text) < length text)%nat.
Proof.
  unfold no_import_line, filter_imports, kept_lines. intros Hsome.
  rewrite <- (join_split LF text) at 2. rewrite !join_with_length.
  pose proof (weight_filter_drops _ _ Hsome) as Hdrop.
  assert (forall l, negb (import_re_test l) = false -> l <> []) as Hne
    by (by intros [|c l]).
  specialize (Hdrop Hne). lia.
Qed.

(** A text that the patch leaves as it is has nothing left to patch. *)
Lemma layout_patch_fixed_clean text :
  layout_patch text = text -> clean text = true.
Proof.
  intros Hfix. pose proof (f_equal length Hfix) as Hlen.
  unfold layout_patch in Hlen.
  pose proof (remove_marker_length Footer
                (remove_marker Header (filter_imports text))) as H1.
  pose proof (remove_marker_length Header (filter_imports text)) as H2.
  pose proof (filter_imports_length text) as H3.
  destruct (no_import_line text) eqn:Hi.
  2: { pose proof (filter_imports_shorter _ Hi). lia. }
  rewrite (filter_imports_fixed _ Hi) in *.
  destruct (has_marker Header text) eqn:Hh.
  { pose proof (remove_marker_shorter _ _ Hh). lia. }
  rewrite (remove_marker_fixed _ _ Hh) in *.
  destruct (has_marker Footer text) eqn:Hf.
  { pose proof (remove_marker_shorter _ _ Hf). lia. }
  unfold clean. by rewrite Hi, Hh, Hf.
Qed.

(** C10, amended.  The line filter alone is idempotent on every text, and
    the whole patch is idempotent exactly on the texts whose patched text
    is clean, that is, has no line matching the import pattern and no
    marker left. *)
Theorem layout_patch_idempotent_iff_clean (text : jstring) :
  filter_imports (filter_imports text) = filter_imports text
  /\ (layout_patch (layout_patch text) = layout_patch text
      <-> clean (layout_patch text) = true).
Proof.
  split; [apply filter_imports_idempotent|]. split.
  - apply layout_patch_fixed_clean.
  - apply layout_patch_fixed.
Qed.

Lemma layout_patch_idempotent_iff_clean_witness :
  clean (layout_patch typical_layout) = true
  /\ layout_patch (layout_patch typical_layout) = layout_patch typical_layout.
Proof.
  assert (Hclean : clean (layout_patch typical_layout) = true)
    by (vm_compute; reflexivity).
  split; [exact Hclean|].
  exact (proj2 (proj2 (layout_patch_idempotent_iff_clean typical_layout)) Hclean).
Defined.

(** ** Paths *)

Lemma normalize_onto_wf base p :
  wf_path p -> normalize_onto base p = base ++ p.
Proof.
  unfold normalize_onto. intros Hp. revert base.
  induction Hp as [|c p (H0 & H1 & H2 & _) _ IH]; intros base; simpl.
  - by rewrite app_nil_r.
  - rewrite !decide_False by done. by rewrite IH, <- app_assoc.
Qed.

Lemma wf_path_no_slash p : wf_path p -> Forall (fun c => SLASH ∉ c) p.
Proof.
  intros Hp. eapply Forall_impl; [exact Hp|]. by intros c (_ & _ & _ & ?).
Qed.

(** Resolving the string of the working directory gives the working
    directory back. *)
Lemma resolve_step_render base p :
  wf_path p -> resolve_step base (render_path p) = p.
Proof.
  intros Hp. unfold resolve_step, render_path. rewrite N.eqb_refl.
  rewrite split_on_cons, N.eqb_refl. destruct p as [|c p].
  - done.
  - rewrite split_join; [|done|by apply wf_path_no_slash].
    change (normalize_onto [] ([] :: c :: p)) with (normalize_onto [] (c :: p)).
    by rewrite normalize_onto_wf.
Qed.

(** Lines 48-49: the two calls of [path.resolve] agree, so that the
    project name is the last component of the target directory. *)
Lemma resolve_with_cwd cwd providedPath :
  wf_path cwd ->
  path_resolve cwd [render_path cwd; providedPath]
  = path_resolve cwd [providedPath].
Proof.
  intros Hcwd. unfold path_resolve. cbn [fold_left].
  by rewrite resolve_step_render.
Qed.

(** ** Property lists *)

Lemma get_set_eq key v props : get_prop key (set_prop key v props) = Some v.
Proof.
  induction props as [|[k v'] props IH]; simpl.
  - by rewrite decide_True.
  - destruct (decide (k = key)) as [->|Hk]; simpl.
    + by rewrite decide_True.
    + by rewrite decide_False.
Qed.

Lemma get_set_ne key key' v props :
  key <> key' -> get_prop key' (set_prop key v props) = get_prop key' props.
Proof.
  intros Hne. induction props as [|[k v'] props IH]; simpl.
  - by rewrite decide_False.
  - destruct (decide (k = key)) as [->|Hk]; simpl.
    + by rewrite !decide_False.
    + by rewrite IH.
Qed.

Lemma get_delete_eq key props : get_prop key (delete_prop key props) = None.
Proof.
  induction props as [|[k v'] props IH]; simpl; [done|].
  destruct (decide (k = key)) as [->|Hk].
  - by rewrite bool_decide_eq_true_2.
  - rewrite bool_decide_eq_false_2 by done. simpl. by rewrite decide_False.
Qed.

Lemma get_delete_ne key key' props :
  key <> key' -> get_prop key' (delete_prop key props) = get_prop key' props.
Proof.
  intros Hne. induction props as [|[k v'] props IH]; simpl; [done|].
  destruct (decide (k = key)) as [->|Hk].
  - rewrite bool_decide_eq_true_2 by done. simpl. by rewrite decide_False.
  - rewrite bool_decide_eq_false_2 by done. simpl. by rewrite IH.
Qed.

(** The rewrite of lines 92-99 on an object, key by key. *)
Lemma rewrite_manifest_object projectName props :
  exists props',
    rewrite_manifest projectName (VObj props) = Some (VObj props')
    /\ get_prop (js "name") props' = Some (VStr projectName)
    /\ get_prop (js "version") props' = Some (VStr (js "0.0.0"))
    /\ get_prop (js "description") props' = Some (VStr [])
    /\ get_prop (js "keywords") props' = None
    /\ get_prop (js "author") props' = None
    /\ forall key, key ∉ rewritten_keys -> get_prop key props' = get_prop key props.
Proof.
  eexists. split; [reflexivity|].
  repeat split.
  - rewrite !get_set_ne, !get_delete_ne by done. apply get_set_eq.
  - rewrite get_set_ne by done. apply get_set_eq.
  - apply get_set_eq.
  - rewrite !get_set_ne, get_delete_ne by done. apply get_delete_eq.
  - rewrite !get_set_ne by done. apply get_delete_eq.
  - intros key Hkey. unfold rewritten_keys in Hkey.
    rewrite !elem_of_cons, elem_of_nil in Hkey.
    rewrite !get_set_ne, !get_delete_ne, get_set_ne by naive_solver. done.
Qed.

(** ** Running programs *)

Section Running.
Context {A B : Type}.
Implicit Types (m : M A) (k : A -> M B) (w : World).

Lemma bind_Ret m k w w' a : m w = (w', Ret a) -> bind m k w = k a w'.
Proof. unfold bind. by intros ->. Qed.

Lemma bind_Throw m k w w' e : m w = (w', Throw e) -> bind m k w = (w', Throw e).
Proof. unfold bind. by intros ->. Qed.

Lemma bind_Exit m k w w' c : m w = (w', Exit c) -> bind m k w = (w', Exit c).
Proof. unfold bind. by intros ->. Qed.

Lemma try_catch_Ret m (h : error -> M A) w w' a :
  m w = (w', Ret a) -> try_catch m h w = (w', Ret a).
Proof. unfold try_catch. by intros ->. Qed.

Lemma try_catch_Throw m (h : error -> M A) w w' e :
  m w = (w', Throw e) -> try_catch m h w = h e w'.
Proof. unfold try_catch. by intros ->. Qed.

Lemma try_catch_Exit m (h : error -> M A) w w' c :
  m w = (w', Exit c) -> try_catch m h w = (w', Exit c).
Proof. unfold try_catch. by intros ->. Qed.

(** What [bind] does, by the way its first part ends. *)
Lemma bind_cases m k w :
  (exists w' a, m w = (w', Ret a) /\ bind m k w = k a w')
  \/ (exists w' e, m w = (w', Throw e) /\ bind m k w = (w', Throw e))
  \/ (exists w' c, m w = (w', Exit c) /\ bind m k w = (w', Exit c)).
Proof.
  unfold bind. destruct (m w) as [w' [a|e|c]]; [left|right; left|right; right];
    eauto.
Qed.
End Running.

Lemma never_exits_ret {A} (a : A) : never_exits (ret a).
Proof. by intros w w' c. Qed.

Lemma never_exits_throw {A} e : never_exits (@throw A e).
Proof. by intros w w' c. Qed.

Lemma never_exits_or_throw {A} e (o : option A) : never_exits (or_throw e o).
Proof. destruct o; [apply never_exits_ret | apply never_exits_throw]. Qed.

Lemma never_exits_log e : never_exits (log e).
Proof. by intros w w' c. Qed.

Lemma never_exits_fs_call {A : Type} (env : Env) (e : event)
    (run : filesystem -> option (filesystem * A)) :
  never_exits (fs_call env e run).
Proof.
  intros w w' c. unfold fs_call. destruct (io_fails env (clock w)); [done|].
  by destruct (run (fs w)) as [[tree a]|].
Qed.

Lemma never_exits_fs_rm (env : Env) (p : path) : never_exits (fs_rm env p).
Proof.
  intros w w' c. unfold fs_rm. destruct (io_fails env (clock w)); [done|].
  by destruct (rm_in p (fs w)) as [[tree a]|].
Qed.

Lemma never_exits_execAsync (env : Env) (command : jstring) (cwd : option path) : never_exits (execAsync env command cwd).
Proof.
  intros w w' c. unfold execAsync.
  by destruct (exec_run env command cwd (fs w)).2.
Qed.

Lemma never_exits_bind {A B} (m : M A) (k : A -> M B) :
  never_exits m -> (forall a, never_exits (k a)) -> never_exits (bind m k).
Proof.
  intros Hm Hk w w' c.
  destruct (bind_cases m k w) as [(w1 & a & _ & ->)|[(w1 & e & _ & ->)|(w1 & c1 & H & _)]].
  - apply Hk.
  - done.
  - by apply Hm in H.
Qed.

Lemma never_exits_try_catch {A} (m : M A) (h : error -> M A) :
  never_exits m -> (forall e, never_exits (h e)) -> never_exits (try_catch m h).
Proof.
  intros Hm Hh w w' c. unfold try_catch.
  destruct (m w) as [w1 [a|e|c1]] eqn:E; [done|apply Hh|by apply Hm in E].
Qed.

(** A [try] whose [catch] block is empty always goes on. *)
Lemma swallow_returns (m : M unit) w :
  never_exits m -> exists w', try_catch m (fun _ => ret tt) w = (w', Ret tt).
Proof.
  intros Hm. unfold try_catch.
  destruct (m w) as [w1 [[]|e|c1]] eqn:E; [by eexists|by eexists|by apply Hm in E].
Qed.

Lemma for_of_returns {X} (xs : list X) (body : X -> M unit) w :
  (forall x w, exists w', body x w = (w', Ret tt)) ->
  exists w', for_of xs body w = (w', Ret tt).
Proof.
  intros Hbody. revert w. induction xs as [|x xs IH]; intros w; simpl.
  - by eexists.
  - destruct (Hbody x w) as [w1 H1]. rewrite (bind_Ret _ _ _ _ _ H1). apply IH.
Qed.

Lemma sequence_cons (step : M unit) rest :
  sequence (step :: rest) = bind step (fun _ => sequence rest).
Proof. reflexivity. Qed.

Lemma sequence_Ret (step : M unit) rest w w' :
  step w = (w', Ret tt) -> sequence (step :: rest) w = sequence rest w'.
Proof. intros H. rewrite sequence_cons. by rewrite (bind_Ret _ _ _ _ _ H). Qed.

Lemma sequence_Exit (step : M unit) rest w w' c :
  step w = (w', Exit c) -> sequence (step :: rest) w = (w', Exit c).
Proof. intros H. rewrite sequence_cons. by rewrite (bind_Exit _ _ _ _ _ H). Qed.

(** ** The customization step *)

Section Customize.
Variables (rt : Runtime) (env : Env) (css page : jstring) (targetDir : path).

Lemma replace_stylesheet_returns w :
  exists w', replace_stylesheet env css targetDir w = (w', Ret tt).
Proof. apply swallow_returns, never_exits_fs_call. Qed.

Lemma remove_components_returns w :
  exists w', remove_components env targetDir w = (w', Ret tt).
Proof.
  apply for_of_returns. intros file w0.
  apply swallow_returns, never_exits_fs_call.
Qed.

Lemma patch_layout_returns w :
  exists w', patch_layout env targetDir w = (w', Ret tt).
Proof.
  apply swallow_returns, never_exits_bind; [apply never_exits_fs_call|].
  intros a. apply never_exits_fs_call.
Qed.

Lemma overwrite_page_returns w :
  exists w', overwrite_page env page targetDir w = (w', Ret tt).
Proof. apply swallow_returns, never_exits_fs_call. Qed.

Lemma customize_returns w :
  exists w',
    customize env css page targetDir w = (w', Ret tt)
    /\ last (trace w')
       = Some (Spinner Succeed (js "Application files customized.")).
Proof.
  unfold customize.
  set (w0 := {| fs := fs w; clock := clock w;
                trace := trace w ++ [Spinner Start (js "Customizing application files...")] |}).
  destruct (replace_stylesheet_returns w0) as [w1 H1].
  destruct (remove_components_returns w1) as [w2 H2].
  destruct (patch_layout_returns w2) as [w3 H3].
  destruct (overwrite_page_returns w3) as [w4 H4].
  eexists. split.
  - erewrite bind_Ret by reflexivity. fold w0.
    rewrite (bind_Ret _ _ _ _ _ H1), (bind_Ret _ _ _ _ _ H2).
    rewrite (bind_Ret _ _ _ _ _ H3), (bind_Ret _ _ _ _ _ H4).
    reflexivity.
  - simpl. apply last_snoc.
Qed.
End Customize.

(** ** Relating the world before and after *)

Section Respects.
Context (R : relation World) `{!PreOrder R}.

Lemma respects_ret {A} (a : A) : respects R (ret a).
Proof. intros w w' r [= <- _]. reflexivity. Qed.

Lemma respects_throw {A} e : respects R (@throw A e).
Proof. intros w w' r [= <- _]. reflexivity. Qed.

Lemma respects_exit {A} c : respects R (@process_exit A c).
Proof. intros w w' r [= <- _]. reflexivity. Qed.

Lemma respects_or_throw {A} e (o : option A) : respects R (or_throw e o).
Proof. destruct o; [apply respects_ret | apply respects_throw]. Qed.

Lemma respects_bind {A B} (m : M A) (k : A -> M B) :
  respects R m -> (forall a, respects R (k a)) -> respects R (bind m k).
Proof.
  intros Hm Hk w w' r. unfold bind.
  destruct (m w) as [w1 [a|e|c]] eqn:E; intros H.
  - etrans; [by eapply Hm | by eapply Hk].
  - injection H as <- _. by eapply Hm.
  - injection H as <- _. by eapply Hm.
Qed.

Lemma respects_try_catch {A} (m : M A) (h : error -> M A) :
  respects R m -> (forall e, respects R (h e)) -> respects R (try_catch m h).
Proof.
  intros Hm Hh w w' r. unfold try_catch.
  destruct (m w) as [w1 [a|e|c]] eqn:E; intros H.
  - injection H as <- _. by eapply Hm.
  - etrans; [by eapply Hm | by eapply Hh].
  - injection H as <- _. by eapply Hm.
Qed.

Lemma respects_for_of {X} (xs : list X) (body : X -> M unit) :
  (forall x, respects R (body x)) -> respects R (for_of xs body).
Proof.
  intros Hbody. induction xs as [|x xs IH]; simpl.
  - apply respects_ret.
  - apply respects_bind; [apply Hbody | by intros _].
Qed.

Lemma respects_sequence (steps : list (M unit)) :
  Forall (respects R) steps -> respects R (sequence steps).
Proof.
  induction 1 as [|step steps Hstep _ IH].
  - apply respects_ret.
  - rewrite sequence_cons. apply respects_bind; [done | by intros _].
Qed.
End Respects.

#[local] Instance keeps_preorder I : PreOrder (keeps I).
Proof.
  split.
  - intros w H. exact H.
  - intros w1 w2 w3 H12 H23 H. by apply H23, H12.
Qed.

#[local] Instance emits_preorder P : PreOrder (emits P).
Proof.
  split.
  - intros w. exists []. by rewrite app_nil_r.
  - intros w1 w2 w3 (e12 & H12 & P12) (e23 & H23 & P23).
    exists (e12 ++ e23). split; [|by apply Forall_app].
    by rewrite H23, H12, <- app_assoc.
Qed.

Lemma keeps_log (I : filesystem -> Prop) (e : event) : respects (keeps I) (log e).
Proof. intros w w' r [= <- _] H. exact H. Qed.

Lemma keeps_fs_call {A : Type} (I : filesystem -> Prop) (env : Env) (e : event)
    (run : filesystem -> option (filesystem * A)) :
  (forall tree tree' a, run tree = Some (tree', a) -> I tree -> I tree') ->
  respects (keeps I) (fs_call env e run).
Proof.
  intros Hrun w w' r. unfold fs_call, keeps.
  destruct (io_fails env (clock w)); [by intros [= <- _]|].
  destruct (run (fs w)) as [[tree a]|] eqn:E; intros [= <- _]; simpl; eauto.
Qed.

(** What a removal leaves, failed or not: no new entry, and the entries
    that are not below the path as they were. *)
Lemma fs_rm_leaves (env : Env) (p : path) (w w' : World) (r : outcome unit) :
  fs_rm env p w = (w', r) ->
  fs w' ⊆ fs w
  /\ forall q : path, ~ p `prefix_of` q -> fs w' !! q = fs w !! q.
Proof.
  unfold fs_rm, rm_in.
  destruct (io_fails env (clock w));
    [|destruct (not_a_directory p (fs w))]; intros [= <- _]; cbn [fs].
  - split; [apply map_filter_subseteq|]. intros q Hq.
    destruct (fs w !! q) as [nd|] eqn:E.
    + apply map_lookup_filter_Some_2; [done|]. by intros [? _].
    + apply map_lookup_filter_None_2. by left.
  - done.
  - split; [apply map_filter_subseteq|]. intros q Hq.
    destruct (fs w !! q) as [nd|] eqn:E.
    + by apply map_lookup_filter_Some_2.
    + apply map_lookup_filter_None_2. by left.
Qed.

Lemma keeps_fs_rm (I : filesystem -> Prop) (env : Env) (p : path) :
  (forall tree tree' : filesystem,
     tree' ⊆ tree ->
     (forall q : path, ~ p `prefix_of` q -> tree' !! q = tree !! q) ->
     I tree -> I tree') ->
  respects (keeps I) (fs_rm env p).
Proof.
  intros Hrm w w' r Hrun. unfold keeps.
  apply fs_rm_leaves in Hrun as [Hsub Hout]. by apply Hrm.
Qed.

Lemma keeps_execAsync (I : filesystem -> Prop) (env : Env) (command : jstring) (cwd : option path) :
  (forall tree, I tree -> I (exec_run env command cwd tree).1) ->
  respects (keeps I) (execAsync env command cwd).
Proof. intros Hrun w w' r. unfold execAsync, keeps. intros [= <- _]. apply Hrun. Qed.

Lemma emits_log (P : event -> Prop) e : P e -> respects (emits P) (log e).
Proof.
  intros He w w' r [= <- _]. exists [e]. split; [done | by constructor].
Qed.

Lemma emits_fs_call {A : Type} (P : event -> Prop) (env : Env) (e : event)
    (run : filesystem -> option (filesystem * A)) :
  P e -> respects (emits P) (fs_call env e run).
Proof.
  intros He w w' r. unfold fs_call, emits.
  destruct (io_fails env (clock w)); [|destruct (run (fs w)) as [[tree a]|]];
    intros [= <- _]; exists [e]; (split; [done | by constructor]).
Qed.

Lemma emits_fs_rm (P : event -> Prop) (env : Env) (p : path) :
  P (Rm p) -> respects (emits P) (fs_rm env p).
Proof.
  intros He w w' r. unfold fs_rm, emits.
  destruct (io_fails env (clock w)); [|destruct (rm_in p (fs w)) as [[tree a]|]];
    intros [= <- _]; exists [Rm p]; (split; [done | by constructor]).
Qed.

Lemma emits_execAsync (P : event -> Prop) (env : Env)
    (command : jstring) (cwd : option path) :
  P (Exec command cwd) -> respects (emits P) (execAsync env command cwd).
Proof.
  intros He w w' r. unfold execAsync, emits. intros [= <- _].
  exists [Exec command cwd]. split; [done | by constructor].
Qed.

Ltac respects_steps :=
  repeat first
    [ match goal with
      | |- PreOrder _ => exact _
      | |- forall _, _ => intros ?
      end
    | apply respects_bind
    | apply respects_try_catch
    | apply respects_for_of
    | apply respects_ret
    | apply respects_throw
    | apply respects_exit
    | apply respects_or_throw
    | by apply emits_log
    | by apply emits_fs_call
    | by apply emits_fs_rm
    | by apply emits_execAsync
    | apply keeps_log ].

Lemma customize_uneventful (env : Env) (css page : jstring) (targetDir : path) :
  respects (emits uneventful) (customize env css page targetDir).
Proof.
  unfold customize, replace_stylesheet, remove_components, patch_layout,
    overwrite_page, fs_writeFile, fs_unlink, fs_readFile.
  respects_steps.
Qed.

(** C6.  Whatever the calls of the four sub-operations do (each may fail
    or succeed, for any reason), the customization step ends normally and
    its last word is the success of its spinner; it shows no failure and no
    warning and exits nowhere; and [main] goes on with the statement that
    follows it, the reset of version control. *)
Theorem customization_never_blocks
    (rt : Runtime) (env : Env) (css page : jstring)
    (targetDir : path) (projectName : jstring) (w : World) :
  let steps := pipeline rt env css page targetDir projectName in
  exists w',
    customize env css page targetDir w = (w', Ret tt)
    /\ last (trace w')
       = Some (Spinner Succeed (js "Application files customized."))
    /\ emits uneventful w w'
    /\ drop 4 steps
       = customize env css page targetDir
         :: setup_version_control env targetDir :: drop 6 steps
    /\ sequence (drop 4 steps) w = sequence (drop 5 steps) w'.
Proof.
  intros steps.
  destruct (customize_returns env css page targetDir w) as (w' & Hrun & Hlast).
  exists w'. repeat split; try done.
  - by eapply customize_uneventful.
  - unfold steps, pipeline. cbn [drop]. by apply sequence_Ret.
Qed.

(** ** The check of the target directory *)

Lemma children_elem_of (tree : filesystem) (p : path) (name : jstring) :
  name ∈ children tree p <-> is_Some (tree !! (p ++ [name])).
Proof.
  unfold children. rewrite list_elem_of_omap. split.
  - intros (q & Hq & Hname).
    apply list_elem_of_fmap in Hq as ([q' nd] & -> & Hq). simpl in Hname.
    apply elem_of_map_to_list in Hq.
    destruct (last q') as [name'|] eqn:Hlast; [|done].
    destruct (decide (removelast q' = p)) as [<-|]; [|done].
    injection Hname as ->. apply last_Some in Hlast as [l' ->].
    rewrite removelast_last. by exists nd.
  - intros [nd Hnd]. exists (p ++ [name]). split.
    + apply list_elem_of_fmap. exists (p ++ [name], nd).
      split; [done | by apply elem_of_map_to_list].
    + rewrite last_snoc, removelast_last. by rewrite decide_True.
Qed.

Lemma children_nonempty (tree : filesystem) (p : path) (name : jstring) :
  is_Some (tree !! (p ++ [name])) -> (0 <? length (children tree p))%nat = true.
Proof.
  intros H%children_elem_of. apply Nat.ltb_lt.
  destruct (children tree p); [by apply elem_of_nil in H | simpl; lia].
Qed.

Section CheckTarget.
Variables (env : Env) (targetDir : path) (w : World).

(** The listing when neither call fails and the target is a directory. *)
Lemma list_target_succeeds :
  io_fails env (clock w) = false ->
  io_fails env (S (clock w)) = false ->
  lookup_node (fs w) targetDir = Some Dir ->
  exists w1,
    list_target env targetDir w = (w1, Ret (children (fs w) targetDir))
    /\ fs w1 = fs w
    /\ trace w1 = trace w ++ [Access targetDir; Readdir targetDir].
Proof.
  intros H0 H1 Hdir. eexists. split.
  - unfold list_target, bind, fs_access, fs_readdir, fs_call, access_in,
      readdir_in.
    rewrite H0, Hdir. simpl. rewrite H1, Hdir. reflexivity.
  - simpl. by rewrite <- app_assoc.
Qed.

(** The listing changes nothing and shows nothing, however it ends. *)
Lemma list_target_probes w1 r :
  list_target env targetDir w = (w1, r) ->
  fs w1 = fs w
  /\ (trace w1 = trace w ++ [Access targetDir]
      \/ trace w1 = trace w ++ [Access targetDir; Readdir targetDir]).
Proof.
  unfold list_target, bind, fs_access, fs_readdir, fs_call, access_in,
    readdir_in.
  repeat case_match; simplify_eq; intros [= <- _]; simpl;
    rewrite <- ?app_assoc; auto.
Qed.

(** What the check does, by the way the listing ends. *)
Lemma check_target_listed w1 files :
  list_target env targetDir w = (w1, Ret files) ->
  check_target env targetDir w =
  if (0 <? length files)%nat then
    ({| fs := fs w1; clock := clock w1;
        trace := trace w1 ++ [ConsoleError (not_empty_message targetDir)] |},
     Exit 1)
  else (w1, Ret tt).
Proof.
  intros H. unfold check_target, try_catch.
  rewrite (bind_Ret _ _ _ _ _ H). by destruct (0 <? length files)%nat.
Qed.

Lemma check_target_unlisted w1 e :
  list_target env targetDir w = (w1, Throw e) ->
  check_target env targetDir w = (w1, Ret tt).
Proof.
  intros H. unfold check_target, try_catch.
  by rewrite (bind_Throw _ _ _ _ _ H).
Qed.

Lemma list_target_never_exits : never_exits (list_target env targetDir).
Proof.
  apply never_exits_bind; [apply never_exits_fs_call|].
  intros _. apply never_exits_fs_call.
Qed.

(** The check ends the process only after a listing that succeeded and
    was not empty. *)
Lemma check_target_exit w' c :
  check_target env targetDir w = (w', Exit c) ->
  exists w1 files,
    list_target env targetDir w = (w1, Ret files)
    /\ files <> [] /\ c = 1%Z
    /\ trace w' = trace w1 ++ [ConsoleError (not_empty_message targetDir)].
Proof.
  destruct (list_target env targetDir w) as [w1 [files|e|c1]] eqn:E.
  - rewrite (check_target_listed _ _ E).
    destruct files as [|f files]; simpl; [done|].
    intros [= <- <-]. by exists w1, (f :: files).
  - by rewrite (check_target_unlisted _ _ E).
  - by apply list_target_never_exits in E.
Qed.
End CheckTarget.

(** ** Runs of [main] *)

Section Main.
Variables (rt : Runtime) (env : Env) (css page : jstring).
Variables (cwd : path) (providedPath : jstring) (rest : list jstring).

Let targetDir := path_resolve cwd [render_path cwd; providedPath].
Let projectName := path_basename (path_resolve cwd [providedPath]).
Let steps := pipeline rt env css page targetDir projectName.

Lemma main_Exit w w' c :
  sequence steps w = (w', Exit c) ->
  main rt env css page cwd (providedPath :: rest) w = (w', Exit c).
Proof. intros H. unfold main. by apply try_catch_Exit. Qed.

Lemma main_Ret w w' :
  sequence steps w = (w', Ret tt) ->
  main rt env css page cwd (providedPath :: rest) w = (w', Ret tt).
Proof. intros H. unfold main. by apply try_catch_Ret. Qed.

Lemma clone_repository_fails w :
  (exec_run env (clone_command targetDir) None (fs w)).2 = false ->
  exists w',
    clone_repository env targetDir w = (w', Exit 1)
    /\ fs w' = (exec_run env (clone_command targetDir) None (fs w)).1
    /\ trace w'
       = trace w
         ++ [ Spinner Start (js "Setting up project...");
              Exec (clone_command targetDir) None;
              Spinner Fail (js "Project setup failed: Cloning repository failed.") ].
Proof.
  intros Hfail. eexists. split.
  - unfold clone_repository, bind, try_catch, execAsync, log, process_exit.
    simpl. rewrite Hfail. reflexivity.
  - simpl. by rewrite <- !app_assoc.
Qed.
End Main.

(** C3 does not hold of the code.  The target exists and holds a file,
    but the listing is refused (the second call of [fs] fails): the catch
    block of lines 59-61, whose comment takes every failure for a missing
    directory, swallows the error, nothing is printed about the directory,
    and the program runs [git clone], which asks for a change of the
    tree. *)
Lemma occupied_target_claim_fails :
  ~ occupied_target_claim (sample_runtime []) unreadable_env [] []
      sample_cwd (js "my-app") (initial_world occupied_home).
Proof.
  intros Hclaim.
  destruct Hclaim as (_ & _ & evs & Htrace & Hread & _).
  - vm_compute. eauto.
  - exists (js "notes.txt"). vm_compute. eauto.
  - vm_compute in Htrace. subst evs. vm_compute in Hread. discriminate.
Qed.

(** C3, for the runs in which the check can look into the target.  When
    the target is a directory with at least one entry and neither the
    existence check nor the listing fails, [main] prints
    that the directory is not empty and ends the process with code 1,
    having done nothing but these two calls: the tree is as it was. *)
Theorem occupied_target_aborts
    (rt : Runtime) (env : Env) (css page : jstring)
    (cwd : path) (providedPath : jstring) (rest : list jstring)
    (w : World) (name : jstring) :
  let targetDir := path_resolve cwd [render_path cwd; providedPath] in
  io_fails env (clock w) = false ->
  io_fails env (S (clock w)) = false ->
  lookup_node (fs w) targetDir = Some Dir ->
  is_Some (fs w !! (targetDir ++ [name])) ->
  exists w',
    main rt env css page cwd (providedPath :: rest) w = (w', Exit 1)
    /\ exit_code (Exit 1) <> 0%Z
    /\ fs w' = fs w
    /\ trace w'
       = trace w
         ++ [ Access targetDir; Readdir targetDir;
              ConsoleError (not_empty_message targetDir) ]
    /\ read_only [ Access targetDir; Readdir targetDir;
                   ConsoleError (not_empty_message targetDir) ] = true.
Proof.
  intros targetDir H0 H1 Hdir Hentry.
  destruct (list_target_succeeds env targetDir w H0 H1 Hdir)
    as (w1 & Hlist & Hfs & Htrace).
  pose proof (check_target_listed _ _ _ _ _ Hlist) as Hcheck.
  rewrite (children_nonempty _ _ _ Hentry) in Hcheck.
  eexists. split; [|split; [done|split; [|split; [|done]]]].
  - apply main_Exit. unfold pipeline. apply sequence_Exit. exact Hcheck.
  - done.
  - simpl. by rewrite Htrace, <- app_assoc.
Qed.

Lemma occupied_target_aborts_witness :
  exists w',
    main (sample_runtime []) (sample_env sample_manifest) [] []
      sample_cwd [js "my-app"] (initial_world occupied_home) = (w', Exit 1)
    /\ fs w' = occupied_home.
Proof.
  destruct (occupied_target_aborts (sample_runtime [])
              (sample_env sample_manifest) [] [] sample_cwd (js "my-app") []
              (initial_world occupied_home) (js "notes.txt"))
    as (w' & Hrun & _ & Hfs & _).
  - reflexivity.
  - reflexivity.
  - vm_compute. reflexivity.
  - vm_compute. eauto.
  - exists w'. by split.
Defined.

(** The listing throws when one of its two calls fails or the target is
    a file. *)
Lemma list_target_throws (env : Env) (targetDir : path) (w : World) :
  is_Some (lookup_node (fs w) targetDir) ->
  io_fails env (clock w) = true
  \/ io_fails env (S (clock w)) = true
  \/ (exists content, lookup_node (fs w) targetDir = Some (File content)) ->
  exists w1 e, list_target env targetDir w = (w1, Throw e).
Proof.
  intros [nd Hnd] Hfails.
  unfold list_target, bind, fs_access, fs_readdir, fs_call, access_in,
    readdir_in. rewrite Hnd.
  destruct (io_fails env (clock w)) eqn:H0; [by eauto|]. simpl.
  destruct (io_fails env (S (clock w))) eqn:H1; [by eauto|].
  destruct Hfails as [?|[?|[content Hfile]]]; [done..|].
  rewrite Hnd in Hfile. injection Hfile as ->. rewrite Hnd. by eauto.
Qed.

(** C9.  If the target exists but reading it fails (the existence check
    or the listing is refused, or the target is a file), the check ends
    normally without a word and without a change, and [main] goes on with
    the clone, as it does for a target that is not there.  And the check
    ends the process only after a listing that succeeded and returned at
    least one name. *)
Theorem unreadable_target_is_skipped
    (rt : Runtime) (env : Env) (css page : jstring)
    (targetDir : path) (projectName : jstring) (w : World) :
  let steps := pipeline rt env css page targetDir projectName in
  (is_Some (lookup_node (fs w) targetDir) ->
   io_fails env (clock w) = true
   \/ io_fails env (S (clock w)) = true
   \/ (exists content, lookup_node (fs w) targetDir = Some (File content)) ->
   exists w1,
     check_target env targetDir w = (w1, Ret tt)
     /\ fs w1 = fs w
     /\ (trace w1 = trace w ++ [Access targetDir]
         \/ trace w1 = trace w ++ [Access targetDir; Readdir targetDir])
     /\ sequence steps w = sequence (drop 1 steps) w1
     /\ drop 1 steps = clone_repository env targetDir :: drop 2 steps)
  /\ (forall w' c,
        check_target env targetDir w = (w', Exit c) ->
        exists w1 files,
          list_target env targetDir w = (w1, Ret files)
          /\ files <> [] /\ c = 1%Z
          /\ trace w' = trace w1 ++ [ConsoleError (not_empty_message targetDir)]).
Proof.
  intros steps. split.
  - intros Hexists Hfails.
    destruct (list_target_throws env targetDir w Hexists Hfails) as (w1 & e & Hlist).
    pose proof (check_target_unlisted _ _ _ _ _ Hlist) as Hcheck.
    destruct (list_target_probes _ _ _ _ _ Hlist) as [Hfs Htrace].
    exists w1. repeat split; try done.
    unfold steps, pipeline. cbn [drop]. by apply sequence_Ret.
  - apply check_target_exit.
Qed.

Lemma unreadable_target_is_skipped_witness :
  exists w1,
    check_target unreadable_env sample_target (initial_world occupied_home)
    = (w1, Ret tt)
    /\ fs w1 = occupied_home.
Proof.
  destruct (proj1 (unreadable_target_is_skipped (sample_runtime [])
                     unreadable_env [] [] sample_target (js "my-app")
                     (initial_world occupied_home)))
    as (w1 & Hcheck & Hfs & _).
  - vm_compute. eauto.
  - right; left. reflexivity.
  - exists w1. by split.
Defined.

(** C8.  When [git clone] does not exit with 0, [main] shows the failure
    of the spinner and ends the process with code 1; that is the last
    thing it does, so that none of the later steps runs and the tree is as
    the clone left it. *)
Theorem clone_failure_aborts
    (rt : Runtime) (env : Env) (css page : jstring)
    (cwd : path) (providedPath : jstring) (rest : list jstring)
    (w w1 : World) :
  let targetDir := path_resolve cwd [render_path cwd; providedPath] in
  let clone := exec_run env (clone_command targetDir) None (fs w1) in
  check_target env targetDir w = (w1, Ret tt) ->
  clone.2 = false ->
  exists w',
    main rt env css page cwd (providedPath :: rest) w = (w', Exit 1)
    /\ exit_code (Exit 1) <> 0%Z
    /\ fs w' = clone.1
    /\ trace w'
       = trace w1
         ++ [ Spinner Start (js "Setting up project...");
              Exec (clone_command targetDir) None;
              Spinner Fail (js "Project setup failed: Cloning repository failed.") ].
Proof.
  intros targetDir clone Hcheck Hfail.
  destruct (clone_repository_fails env cwd providedPath w1 Hfail)
    as (w' & Hclone & Hfs & Htrace).
  exists w'. repeat split; try done.
  apply main_Exit. unfold pipeline.
  rewrite (sequence_Ret _ _ _ _ Hcheck). by apply sequence_Exit.
Qed.

Lemma clone_failure_aborts_witness :
  exists w',
    main (sample_runtime []) unreadable_env [] [] sample_cwd [js "my-app"]
      (initial_world empty_home) = (w', Exit 1)
    /\ fs w' = empty_home.
Proof.
  destruct (clone_failure_aborts (sample_runtime []) unreadable_env [] []
              sample_cwd (js "my-app") []
              (initial_world empty_home)
              {| fs := empty_home; clock := 1;
                 trace := [Access sample_target] |})
    as (w' & Hrun & _ & Hfs & _).
  - vm_compute. reflexivity.
  - reflexivity.
  - exists w'. split; [exact Hrun | exact Hfs].
Defined.

(** ** The report *)

(** A run that ended normally, as a pair. *)
Lemma outcome_eq (run : World * outcome unit) :
  run.2 = Ret tt -> run = (run.1, Ret tt).
Proof. destruct run as [w r]. simpl. by intros ->. Qed.

Lemma bind_assoc {A B C} (m : M A) (k : A -> M B) (h : B -> M C) w :
  bind (bind m k) h w = bind m (fun a => bind (k a) h) w.
Proof. unfold bind. by destruct (m w) as [w1 [a|e|c]]. Qed.

Lemma sequence_app (l1 l2 : list (M unit)) w :
  sequence (l1 ++ l2) w = bind (sequence l1) (fun _ => sequence l2) w.
Proof.
  revert w. induction l1 as [|step l1 IH]; intros w; [done|].
  rewrite <- app_comm_cons, !sequence_cons, bind_assoc.
  unfold bind at 1 2.
  destruct (step w) as [w1 [[]|e|c]]; [apply IH|done..].
Qed.

Lemma sequence_take_Ret (steps : list (M unit)) (k : nat) w w' :
  sequence (take k steps) w = (w', Ret tt) ->
  sequence steps w = sequence (drop k steps) w'.
Proof.
  intros H. rewrite <- (take_drop k steps) at 1.
  by rewrite sequence_app, (bind_Ret _ _ _ _ _ H).
Qed.

Lemma fs_readFile_run (env : Env) (p : path) (w : World) :
  fs_readFile env p w =
  ({| fs := fs w; clock := S (clock w); trace := trace w ++ [ReadFile p] |},
   if io_fails env (clock w) then Throw IOError
   else match lookup_node (fs w) p with
        | Some (File content) => Ret content
        | _ => Throw IOError
        end).
Proof.
  unfold fs_readFile, fs_call, readFile_in.
  destruct (io_fails env (clock w)); [done|].
  by destruct (lookup_node (fs w) p) as [[content|]|].
Qed.

(** The part of the report between the read and the spinner: no world is
    involved. *)
Lemma report_text_chain (rt : Runtime) (text : jstring) :
  report_text rt (Some text) =
  match JSON_parse rt text with
  | Some pkgJson =>
      match get_scripts pkgJson with
      | Some scripts =>
          match describe_scripts rt scripts with
          | Some availableScripts => availableScripts
          | None => unable_message
          end
      | None => unable_message
      end
  | None => unable_message
  end.
Proof.
  unfold report_text, get_scripts, describe_scripts.
  destruct (JSON_parse rt text) as [[| | | | |props]|]; try reflexivity.
  destruct (get_prop (js "scripts") props) as [scripts|]; [|reflexivity].
  destruct (truthy (Some scripts) && (0 <? length (object_entries scripts))%nat);
    [|reflexivity].
  by destruct (script_lines rt (object_entries scripts)).
Qed.

(** The report ends normally whatever happens, does not touch the tree,
    and shows last the text computed from what it read. *)
Lemma report_shows (rt : Runtime) (env : Env) (targetDir : path) (w : World) :
  exists w',
    report rt env targetDir w = (w', Ret tt)
    /\ fs w' = fs w
    /\ last (trace w')
       = Some (ConsoleLog (boxen rt (report_text rt (manifest_read env targetDir w)))).
Proof.
  unfold report.
  erewrite bind_Ret by reflexivity.
  set (w0 := {| fs := fs w; clock := clock w;
                trace := trace w ++ [Spinner Start (js "Finalizing setup...")] |}).
  assert (exists w1,
    try_catch
      (let* pkgData := fs_readFile env (pkgPath targetDir) in
       let* pkgJson := parse rt pkgData in
       let* scripts := or_throw TypeError (get_scripts pkgJson) in
       let* availableScripts := or_throw TypeError (describe_scripts rt scripts) in
       log (Spinner Succeed (js "Setup finalized.")) ;; ret availableScripts)
      (fun _ =>
         log (Spinner Warn (js "Final setup encountered issues.")) ;;
         ret (js "Unable to fetch npm scripts.")) w0
    = (w1, Ret (report_text rt (manifest_read env targetDir w)))
    /\ fs w1 = fs w) as (w1 & Htry & Hfs).
  { unfold try_catch, bind at 1. rewrite fs_readFile_run.
    unfold manifest_read. change (clock w0) with (clock w).
    change (fs w0) with (fs w).
    destruct (io_fails env (clock w)); [by eexists|].
    destruct (lookup_node (fs w) (pkgPath targetDir)) as [[text|]|];
      [|by eexists..].
    rewrite report_text_chain. unfold parse, bind, or_throw, ret, throw, log.
    destruct (JSON_parse rt text) as [pkgJson|]; [|by eexists].
    destruct (get_scripts pkgJson) as [scripts|]; [|by eexists].
    destruct (describe_scripts rt scripts) as [availableScripts|]; by eexists. }
  eexists. split; [|split].
  - rewrite (bind_Ret _ _ _ _ _ Htry). reflexivity.
  - done.
  - apply last_snoc.
Qed.

(** [String(v)] on some parsed values. *)
Example to_string_array :
  to_string odd_runtime (VArr [VStr (js "a"); VNull; VArr [VBool true; VObj []]])
  = Some (js "a,,true,[object Object]").
Proof. vm_compute. reflexivity. Qed.

Example to_string_own_toString :
  to_string odd_runtime (VObj [(js "toString", VBool true)]) = None.
Proof. vm_compute. reflexivity. Qed.

Example describe_scripts_string :
  describe_scripts odd_runtime (Some (VStr (js "ab")))
  = Some (js "npm run 0  ->  a" ++ [LF] ++ js "npm run 1  ->  b").
Proof. vm_compute. reflexivity. Qed.

Example describe_scripts_empty :
  describe_scripts odd_runtime (Some (VObj [])) = Some no_scripts_message
  /\ describe_scripts odd_runtime (Some (VNum 0)) = Some no_scripts_message
  /\ describe_scripts odd_runtime None = Some no_scripts_message.
Proof. vm_compute. repeat split. Qed.

(** The lines of the summary: one per entry, each made of the name of the
    script and of the string of its command; there are lines only if every
    command has a string. *)
Lemma script_lines_spec (rt : Runtime) (entries : list (jstring * value))
    (ls : list jstring) :
  script_lines rt entries = Some ls <->
  Forall2
    (fun entry line =>
       exists command,
         to_string rt entry.2 = Some command
         /\ line = js "npm run " ++ entry.1 ++ js "  ->  " ++ command)
    entries ls.
Proof.
  revert ls. induction entries as [|entry entries IH]; intros ls.
  - simpl. split; [intros [= <-]; constructor | by inversion 1].
  - cbn [script_lines]. unfold script_line at 1. split.
    + destruct (to_string rt entry.2) as [command|] eqn:Hcommand; [|done].
      destruct (script_lines rt entries) as [ls'|] eqn:Hrest; [|done].
      intros [= <-]. constructor; [by exists command | by apply IH].
    + inversion 1 as [|? line ? ls' (command & Hcommand & ->) Hrest]; subst.
      apply IH in Hrest. by rewrite Hcommand, Hrest.
Qed.

(** C7, as stated, fails.  The manifest read back has a [scripts] object
    with one entry, and neither the read nor the parse fails; but the
    command of the entry is an object with an own [toString] property, the
    template literal throws a TypeError, and the report shows that it is
    unable to fetch the scripts. *)
Lemma report_claim_fails :
  ~ report_claim odd_runtime (sample_env odd_manifest) sample_target odd_project.
Proof.
  set (rt := odd_runtime).
  set (env := sample_env odd_manifest).
  intros (w' & shown & Hrun & Hlast & Hcase).
  destruct (report_shows rt env sample_target odd_project)
    as (w'' & Hrun' & _ & Hlast').
  rewrite Hrun in Hrun'. injection Hrun' as <-.
  assert (Htext : report_text rt (manifest_read env sample_target odd_project)
                  = unable_message)
    by (vm_compute; reflexivity).
  rewrite Hlast, Htext in Hlast'.
  apply (f_equal (fun o => match o with
                           | Some (ConsoleLog text) => text
                           | _ => []
                           end)) in Hlast'.
  cbv beta iota delta [boxen rt odd_runtime sample_runtime] in Hlast'.
  rename Hlast' into Hshown.
  assert (Hread : manifest_read env sample_target odd_project
                  = Some (json_text (fun _ => js "0") [] odd_rewritten))
    by (vm_compute; reflexivity).
  assert (Hparse : JSON_parse rt (json_text (fun _ => js "0") [] odd_rewritten)
                   = Some odd_rewritten)
    by (vm_compute; reflexivity).
  rewrite Hread, Hparse in Hcase.
  destruct Hcase as (commands & Hlen & Hlines).
  destruct commands as [|command [|? ?]]; [discriminate Hlen| |discriminate Hlen].
  rewrite Hlines in Hshown. vm_compute in Hshown. discriminate Hshown.
Qed.

(** The whole run on that manifest: it ends normally, and the last thing
    shown is that the scripts cannot be fetched. *)
Example odd_run_shows_unable :
  let run :=
    main odd_runtime (sample_env odd_manifest) [] [] sample_cwd [js "my-app"]
      (initial_world empty_home) in
  run.2 = Ret tt /\ last (trace run.1) = Some (ConsoleLog unable_message).
Proof. vm_compute. split; reflexivity. Qed.

(** C7, amended.  The report never ends the process: it always returns
    normally, so that a run that reaches it ends with exit code 0, and it
    does not touch the tree.  What it shows last, in the box, is: one line
    [npm run <name>  ->  <command>] per entry when the manifest read back
    has a truthy [scripts] value with at least one entry and every command
    converts to a string; the fixed message that there are no scripts when
    [scripts] is absent, falsy or without entries; the fixed message that
    the scripts cannot be fetched when the read or the parse fails, when
    the manifest is [null], or when the conversion of a command throws (a
    command that is an object with an own [toString] property). *)
Theorem report_never_aborts
    (rt : Runtime) (env : Env) (css page : jstring)
    (cwd : path) (providedPath : jstring) (rest : list jstring)
    (w0 : World) :
  let targetDir := path_resolve cwd [render_path cwd; providedPath] in
  let projectName := path_basename (path_resolve cwd [providedPath]) in
  let steps := pipeline rt env css page targetDir projectName in
  let before := sequence (take 7 steps) w0 in
  before.2 = Ret tt ->
  exists w',
    report rt env targetDir before.1 = (w', Ret tt)
    /\ main rt env css page cwd (providedPath :: rest) w0 = (w', Ret tt)
    /\ exit_code (Ret tt) = 0%Z
    /\ fs w' = fs before.1
    /\ last (trace w')
       = Some (ConsoleLog
                 (boxen rt (report_text rt (manifest_read env targetDir before.1)))).
Proof.
  intros targetDir projectName steps before Hbefore.
  apply outcome_eq in Hbefore.
  destruct (report_shows rt env targetDir before.1) as (w' & Hrun & Hfs & Hlast).
  exists w'. split; [exact Hrun|]. split; [|by repeat split].
  apply main_Ret. fold targetDir projectName steps.
  rewrite (sequence_take_Ret _ _ _ _ Hbefore).
  unfold steps, pipeline. cbn [drop].
  rewrite sequence_cons, (bind_Ret _ _ _ _ _ Hrun). reflexivity.
Qed.

Lemma report_never_aborts_witness :
  exists w',
    main (sample_runtime [sample_manifest; sample_rewritten])
      (sample_env sample_manifest) [] [] sample_cwd [js "my-app"]
      (initial_world empty_home)
    = (w', Ret tt).
Proof.
  destruct (report_never_aborts
              (sample_runtime [sample_manifest; sample_rewritten])
              (sample_env sample_manifest) [] [] sample_cwd (js "my-app") []
              (initial_world empty_home))
    as (w' & _ & Hmain & _).
  - vm_compute. reflexivity.
  - exists w'. exact Hmain.
Defined.

(** ** The manifest rewrite *)

Lemma lookup_node_snoc (tree : filesystem) (p : path) (name : jstring) :
  lookup_node tree (p ++ [name]) = tree !! (p ++ [name]).
Proof. unfold lookup_node. by destruct p. Qed.

Lemma fs_writeFile_Ret (env : Env) (p : path) (data : jstring) (w w' : World) :
  fs_writeFile env p data w = (w', Ret tt) ->
  fs w' = <[p := File data]> (fs w).
Proof.
  unfold fs_writeFile, fs_call, writeFile_in.
  destruct (io_fails env (clock w)); [done|].
  destruct (lookup_node (fs w) p) as [[c|]|];
    destruct (lookup_node (fs w) (removelast p)) as [[c'|]|];
    by intros [= <-].
Qed.

(** *** The text that is written *)

Lemma value_induction (P : value -> Prop) :
  P VNull ->
  (forall b, P (VBool b)) ->
  (forall bits, P (VNum bits)) ->
  (forall s, P (VStr s)) ->
  (forall elems, Forall P elems -> P (VArr elems)) ->
  (forall props, Forall (fun kv : jstring * value => P kv.2) props -> P (VObj props)) ->
  forall v, P v.
Proof.
  intros Hnull Hbool Hnum Hstr Harr Hobj. fix IH 1.
  intros [|b|bits|s|elems|props]; [done..| |].
  - apply Harr. revert elems. fix IHelems 1.
    intros [|x elems]; constructor; [apply IH | apply IHelems].
  - apply Hobj. revert props. fix IHprops 1.
    intros [|kv props]; constructor; [apply IH | apply IHprops].
Qed.

Lemma map_json_text_written (number : Z -> jstring) (inner : jstring)
    (elems : list value) :
  Forall (fun v => forall indent,
            json_text number indent (json_written v) = json_text number indent v)
    elems ->
  List.map (json_text number inner) (List.map json_written elems)
  = List.map (json_text number inner) elems.
Proof.
  induction 1 as [|x elems Hx _ IH]; [reflexivity|].
  cbn [List.map]. by rewrite Hx, IH.
Qed.

Lemma map_member_written (number : Z -> jstring) (inner : jstring)
    (props : list (jstring * value)) :
  Forall (fun kv : jstring * value => forall indent,
            json_text number indent (json_written kv.2)
            = json_text number indent kv.2)
    props ->
  List.map (fun kv : jstring * value =>
              QuoteJSONString kv.1 ++ js ": " ++ json_text number inner kv.2)
    (List.map (fun kv : jstring * value => (kv.1, json_written kv.2)) props)
  = List.map (fun kv : jstring * value =>
                QuoteJSONString kv.1 ++ js ": " ++ json_text number inner kv.2)
      props.
Proof.
  induction 1 as [|kv props Hkv _ IH]; [reflexivity|].
  cbn [List.map fst snd]. by rewrite Hkv, IH.
Qed.

(** The text does not tell a value from the value that is written: a
    number that is not finite reads [null] in it, a negative zero [0]. *)
Lemma json_text_written (number : Z -> jstring) (v : value) (indent : jstring) :
  json_text number indent (json_written v) = json_text number indent v.
Proof.
  revert indent. induction v as [|b|bits|s|elems IH|props IH] using value_induction;
    intros indent; try reflexivity.
  - cbn [json_written json_text]. unfold number_json.
    destruct (number_zero bits) eqn:Hzero; [reflexivity|].
    destruct (number_finite bits) eqn:Hfinite.
    + cbn [json_text]. unfold number_json. by rewrite Hzero, Hfinite.
    + reflexivity.
  - pose proof (map_json_text_written number (indent ++ js "  ") elems IH) as Hmap.
    destruct elems as [|x elems]; [reflexivity|].
    cbn [json_written]. cbn [List.map] in *. cbn [json_text].
    cbn [List.map]. by rewrite Hmap.
  - pose proof (map_member_written number (indent ++ js "  ") props IH) as Hmap.
    destruct props as [|kv props]; [reflexivity|].
    cbn [json_written]. cbn [List.map] in *. cbn [json_text].
    cbn [List.map]. by rewrite Hmap.
Qed.

(** What is written is written as it is. *)
Lemma json_written_idempotent (v : value) :
  json_written (json_written v) = json_written v.
Proof.
  induction v as [|b|bits|s|elems IH|props IH] using value_induction;
    try reflexivity.
  - cbn [json_written].
    destruct (number_zero bits) eqn:Hzero; [reflexivity|].
    destruct (number_finite bits) eqn:Hfinite; [|reflexivity].
    cbn [json_written]. by rewrite Hzero, Hfinite.
  - cbn [json_written]. f_equal. rewrite List.map_map.
    apply List.map_ext_in. intros y Hy.
    rewrite Forall_forall in IH. apply IH. by apply list_elem_of_In.
  - cbn [json_written]. f_equal. rewrite List.map_map.
    apply List.map_ext_in. intros y Hy. cbn [fst snd].
    rewrite Forall_forall in IH. f_equal. apply IH. by apply list_elem_of_In.
Qed.

Lemma get_prop_written (key : jstring) (props : list (jstring * value)) :
  get_prop key
    (List.map (fun kv : jstring * value => (kv.1, json_written kv.2)) props)
  = option_map json_written (get_prop key props).
Proof.
  induction props as [|[k v] props IH]; [reflexivity|].
  cbn [List.map get_prop fst snd]. by destruct (decide (k = key)).
Qed.

(** When the step ends normally, it has read a manifest, parsed it,
    rewritten it, serialized it and put the text in place of the file. *)
Lemma setup_package_json_Ret (rt : Runtime) (env : Env)
    (targetDir : path) (projectName : jstring) (w w' : World) :
  setup_package_json rt env targetDir projectName w = (w', Ret tt) ->
  exists text pkgJson rewritten,
    lookup_node (fs w) (pkgPath targetDir) = Some (File text)
    /\ JSON_parse rt text = Some pkgJson
    /\ rewrite_manifest projectName pkgJson = Some rewritten
    /\ stack_overflow rt rewritten = false
    /\ fs w' = <[pkgPath targetDir
                 := File (json_text (Number_toString rt) [] rewritten)]> (fs w).
Proof.
  unfold setup_package_json. erewrite bind_Ret by reflexivity.
  unfold try_catch, bind at 1. rewrite fs_readFile_run. cbn [fs clock].
  destruct (io_fails env (clock w)); [done|].
  destruct (lookup_node (fs w) (pkgPath targetDir)) as [[text|]|]; [|done..].
  unfold parse, bind at 1.
  destruct (JSON_parse rt text) as [pkgJson|] eqn:Hparse; [|done].
  cbn [or_throw ret]. unfold bind at 1.
  destruct (rewrite_manifest projectName pkgJson) as [rewritten|] eqn:Hrewrite;
    [|done].
  cbn [or_throw ret]. unfold bind at 1. unfold JSON_stringify.
  destruct (stack_overflow rt rewritten) eqn:Hstack; [done|].
  cbn [or_throw ret]. unfold bind at 1.
  destruct (fs_writeFile _ _ _ _) as [w1 [[]|e|c]] eqn:Hwrite;
    [|by cbv [bind log process_exit]..].
  apply fs_writeFile_Ret in Hwrite. cbn [fs] in Hwrite.
  intros [= <-]. by exists text, pkgJson, rewritten.
Qed.

Lemma sample_cwd_wf : wf_path sample_cwd.
Proof.
  repeat constructor; try discriminate;
    (intros H; apply list_elem_of_In in H; vm_compute in H;
     repeat (destruct H as [H|H]; [discriminate H|]); exact H).
Qed.

(** C1, as stated, fails.  The manifest of the template has the number
    [1e400] at the key [big]; [JSON.parse] reads it as [Infinity], the
    rewrite leaves it alone, and line 101 writes [null] for it: the
    manifest written has not the value that the key had. *)
Lemma manifest_rewrite_claim_fails :
  ~ manifest_rewrite_claim big_runtime (sample_env sample_manifest)
      sample_cwd (js "my-app") big_project big_text
      [ (js "name", VStr (js "peachy")); (js "big", VNum infinity_bits) ].
Proof.
  intros Hclaim.
  destruct Hclaim as (written & props' & Hfile & Hparse & _ & _ & _ & _ & _ & Hrest).
  - exact sample_cwd_wf.
  - vm_compute. reflexivity.
  - vm_compute. reflexivity.
  - vm_compute. reflexivity.
  - assert (fs (setup_package_json big_runtime (sample_env sample_manifest)
                  (path_resolve sample_cwd [render_path sample_cwd; js "my-app"])
                  (path_basename (path_resolve sample_cwd [js "my-app"]))
                  big_project).1
            !! pkgPath (path_resolve sample_cwd [render_path sample_cwd; js "my-app"])
            = Some (File (json_text (fun _ => js "0") [] big_written))) as Hwritten
      by (vm_compute; reflexivity).
    rewrite Hwritten in Hfile.
    apply (f_equal (fun o => match o with
                             | Some (File content) => content
                             | _ => []
                             end)) in Hfile.
    cbv beta iota in Hfile. rewrite <- Hfile in Hparse.
    assert (JSON_parse big_runtime (json_text (fun _ => js "0") [] big_written)
            = Some big_written) as Hread by (vm_compute; reflexivity).
    rewrite Hread in Hparse. injection Hparse as <-.
    specialize (Hrest (js "big")). vm_compute in Hrest.
    assert (Some VNull = Some (VNum 9218868437227405312)) as Habsurd; [|discriminate].
    apply Hrest. intros Hin. apply list_elem_of_In in Hin.
    repeat (destruct Hin as [Hin|Hin]; [discriminate Hin|]). exact Hin.
Qed.

(** C1, amended.  For a manifest that parses as an object, after the
    rewrite step has ended normally the file of the manifest holds the
    text that [JSON.stringify] with an indentation of two spaces gives for
    an object whose [name] is the last component of the resolved target
    path, whose [version] is ["0.0.0"], whose [description] is the empty
    string, which has neither [keywords] nor [author], and in which every
    other key has the value it had with [null] in the place of every number
    that is not finite and [0] in the place of every negative zero; so the
    value it had when there is no such number in it.  The object itself
    has no such number: it is the value that its text is the text of. *)
Theorem manifest_rewrite_correct
    (rt : Runtime) (env : Env) (cwd : path) (providedPath : jstring)
    (w : World) (text : jstring) (props : list (jstring * value)) :
  let targetDir := path_resolve cwd [render_path cwd; providedPath] in
  let projectName := path_basename (path_resolve cwd [providedPath]) in
  let run := setup_package_json rt env targetDir projectName w in
  wf_path cwd ->
  fs w !! pkgPath targetDir = Some (File text) ->
  JSON_parse rt text = Some (VObj props) ->
  run.2 = Ret tt ->
  exists written,
    fs run.1 !! pkgPath targetDir
    = Some (File (json_text (Number_toString rt) [] (VObj written)))
    /\ json_written (VObj written) = VObj written
    /\ get_prop (js "name") written = Some (VStr (path_basename targetDir))
    /\ get_prop (js "version") written = Some (VStr (js "0.0.0"))
    /\ get_prop (js "description") written = Some (VStr [])
    /\ get_prop (js "keywords") written = None
    /\ get_prop (js "author") written = None
    /\ (forall key,
          key ∉ rewritten_keys ->
          get_prop key written = option_map json_written (get_prop key props))
    /\ (forall key v,
          key ∉ rewritten_keys ->
          get_prop key props = Some v ->
          json_written v = v ->
          get_prop key written = Some v).
Proof.
  intros targetDir projectName run Hcwd Hfile Hparse Hrun.
  apply outcome_eq, setup_package_json_Ret in Hrun
    as (text' & pkgJson & rewritten & Hread & Hparse' & Hrewrite & _ & Hfs).
  unfold pkgPath, path_join in *. rewrite lookup_node_snoc, Hfile in Hread.
  injection Hread as <-. rewrite Hparse in Hparse'. injection Hparse' as <-.
  destruct (rewrite_manifest_object projectName props)
    as (props' & Hrewrite' & Hname & Hversion & Hdescription & Hkeywords
        & Hauthor & Hrest).
  rewrite Hrewrite in Hrewrite'. injection Hrewrite' as ->.
  set (written :=
         List.map (fun kv : jstring * value => (kv.1, json_written kv.2)) props').
  assert (path_basename (path_resolve cwd [render_path cwd; providedPath])
          = projectName) as Hbase.
  { unfold projectName. by rewrite resolve_with_cwd. }
  assert (forall key, key ∉ rewritten_keys ->
            get_prop key written = option_map json_written (get_prop key props))
    as Hothers.
  { intros key Hkey. unfold written. by rewrite get_prop_written, Hrest. }
  exists written.
  split.
  { rewrite Hfs, lookup_insert_eq. do 2 f_equal.
    symmetry. apply (json_text_written _ (VObj props')). }
  split; [apply (json_written_idempotent (VObj props'))|].
  fold targetDir. unfold written at 1 2 3 4 5. rewrite !get_prop_written.
  rewrite Hname, Hversion, Hdescription, Hkeywords, Hauthor.
  unfold targetDir at 1. rewrite Hbase.
  do 5 (split; [reflexivity|]).
  split; [exact Hothers|].
  intros key v Hkey Hv Hexact. rewrite (Hothers key Hkey), Hv. cbn [option_map].
  by rewrite Hexact.
Qed.

Lemma manifest_rewrite_correct_witness :
  exists written,
    fs (setup_package_json (sample_runtime [sample_manifest])
          (sample_env sample_manifest) sample_target (js "my-app") cloned_project).1
      !! pkgPath sample_target
    = Some (File (json_text (fun _ => js "0") [] (VObj written)))
    /\ get_prop (js "name") written = Some (VStr (js "my-app"))
    /\ get_prop (js "license") written = Some (VStr (js "MIT")).
Proof.
  destruct (manifest_rewrite_correct (sample_runtime [sample_manifest])
              (sample_env sample_manifest) sample_cwd (js "my-app")
              cloned_project (sample_stringify sample_manifest)
              [ (js "name", VStr (js "peachy"));
                (js "version", VStr (js "1.4.2"));
                (js "author", VStr (js "someone"));
                (js "scripts", VObj [ (js "start", VStr (js "peach dev"));
                                      (js "build", VStr (js "peach build")) ]);
                (js "keywords", VArr [VStr (js "peach")]);
                (js "license", VStr (js "MIT")) ])
    as (written & Hfile & _ & Hname & _ & _ & _ & _ & Hothers & _).
  - exact sample_cwd_wf.
  - vm_compute. reflexivity.
  - vm_compute. reflexivity.
  - vm_compute. reflexivity.
  - exists written. split; [exact Hfile|]. split; [exact Hname|].
    apply (Hothers (js "license")).
    intros Hin. apply list_elem_of_In in Hin.
    repeat (destruct Hin as [Hin|Hin]; [discriminate Hin|]). exact Hin.
Defined.

(** ** What the steps leave alone *)

Ltac closed_paths_differ :=
  let H := fresh in
  intros H; unfold path_join in H; rewrite <- ?app_assoc in H;
  apply app_inv_head in H; vm_compute in H; discriminate H.

Ltac closed_path_not_under :=
  let H := fresh in
  intros H; unfold path_join in H; rewrite <- ?app_assoc in H;
  apply prefix_app_inv in H; destruct H as [? H];
  vm_compute in H; discriminate H.

Section KeepsTree.
Variable env : Env.

Lemma keeps_readFile (I : filesystem -> Prop) (p : path) :
  respects (keeps I) (fs_readFile env p).
Proof.
  apply keeps_fs_call. intros tree tree' a. unfold readFile_in.
  by repeat case_match; intros [= <- _].
Qed.

Lemma keeps_file_writeFile (p q : path) (data : jstring) (nd : node) :
  p <> q ->
  respects (keeps (fun tree => tree !! q = Some nd)) (fs_writeFile env p data).
Proof.
  intros Hne. apply keeps_fs_call. intros tree tree' a. unfold writeFile_in.
  repeat case_match; intros [= <- _]; by rewrite lookup_insert_ne.
Qed.

Lemma keeps_file_unlink (p q : path) (nd : node) :
  p <> q ->
  respects (keeps (fun tree => tree !! q = Some nd)) (fs_unlink env p).
Proof.
  intros Hne. apply keeps_fs_call. intros tree tree' a. unfold unlink_in.
  repeat case_match; intros [= <- _]; by rewrite lookup_delete_ne.
Qed.

Lemma keeps_file_rm (p q : path) (nd : node) :
  ~ p `prefix_of` q ->
  respects (keeps (fun tree => tree !! q = Some nd)) (fs_rm env p).
Proof.
  intros Hne. apply keeps_fs_rm. intros tree tree' _ Hout Hq.
  by rewrite Hout.
Qed.

Lemma keeps_absent_writeFile (p d : path) (data : jstring) :
  ~ d `prefix_of` p ->
  respects (keeps (absent d)) (fs_writeFile env p data).
Proof.
  intros Hne. apply keeps_fs_call. intros tree tree' a. unfold writeFile_in.
  repeat case_match; intros [= <- _] Habs q Hq;
    (rewrite lookup_insert_ne; [by apply Habs | by intros ->]).
Qed.

Lemma keeps_absent_unlink (p d : path) :
  respects (keeps (absent d)) (fs_unlink env p).
Proof.
  apply keeps_fs_call. intros tree tree' a. unfold unlink_in.
  repeat case_match; intros [= <- _] Habs q Hq.
  apply lookup_delete_None. right. by apply Habs.
Qed.

Lemma keeps_absent_rm (p d : path) :
  respects (keeps (absent d)) (fs_rm env p).
Proof.
  apply keeps_fs_rm. intros tree tree' Hsub _ Habs q Hq.
  eapply lookup_weaken_None; [by apply Habs | exact Hsub].
Qed.

(** After a removal that did not fail, nothing is left there. *)
Lemma rm_in_absent (d : path) (tree tree' : filesystem) :
  rm_in d tree = Some (tree', tt) -> absent d tree'.
Proof.
  unfold rm_in. destruct (not_a_directory d tree); [done|]. intros [= <-] q Hq.
  apply map_lookup_filter_None_2. right. intros nd _ Hnot. by apply Hnot.
Qed.

(** A removal below a regular file is refused and removes nothing; one
    at a path that is missing is not. *)
Lemma rm_in_through_file :
  let tree : filesystem :=
    list_to_map [ ([js "a"], Dir); ([js "a"; js "b"], File (js "text")) ] in
  rm_in [js "a"; js "b"; js "c"] tree = None
  /\ rm_in [js "a"; js "x"; js "c"] tree = Some (tree, tt)
  /\ rm_in [js "a"; js "b"] tree = Some (list_to_map [ ([js "a"], Dir) ], tt).
Proof. repeat split; vm_compute; reflexivity. Qed.

(** Nothing is below a regular file: a removal refused with ENOTDIR had
    nothing to remove. *)
Lemma not_a_directory_absent (p d : path) (tree : filesystem) :
  length p <= length d ->
  removelast p `prefix_of` d ->
  not_a_directory p tree = true -> absent d tree.
Proof.
  intros Hlen Hpre Hnot q Hq. unfold not_a_directory in Hnot.
  apply existsb_exists in Hnot as (k & Hk & Hfile).
  apply in_seq in Hk as [_ Hk]. cbn in Hk.
  unfold regular_file in Hfile.
  destruct (lookup_node tree (take k p)) as [[content|]|]; [|done..].
  apply bool_decide_eq_true in Hfile.
  destruct (tree !! q) as [nd|] eqn:E; [|done].
  assert (Hbelow : take k p `prefix_of` q).
  { transitivity d; [|exact Hq]. transitivity (removelast p); [|exact Hpre].
    rewrite removelast_firstn_len.
    replace (take k p) with (take k (take (Nat.pred (length p)) p)).
    - apply prefix_take.
    - rewrite take_take. f_equal. lia. }
  specialize (Hfile q nd E Hbelow).
  apply (f_equal length) in Hfile. rewrite length_take in Hfile.
  apply prefix_length in Hq. lia.
Qed.
End KeepsTree.

Ltac keeps_steps :=
  repeat first
    [ match goal with
      | |- PreOrder _ => exact _
      | |- forall _, _ => intros ?
      end
    | apply respects_bind
    | apply respects_try_catch
    | apply respects_for_of
    | apply respects_ret
    | apply respects_throw
    | apply respects_exit
    | apply respects_or_throw
    | apply keeps_log
    | apply keeps_readFile
    | apply keeps_absent_unlink
    | apply keeps_absent_rm
    | apply keeps_file_writeFile; closed_paths_differ
    | apply keeps_file_unlink; closed_paths_differ
    | apply keeps_file_rm; closed_path_not_under
    | apply keeps_absent_writeFile; closed_path_not_under
    | by apply keeps_execAsync ].

Section LaterSteps.
Variables (rt : Runtime) (env : Env) (css page : jstring).
Variables (targetDir : path) (projectName : jstring).

(** The file of the manifest keeps its content through the steps that are
    not the rewrite, as long as git and npm leave it alone. *)
Section Manifest.
Variable nd : node.
Let manifest_is (tree : filesystem) : Prop := tree !! pkgPath targetDir = Some nd.

Lemma setup_directories_keeps_manifest :
  respects (keeps manifest_is) (setup_directories env targetDir).
Proof.
  unfold manifest_is, setup_directories, docsDir, blogDir, pkgPath.
  keeps_steps.
Qed.

Lemma customize_keeps_manifest :
  respects (keeps manifest_is) (customize env css page targetDir).
Proof.
  unfold manifest_is, customize, replace_stylesheet, remove_components,
    patch_layout, overwrite_page, cssPath, componentsDir, layoutPath,
    pagePath, pkgPath.
  keeps_steps.
Qed.

Lemma setup_version_control_keeps_manifest :
  command_keeps manifest_is env (js "git init") (Some targetDir) ->
  respects (keeps manifest_is) (setup_version_control env targetDir).
Proof.
  intros Hgit. unfold manifest_is in *.
  unfold setup_version_control, gitDir, pkgPath. keeps_steps.
Qed.
End Manifest.

Lemma install_dependencies_keeps (I : filesystem -> Prop) :
  command_keeps I env (js "npm install") (Some targetDir) ->
  respects (keeps I) (install_dependencies env targetDir).
Proof. intros Hnpm. unfold install_dependencies. keeps_steps. Qed.

Lemma report_keeps (I : filesystem -> Prop) :
  respects (keeps I) (report rt env targetDir).
Proof. unfold report, parse. keeps_steps. Qed.

(** A pruned directory stays away through the later steps, as long as git
    and npm do not make it. *)
Section Pruned.
Variable d : path.
Hypothesis d_pruned : d = docsDir targetDir \/ d = blogDir targetDir.

Lemma setup_package_json_keeps_absent :
  respects (keeps (absent d)) (setup_package_json rt env targetDir projectName).
Proof.
  unfold setup_package_json, parse, pkgPath.
  destruct d_pruned as [-> | ->]; unfold docsDir, blogDir; keeps_steps.
Qed.

Lemma customize_keeps_absent :
  respects (keeps (absent d)) (customize env css page targetDir).
Proof.
  unfold customize, replace_stylesheet, remove_components,
    patch_layout, overwrite_page, cssPath, componentsDir, layoutPath, pagePath.
  destruct d_pruned as [-> | ->]; unfold docsDir, blogDir; keeps_steps.
Qed.

Lemma setup_version_control_keeps_absent :
  command_keeps (absent d) env (js "git init") (Some targetDir) ->
  respects (keeps (absent d)) (setup_version_control env targetDir).
Proof. intros Hgit. unfold setup_version_control. keeps_steps. Qed.

Lemma later_steps_keep_absent :
  command_keeps (absent d) env (js "git init") (Some targetDir) ->
  command_keeps (absent d) env (js "npm install") (Some targetDir) ->
  respects (keeps (absent d))
    (sequence (drop 3 (pipeline rt env css page targetDir projectName))).
Proof.
  intros Hgit Hnpm. apply respects_sequence; [exact _|].
  unfold pipeline. cbn [drop]. repeat constructor.
  - apply setup_package_json_keeps_absent.
  - apply customize_keeps_absent.
  - by apply setup_version_control_keeps_absent.
  - by apply install_dependencies_keeps.
  - apply report_keeps.
Qed.
End Pruned.

Lemma fs_rm_rm_in (p : path) (tree : filesystem) :
  not_a_directory p tree = false ->
  rm_in p tree
  = Some (filter (fun entry : path * node => ~ p `prefix_of` entry.1) tree, tt).
Proof. intros Hdir. unfold rm_in. by rewrite Hdir. Qed.

Lemma fs_rm_run (p : path) w :
  io_fails env (clock w) = false ->
  not_a_directory p (fs w) = false ->
  fs_rm env p w =
  ({| fs := filter (fun entry : path * node => ~ p `prefix_of` entry.1) (fs w);
      clock := S (clock w); trace := trace w ++ [Rm p] |}, Ret tt).
Proof. intros Hio Hdir. unfold fs_rm, rm_in. by rewrite Hio, Hdir. Qed.

Lemma fs_rm_refused (p : path) w :
  io_fails env (clock w) = false ->
  not_a_directory p (fs w) = true ->
  fs_rm env p w =
  ({| fs := fs w; clock := S (clock w); trace := trace w ++ [Rm p] |},
   Throw IOError).
Proof. intros Hio Hdir. unfold fs_rm, rm_in. by rewrite Hio, Hdir. Qed.

(** When no call of [fs] fails for a reason outside the tree, the pruning
    step leaves nothing at the two directories: a removal that is refused
    because its path leads through a regular file had nothing to remove. *)
Lemma setup_directories_prunes w :
  (forall k, io_fails env k = false) ->
  let w' := (setup_directories env targetDir w).1 in
  absent (docsDir targetDir) (fs w') /\ absent (blogDir targetDir) (fs w').
Proof.
  intros Hio. unfold setup_directories.
  erewrite bind_Ret by reflexivity. unfold try_catch.
  assert (Hlen : length (docsDir targetDir) = length (blogDir targetDir)).
  { unfold docsDir, blogDir, path_join. by rewrite !length_app. }
  assert (Hup : removelast (docsDir targetDir) = removelast (blogDir targetDir)).
  { unfold docsDir, blogDir, path_join.
    by rewrite !removelast_app by discriminate. }
  destruct (not_a_directory (docsDir targetDir) (fs w)) eqn:Hdocs.
  { erewrite bind_Throw by (by apply fs_rm_refused).
    cbn [log fst fs]. split.
    - eapply not_a_directory_absent; [done| |exact Hdocs].
      rewrite removelast_firstn_len. apply prefix_take.
    - eapply not_a_directory_absent; [|rewrite Hup|exact Hdocs].
      + by rewrite Hlen.
      + rewrite removelast_firstn_len. apply prefix_take. }
  erewrite bind_Ret by (by apply fs_rm_run).
  cbn [fs clock trace].
  match goal with
  | |- context [filter ?P (fs w)] => set (tree := filter P (fs w))
  end.
  assert (Hgone : absent (docsDir targetDir) tree).
  { by apply (rm_in_absent (docsDir targetDir) (fs w)), fs_rm_rm_in. }
  destruct (not_a_directory (blogDir targetDir) tree) eqn:Hblog.
  { erewrite bind_Throw by (by apply fs_rm_refused).
    cbn [log fst fs]. split; [exact Hgone|].
    eapply not_a_directory_absent; [done| |exact Hblog].
    rewrite removelast_firstn_len. apply prefix_take. }
  erewrite bind_Ret by (by apply fs_rm_run).
  cbn [log fst fs]. split.
  - intros q Hq. apply map_lookup_filter_None_2. left. by apply Hgone.
  - eapply rm_in_absent, fs_rm_rm_in. exact Hblog.
Qed.
End LaterSteps.

(** ** Whole runs *)

Lemma main_Ret_inv (rt : Runtime) (env : Env) (css page : jstring)
    (cwd : path) (providedPath : jstring) (rest : list jstring) w w' :
  main rt env css page cwd (providedPath :: rest) w = (w', Ret tt) ->
  sequence
    (pipeline rt env css page
       (path_resolve cwd [render_path cwd; providedPath])
       (path_basename (path_resolve cwd [providedPath]))) w
  = (w', Ret tt).
Proof.
  unfold main, try_catch.
  by destruct (sequence _ w) as [w1 [[]|e|c]].
Qed.

Lemma sequence_cons_Ret_inv (step : M unit) (rest : list (M unit)) w w' :
  sequence (step :: rest) w = (w', Ret tt) ->
  exists w1, step w = (w1, Ret tt) /\ sequence rest w1 = (w', Ret tt).
Proof.
  rewrite sequence_cons. unfold bind.
  destruct (step w) as [w1 [[]|e|c]]; [by eexists | done..].
Qed.

Lemma absent_insert (d p : path) (nd : node) (tree : filesystem) :
  ~ d `prefix_of` p -> absent d tree -> absent d (<[p := nd]> tree).
Proof.
  intros Hp Habs q Hq. rewrite lookup_insert_ne; [by apply Habs | by intros ->].
Qed.

(** C5.  In a run in which no call of [fs] fails and which ends normally
    (so that the target was missing or empty and git and npm succeeded),
    nothing is left at [src/app/docs] and [src/app/blog] of the target when
    the run is over: the pruning step removes them, and the steps after it
    keep them absent, given that [git init] and [npm install] do not make
    them. *)
Theorem pruned_directories_stay_absent
    (rt : Runtime) (env : Env) (css page : jstring)
    (cwd : path) (providedPath : jstring) (rest : list jstring)
    (w0 : World) :
  let targetDir := path_resolve cwd [render_path cwd; providedPath] in
  let projectName := path_basename (path_resolve cwd [providedPath]) in
  let steps := pipeline rt env css page targetDir projectName in
  let run := main rt env css page cwd (providedPath :: rest) w0 in
  (forall k, io_fails env k = false) ->
  (forall d command,
     d ∈ [docsDir targetDir; blogDir targetDir] ->
     command ∈ [js "git init"; js "npm install"] ->
     command_keeps (absent d) env command (Some targetDir)) ->
  run.2 = Ret tt ->
  absent (docsDir targetDir) (fs run.1)
  /\ absent (blogDir targetDir) (fs run.1)
  /\ respects (keeps (absent (docsDir targetDir))) (sequence (drop 3 steps))
  /\ respects (keeps (absent (blogDir targetDir))) (sequence (drop 3 steps)).
Proof.
  intros targetDir projectName steps run Hio Hext Hrun.
  assert (Hdocs : respects (keeps (absent (docsDir targetDir)))
                    (sequence (drop 3 steps))).
  { apply later_steps_keep_absent; [by left | |]; apply Hext; set_solver. }
  assert (Hblog : respects (keeps (absent (blogDir targetDir)))
                    (sequence (drop 3 steps))).
  { apply later_steps_keep_absent; [by right | |]; apply Hext; set_solver. }
  apply outcome_eq, main_Ret_inv in Hrun. fold targetDir projectName steps in Hrun.
  unfold steps, pipeline in Hrun.
  apply sequence_cons_Ret_inv in Hrun as (w1 & _ & Hrun).
  apply sequence_cons_Ret_inv in Hrun as (w2 & _ & Hrun).
  apply sequence_cons_Ret_inv in Hrun as (w3 & Hprune & Hrun).
  destruct (setup_directories_prunes env targetDir w2 Hio) as [Hd Hb].
  rewrite Hprune in Hd, Hb. cbn [fst] in Hd, Hb.
  split; [|split; [|split; assumption]].
  - by apply (Hdocs _ _ _ Hrun).
  - by apply (Hblog _ _ _ Hrun).
Qed.

Lemma sample_env_keeps_absent (manifest : value) (d : path) (command : jstring) :
  d ∈ [docsDir sample_target; blogDir sample_target] ->
  command ∈ [js "git init"; js "npm install"] ->
  command_keeps (absent d) (sample_env manifest) command (Some sample_target).
Proof.
  intros Hd Hcommand tree Habs.
  apply elem_of_cons in Hd as [->|Hd];
    [|apply list_elem_of_singleton in Hd as ->];
    (apply elem_of_cons in Hcommand as [->|Hcommand];
     [|apply list_elem_of_singleton in Hcommand as ->]);
    (apply absent_insert; [|exact Habs]);
    intros [k Hk]; vm_compute in Hk; discriminate Hk.
Qed.

Lemma pruned_directories_stay_absent_witness :
  let run :=
    main (sample_runtime [sample_manifest; sample_rewritten])
      (sample_env sample_manifest) [] [] sample_cwd [js "my-app"]
      (initial_world empty_home) in
  run.2 = Ret tt
  /\ absent (docsDir sample_target) (fs run.1)
  /\ absent (blogDir sample_target) (fs run.1).
Proof.
  intros run.
  assert (Hrun : run.2 = Ret tt) by (vm_compute; reflexivity).
  split; [exact Hrun|].
  destruct (pruned_directories_stay_absent
              (sample_runtime [sample_manifest; sample_rewritten])
              (sample_env sample_manifest) [] [] sample_cwd (js "my-app") []
              (initial_world empty_home))
    as (Hdocs & Hblog & _).
  - reflexivity.
  - apply sample_env_keeps_absent.
  - exact Hrun.
  - split; [exact Hdocs | exact Hblog].
Defined.

(** The rewrite of lines 92-99 does not touch [scripts]. *)
Lemma rewrite_manifest_scripts (projectName : jstring) (pkgJson rewritten : value) :
  rewrite_manifest projectName pkgJson = Some rewritten ->
  get_scripts rewritten = get_scripts pkgJson.
Proof.
  destruct pkgJson as [| | | | |props]; try (by intros [= <-]).
  destruct (rewrite_manifest_object projectName props)
    as (props' & -> & _ & _ & _ & _ & _ & Hrest).
  intros [= <-]. unfold get_scripts. f_equal. apply Hrest.
  unfold rewritten_keys. rewrite !elem_of_cons, elem_of_nil.
  intros [H|[H|[H|[H|[H|[]]]]]]; vm_compute in H; discriminate H.
Qed.

Lemma sample_env_keeps_manifest (manifest : value) (nd : node) (command : jstring) :
  command ∈ [js "git init"; js "npm install"] ->
  command_keeps (fun tree => tree !! pkgPath sample_target = Some nd)
    (sample_env manifest) command (Some sample_target).
Proof.
  intros Hcommand tree Hfile.
  apply elem_of_cons in Hcommand as [->|Hcommand];
    [|apply list_elem_of_singleton in Hcommand as ->].
  - change ((<[sample_target ++ [js ".git"] := Dir]> tree)
              !! pkgPath sample_target = Some nd).
    rewrite lookup_insert_ne; [exact Hfile|].
    intros H; vm_compute in H; discriminate H.
  - change ((<[sample_target ++ [js "node_modules"] := Dir]> tree)
              !! pkgPath sample_target = Some nd).
    rewrite lookup_insert_ne; [exact Hfile|].
    intros H; vm_compute in H; discriminate H.
Qed.

(** What is written for an object has, at [scripts], what is written for
    its [scripts]. *)
Lemma get_scripts_written (props : list (jstring * value)) :
  get_scripts (json_written (VObj props))
  = scripts_written (get_scripts (VObj props)).
Proof. cbn [json_written get_scripts]. by rewrite get_prop_written. Qed.

(** C4, as stated, fails.  The [scripts] of the template have the number
    [1e400] at the key [port]; the rewrite does not touch [scripts], but
    line 101 writes [null] for the number, and the report reads [scripts]
    back with [null] at [port]. *)
Lemma scripts_claim_fails :
  ~ scripts_claim port_runtime (sample_env sample_manifest) [] []
      sample_target (js "my-app") port_project port_text port_manifest.
Proof.
  intros Hclaim.
  destruct Hclaim as (text' & manifest' & Hfile & Hparse & Hscripts).
  - vm_compute. reflexivity.
  - vm_compute. reflexivity.
  - intros nd command. apply sample_env_keeps_manifest.
  - vm_compute. reflexivity.
  - assert (fs (sequence
                  (take 5 (drop 2 (pipeline port_runtime (sample_env sample_manifest)
                                     [] [] sample_target (js "my-app"))))
                  port_project).1
            !! pkgPath sample_target
            = Some (File (json_text (fun _ => js "0") [] port_written))) as Hwritten
      by (vm_compute; reflexivity).
    rewrite Hwritten in Hfile.
    apply (f_equal (fun o => match o with
                             | Some (File content) => content
                             | _ => []
                             end)) in Hfile.
    cbv beta iota in Hfile. rewrite <- Hfile in Hparse.
    assert (JSON_parse port_runtime (json_text (fun _ => js "0") [] port_written)
            = Some port_written) as Hread by (vm_compute; reflexivity).
    rewrite Hread in Hparse. injection Hparse as <-.
    vm_compute in Hscripts. discriminate Hscripts.
Qed.

(** C4, amended.  No step changes a key of [scripts], and none changes a
    value of it but for the numbers that JSON cannot write.  For a manifest
    that parses as an object, the rewrite leaves the value of [scripts] in
    the object as it is; in a run that goes from the clone to the report
    without failing, the file holds, when the report reads it, the text
    that [JSON.stringify] gives for the rewritten object, given that
    [git init] and [npm install] leave the file alone; this text is the
    text of the object with [null] in the place of every number that is
    not finite and [0] in the place of every negative zero, whose [scripts]
    are those of the template with these replacements, and so those of the
    template when they have no such number; and a runtime that reads this
    text as this object lets the report find these [scripts]. *)
Theorem scripts_are_never_changed
    (rt : Runtime) (env : Env) (css page : jstring)
    (targetDir : path) (projectName : jstring)
    (cloned : World) (text : jstring) (props : list (jstring * value)) :
  let steps := pipeline rt env css page targetDir projectName in
  let run := sequence (take 5 (drop 2 steps)) cloned in
  let manifest := VObj props in
  fs cloned !! pkgPath targetDir = Some (File text) ->
  JSON_parse rt text = Some manifest ->
  (forall nd command,
     command ∈ [js "git init"; js "npm install"] ->
     command_keeps (fun tree => tree !! pkgPath targetDir = Some nd)
       env command (Some targetDir)) ->
  run.2 = Ret tt ->
  exists rewritten,
    rewrite_manifest projectName manifest = Some rewritten
    /\ get_scripts rewritten = get_scripts manifest
    /\ fs run.1 !! pkgPath targetDir
       = Some (File (json_text (Number_toString rt) [] rewritten))
    /\ json_text (Number_toString rt) [] rewritten
       = json_text (Number_toString rt) [] (json_written rewritten)
    /\ json_written (json_written rewritten) = json_written rewritten
    /\ get_scripts (json_written rewritten) = scripts_written (get_scripts manifest)
    /\ (forall scripts,
          get_prop (js "scripts") props = Some scripts ->
          json_written scripts = scripts ->
          get_scripts (json_written rewritten) = get_scripts manifest)
    /\ (JSON_parse rt (json_text (Number_toString rt) [] (json_written rewritten))
        = Some (json_written rewritten) ->
        exists text' manifest',
          fs run.1 !! pkgPath targetDir = Some (File text')
          /\ JSON_parse rt text' = Some manifest'
          /\ get_scripts manifest' = scripts_written (get_scripts manifest)).
Proof.
  intros steps run manifest Hfile Hparse Hext Hrun.
  apply outcome_eq in Hrun. revert Hrun. generalize run.1. intros final Hrun.
  unfold run, steps, pipeline in Hrun. cbn [take drop] in Hrun.
  apply sequence_cons_Ret_inv in Hrun as (w3 & Hprune & Hrun).
  apply sequence_cons_Ret_inv in Hrun as (w4 & Hrewrite & Hrun).
  apply sequence_cons_Ret_inv in Hrun as (w5 & Hcustomize & Hrun).
  apply sequence_cons_Ret_inv in Hrun as (w6 & Hgit & Hrun).
  apply sequence_cons_Ret_inv in Hrun as (w7 & Hnpm & Hrun).
  injection Hrun as ->.
  apply (setup_directories_keeps_manifest env targetDir _ _ _ _ Hprune) in Hfile.
  apply setup_package_json_Ret in Hrewrite
    as (text' & pkgJson & rewritten & Hread & Hparse' & Hrw & _ & Hfs).
  unfold pkgPath, path_join in Hread, Hfile.
  rewrite lookup_node_snoc, Hfile in Hread. injection Hread as <-.
  rewrite Hparse in Hparse'. injection Hparse' as <-.
  assert (Hwritten : fs w4 !! pkgPath targetDir
                     = Some (File (json_text (Number_toString rt) [] rewritten)))
    by (by rewrite Hfs, lookup_insert_eq).
  apply (customize_keeps_manifest env css page targetDir _ _ _ _ Hcustomize)
    in Hwritten.
  apply (setup_version_control_keeps_manifest env targetDir _
           (Hext _ (js "git init") ltac:(set_solver)) _ _ _ Hgit) in Hwritten.
  apply (install_dependencies_keeps env targetDir _
           (Hext _ (js "npm install") ltac:(set_solver)) _ _ _ Hnpm) in Hwritten.
  pose proof (rewrite_manifest_scripts _ _ _ Hrw) as Hsame.
  assert (get_scripts (json_written rewritten)
          = scripts_written (get_scripts manifest)) as Hscripts.
  { destruct (rewrite_manifest_object projectName props)
      as (props' & Hrw' & _).
    unfold manifest in Hrw. rewrite Hrw in Hrw'. injection Hrw' as ->.
    by rewrite get_scripts_written, Hsame. }
  exists rewritten.
  split; [exact Hrw|]. split; [exact Hsame|]. split; [exact Hwritten|].
  split; [by rewrite json_text_written|].
  split; [apply json_written_idempotent|]. split; [exact Hscripts|]. split.
  - intros scripts Hprop Hexact. rewrite Hscripts. unfold manifest.
    cbn [get_scripts]. rewrite Hprop. cbn [scripts_written option_map].
    by rewrite Hexact.
  - intros Hreads.
    exists (json_text (Number_toString rt) [] rewritten), (json_written rewritten).
    split; [exact Hwritten|]. split; [|exact Hscripts].
    by rewrite <- (json_text_written _ rewritten).
Qed.

Lemma scripts_are_never_changed_witness :
  let rt := sample_runtime [sample_manifest; sample_rewritten] in
  let env := sample_env sample_manifest in
  let run :=
    sequence (take 5 (drop 2 (pipeline rt env [] [] sample_target (js "my-app"))))
      cloned_project in
  run.2 = Ret tt
  /\ exists text' manifest',
       fs run.1 !! pkgPath sample_target = Some (File text')
       /\ JSON_parse rt text' = Some manifest'
       /\ get_scripts manifest' = get_scripts sample_manifest.
Proof.
  intros rt env run.
  assert (Hrun : run.2 = Ret tt) by (vm_compute; reflexivity).
  split; [exact Hrun|].
  destruct (scripts_are_never_changed rt env [] [] sample_target (js "my-app")
              cloned_project (sample_stringify sample_manifest)
              [ (js "name", VStr (js "peachy"));
                (js "version", VStr (js "1.4.2"));
                (js "author", VStr (js "someone"));
                (js "scripts", VObj [ (js "start", VStr (js "peach dev"));
                                      (js "build", VStr (js "peach build")) ]);
                (js "keywords", VArr [VStr (js "peach")]);
                (js "license", VStr (js "MIT")) ])
    as (rewritten & Hrw & _ & _ & _ & _ & _ & _ & Hreads).
  - vm_compute. reflexivity.
  - vm_compute. reflexivity.
  - intros nd command. apply sample_env_keeps_manifest.
  - exact Hrun.
  - injection Hrw as <-. apply Hreads. vm_compute. reflexivity.
Defined.

(** * Further properties of the program *)

(** ** How [main] can end *)

Lemma exits_with_1_of_never {A} (m : M A) : never_exits m -> exits_with_1 m.
Proof. intros Hm w w' c H. by apply Hm in H. Qed.

Lemma exits_with_1_exit {A} : exits_with_1 (@process_exit A 1).
Proof. by intros w w' c [= _ <-]. Qed.

Lemma exits_with_1_bind {A B} (m : M A) (k : A -> M B) :
  exits_with_1 m -> (forall a, exits_with_1 (k a)) -> exits_with_1 (bind m k).
Proof.
  intros Hm Hk w w' c.
  destruct (bind_cases m k w)
    as [(w1 & a & _ & ->)|[(w1 & e & _ & ->)|(w1 & c1 & H & ->)]].
  - apply Hk.
  - done.
  - intros [= <- <-]. by eapply Hm.
Qed.

Lemma exits_with_1_try_catch {A} (m : M A) (h : error -> M A) :
  exits_with_1 m -> (forall e, exits_with_1 (h e)) -> exits_with_1 (try_catch m h).
Proof.
  intros Hm Hh w w' c. unfold try_catch.
  destruct (m w) as [w1 [a|e|c1]] eqn:E; [done|apply Hh|].
  intros [= <- <-]. by eapply Hm.
Qed.

Lemma exits_with_1_for_of {X} (xs : list X) (body : X -> M unit) :
  (forall x, exits_with_1 (body x)) -> exits_with_1 (for_of xs body).
Proof.
  intros Hbody. induction xs as [|x xs IH]; simpl.
  - by intros w w' c.
  - apply exits_with_1_bind; [apply Hbody | by intros _].
Qed.

Lemma never_throws_ret {A} (a : A) : never_throws (ret a).
Proof. by intros w w' e. Qed.

Lemma never_throws_log e : never_throws (log e).
Proof. by intros w w' e'. Qed.

Lemma never_throws_exit {A} c : never_throws (@process_exit A c).
Proof. by intros w w' e. Qed.

Lemma never_throws_bind {A B} (m : M A) (k : A -> M B) :
  never_throws m -> (forall a, never_throws (k a)) -> never_throws (bind m k).
Proof.
  intros Hm Hk w w' e.
  destruct (bind_cases m k w)
    as [(w1 & a & _ & ->)|[(w1 & e1 & H & _)|(w1 & c1 & _ & ->)]].
  - apply Hk.
  - by apply Hm in H.
  - done.
Qed.

(** A [try] lets out only what its [catch] block lets out. *)
Lemma never_throws_try_catch {A} (m : M A) (h : error -> M A) :
  (forall e, never_throws (h e)) -> never_throws (try_catch m h).
Proof.
  intros Hh w w' e. unfold try_catch.
  destruct (m w) as [w1 [a|e1|c1]]; [done|apply Hh|done].
Qed.

Lemma never_throws_for_of {X} (xs : list X) (body : X -> M unit) :
  (forall x, never_throws (body x)) -> never_throws (for_of xs body).
Proof.
  intros Hbody. induction xs as [|x xs IH]; simpl.
  - apply never_throws_ret.
  - apply never_throws_bind; [apply Hbody | by intros _].
Qed.

Ltac ends_steps :=
  repeat first
    [ match goal with
      | |- forall _, _ => intros ?
      end
    | apply exits_with_1_exit
    | apply exits_with_1_of_never, never_exits_ret
    | apply exits_with_1_of_never, never_exits_throw
    | apply exits_with_1_of_never, never_exits_or_throw
    | apply exits_with_1_of_never, never_exits_log
    | apply exits_with_1_of_never, never_exits_fs_call
    | apply exits_with_1_of_never, never_exits_fs_rm
    | apply exits_with_1_of_never, never_exits_execAsync
    | apply exits_with_1_bind
    | apply exits_with_1_try_catch
    | apply exits_with_1_for_of
    | apply never_throws_ret
    | apply never_throws_log
    | apply never_throws_exit
    | apply never_throws_try_catch
    | apply never_throws_bind
    | apply never_throws_for_of ].

Section Ends.
Variables (rt : Runtime) (env : Env) (css page : jstring).
Variables (targetDir : path) (projectName : jstring).

Lemma pipeline_exits_with_1 :
  Forall exits_with_1 (pipeline rt env css page targetDir projectName).
Proof.
  unfold pipeline, check_target, list_target, clone_repository,
    setup_directories, setup_package_json, customize, replace_stylesheet,
    remove_components, patch_layout, overwrite_page, setup_version_control,
    install_dependencies, report, parse, fs_access, fs_readdir,
    fs_readFile, fs_writeFile, fs_unlink.
  repeat constructor; ends_steps; by destruct (0 <? length _)%nat; ends_steps.
Qed.

Lemma pipeline_never_throws :
  Forall never_throws (pipeline rt env css page targetDir projectName).
Proof.
  unfold pipeline, check_target, clone_repository, setup_directories,
    setup_package_json, customize, replace_stylesheet, remove_components,
    patch_layout, overwrite_page, setup_version_control,
    install_dependencies, report.
  repeat constructor; ends_steps.
Qed.
End Ends.

Lemma sequence_exits_with_1 (steps : list (M unit)) :
  Forall exits_with_1 steps -> exits_with_1 (sequence steps).
Proof.
  induction 1 as [|step steps Hstep _ IH].
  - by intros w w' c.
  - rewrite sequence_cons. apply exits_with_1_bind; [done | by intros _].
Qed.

Lemma sequence_never_throws (steps : list (M unit)) :
  Forall never_throws steps -> never_throws (sequence steps).
Proof.
  induction 1 as [|step steps Hstep _ IH].
  - apply never_throws_ret.
  - rewrite sequence_cons. apply never_throws_bind; [done | by intros _].
Qed.

(** X1.  Whatever the arguments, the working directory, the state of the
    tree and the failures of the calls, [main] lets no exception out and
    the process ends with code 0 or with code 1. *)
Theorem main_ends_with_0_or_1
    (rt : Runtime) (env : Env) (css page : jstring)
    (cwd : path) (args : list jstring) (w : World) :
  let r := (main rt env css page cwd args w).2 in
  (r = Ret tt \/ r = Exit 1) /\ (exit_code r = 0%Z \/ exit_code r = 1%Z).
Proof.
  assert (Hends : let r := (main rt env css page cwd args w).2 in
                  r = Ret tt \/ r = Exit 1).
  { destruct (main rt env css page cwd args w) as [w' r] eqn:Hrun. simpl.
    destruct r as [[]|e|c]; [by left| |right].
    - exfalso. revert Hrun. apply never_throws_try_catch. ends_steps.
    - f_equal. revert Hrun. apply exits_with_1_try_catch; [|ends_steps].
      destruct args as [|providedPath rest]; [ends_steps|].
      apply sequence_exits_with_1, pipeline_exits_with_1. }
  simpl in *. split; [exact Hends|].
  destruct Hends as [-> | ->]; [by left | by right].
Qed.

(** Without an argument [main] prints the usage and ends the process
    with code 1; it has made no call of [fs], run no command and left the
    tree as it was. *)
Lemma missing_argument_aborts
    (rt : Runtime) (env : Env) (css page : jstring) (cwd : path) (w : World) :
  let run := main rt env css page cwd [] w in
  run.2 = Exit 1
  /\ fs run.1 = fs w
  /\ clock run.1 = clock w
  /\ trace run.1
     = trace w ++ [ConsoleError (js "Usage: create-peachy-app <project-directory>")].
Proof. by repeat split. Qed.

(** ** The fatal and the soft steps *)

Lemma fs_call_Throw {A : Type} (env : Env) (e : event)
    (run : filesystem -> option (filesystem * A)) (w w' : World) (err : error) :
  fs_call env e run w = (w', Throw err) ->
  fs w' = fs w /\ trace w' = trace w ++ [e].
Proof.
  unfold fs_call. destruct (io_fails env (clock w)); [by intros [= <- _]|].
  by destruct (run (fs w)) as [[tree a]|]; intros [= <- _].
Qed.

Lemma setup_package_json_cases (rt : Runtime) (env : Env)
    (targetDir : path) (projectName : jstring) (w w' : World) (r : outcome unit) :
  setup_package_json rt env targetDir projectName w = (w', r) ->
  r = Ret tt
  \/ (r = Exit 1
      /\ fs w' = fs w
      /\ last (trace w') = Some (Spinner Fail (js "Failed to set up package.json."))).
Proof.
  unfold setup_package_json. erewrite bind_Ret by reflexivity.
  unfold try_catch, bind at 1. rewrite fs_readFile_run. cbn [fs clock trace].
  set (handler := log (Spinner Fail (js "Failed to set up package.json.")) ;;
                  @process_exit unit 1).
  assert (forall w1 : World,
            fs w1 = fs w -> handler w1 = (w', r) ->
            r = Exit 1 /\ fs w' = fs w
            /\ last (trace w')
               = Some (Spinner Fail (js "Failed to set up package.json.")))
    as Hfail.
  { intros w1 Hfs [= <- <-]. split; [done|]. split; [done|]. apply last_snoc. }
  destruct (io_fails env (clock w)); [intros Hrun; right; by eapply Hfail; [|exact Hrun]|].
  destruct (lookup_node (fs w) (pkgPath targetDir)) as [[text|]|];
    [|intros Hrun; right; by eapply Hfail; [|exact Hrun]..].
  unfold parse, bind at 1.
  destruct (JSON_parse rt text) as [pkgJson|]; [|intros Hrun; right; by eapply Hfail; [|exact Hrun]].
  cbn [or_throw ret]. unfold bind at 1.
  destruct (rewrite_manifest projectName pkgJson) as [rewritten|];
    [|intros Hrun; right; by eapply Hfail; [|exact Hrun]].
  cbn [or_throw ret]. unfold bind at 1.
  destruct (JSON_stringify rt rewritten) as [written|];
    [|intros Hrun; right; by eapply Hfail; [|exact Hrun]].
  cbn [or_throw ret]. unfold bind at 1.
  destruct (fs_writeFile _ _ _ _) as [w1 [[]|e|c]] eqn:Hwrite.
  - intros [= _ <-]. by left.
  - intros Hrun. right. eapply Hfail; [|exact Hrun].
    by apply fs_call_Throw in Hwrite as [-> _].
  - by apply never_exits_fs_call in Hwrite.
Qed.

(** X2.  The rewrite of the manifest either ends normally or ends the
    process with code 1 after the failure of its spinner; in the second
    case nothing was written before the failure: whatever failed (the
    read, the parse, the assignment to [null], the serialization, or the
    write itself, a call that fails being taken to change nothing), the
    tree is as it was. *)
Theorem manifest_failure_leaves_tree
    (rt : Runtime) (env : Env) (targetDir : path) (projectName : jstring)
    (w : World) :
  let run := setup_package_json rt env targetDir projectName w in
  run.2 = Ret tt
  \/ (run.2 = Exit 1
      /\ fs run.1 = fs w
      /\ last (trace run.1)
         = Some (Spinner Fail (js "Failed to set up package.json."))).
Proof.
  cbv zeta.
  destruct (setup_package_json rt env targetDir projectName w) as [w' r] eqn:Hrun.
  by apply setup_package_json_cases in Hrun.
Qed.

Section Soft.
Variables (env : Env) (targetDir : path) (w : World).

Lemma setup_directories_returns :
  exists w', setup_directories env targetDir w = (w', Ret tt).
Proof.
  unfold setup_directories. erewrite bind_Ret by reflexivity.
  unfold try_catch.
  match goal with |- context [?body ?w0] =>
    match body with bind _ _ =>
      destruct (body w0) as [w1 [[]|e|c]] eqn:Hbody end end.
  - by eexists.
  - by eexists.
  - exfalso. revert Hbody.
    apply never_exits_bind; [apply never_exits_fs_rm|]. intros _.
    apply never_exits_bind; [apply never_exits_fs_rm|]. intros _.
    apply never_exits_log.
Qed.

(** A removal fails when the environment makes it fail or when its path
    leads through a regular file.  It has added nothing then and has left
    all that is not below its path; and when the reason is in the tree, it
    has removed nothing. *)
Lemma fs_rm_failure (p : path) (w0 : World) :
  io_fails env (clock w0) = true \/ not_a_directory p (fs w0) = true ->
  exists tree : filesystem,
    fs_rm env p w0
    = ({| fs := tree; clock := S (clock w0); trace := trace w0 ++ [Rm p] |},
       Throw IOError)
    /\ tree ⊆ fs w0
    /\ (forall q : path, ~ p `prefix_of` q -> tree !! q = fs w0 !! q)
    /\ (io_fails env (clock w0) = false -> tree = fs w0).
Proof.
  intros Hfail.
  assert (exists tree : filesystem,
            fs_rm env p w0
            = ({| fs := tree; clock := S (clock w0);
                  trace := trace w0 ++ [Rm p] |}, Throw IOError)
            /\ (io_fails env (clock w0) = false -> tree = fs w0))
    as (tree & Hrm & Hsame).
  { unfold fs_rm, rm_in. destruct (io_fails env (clock w0)) eqn:Hio.
    - by eexists.
    - destruct Hfail as [Hfail|Hfail]; [done|]. rewrite Hfail. by eexists. }
  exists tree. split; [exact Hrm|].
  apply fs_rm_leaves in Hrm as [Hsub Hout]. done.
Qed.
End Soft.

(** A node that a call does not address keeps its state, be it there or
    not. *)
Section KeepsLookup.
Variables (env : Env) (q : path) (o : option node).

Lemma lookup_filter_outside (p : path) (tree : filesystem) :
  ~ p `prefix_of` q ->
  filter (fun entry : path * node => ~ p `prefix_of` entry.1) tree !! q = tree !! q.
Proof.
  intros Hq. destruct (tree !! q) as [nd|] eqn:Hnd.
  - by apply map_lookup_filter_Some_2.
  - apply map_lookup_filter_None_2. by left.
Qed.

Lemma keeps_lookup_rm (p : path) :
  ~ p `prefix_of` q ->
  respects (keeps (fun tree => tree !! q = o)) (fs_rm env p).
Proof.
  intros Hq. apply keeps_fs_rm. intros tree tree' _ Hout <-. by apply Hout.
Qed.


End KeepsLookup.

(** X3.  The pruning step never ends the process: it always returns
    normally.  It adds no node and leaves every node that is not in one of
    the two directories as it is.  The removal of [src/app/docs] fails
    when the environment makes it fail (it may then have removed part of
    what is below [src/app/docs]) or when its path leads through a regular
    file (nothing is removed then).  When it fails, the removal of
    [src/app/blog] is not attempted: the step shows its warning, every
    node that is not below [src/app/docs] is as it was, and when the reason
    of the failure is in the tree, the whole tree is as it was. *)
Theorem pruning_is_soft (env : Env) (targetDir : path) (w : World) :
  let run := setup_directories env targetDir w in
  run.2 = Ret tt
  /\ fs run.1 ⊆ fs w
  /\ (forall q,
        ~ docsDir targetDir `prefix_of` q ->
        ~ blogDir targetDir `prefix_of` q ->
        fs run.1 !! q = fs w !! q)
  /\ (io_fails env (clock w) = true
      \/ not_a_directory (docsDir targetDir) (fs w) = true ->
      (forall q, ~ docsDir targetDir `prefix_of` q -> fs run.1 !! q = fs w !! q)
      /\ (io_fails env (clock w) = false -> fs run.1 = fs w)
      /\ trace run.1
         = trace w
           ++ [ Spinner Start (js "Setting up directories...");
                Rm (docsDir targetDir);
                Spinner Warn (js "Some issues encountered during directory setup.") ]).
Proof.
  cbv zeta. split; [|split; [|split]].
  - destruct (setup_directories_returns env targetDir w) as [w' ->]. done.
  - assert (respects (keeps (fun tree => tree ⊆ fs w))
              (setup_directories env targetDir)) as Hkeeps.
    { unfold setup_directories.
      respects_steps; try apply keeps_log; apply keeps_fs_rm;
        intros tree tree' Hsub _ Htree; by transitivity tree. }
    destruct (setup_directories env targetDir w) as [w' r] eqn:Hrun.
    by apply (Hkeeps _ _ _ Hrun).
  - intros q Hdocs Hblog.
    assert (respects (keeps (fun tree => tree !! q = fs w !! q))
              (setup_directories env targetDir)) as Hkeeps.
    { unfold setup_directories.
      respects_steps; try apply keeps_log; by apply keeps_lookup_rm. }
    destruct (setup_directories env targetDir w) as [w' r] eqn:Hrun.
    by apply (Hkeeps _ _ _ Hrun).
  - intros Hfail. unfold setup_directories.
    erewrite bind_Ret by reflexivity. unfold try_catch.
    match goal with
    | |- context [bind (fs_rm env ?p) ?k ?w0] =>
        destruct (fs_rm_failure env p w0 Hfail) as (tree & Hrm & _ & Hout & Hsame);
        rewrite (bind_Throw _ k _ _ _ Hrm)
    end.
    cbn [log fst snd fs clock trace] in *.
    split; [exact Hout|]. split; [exact Hsame|]. by rewrite <- !app_assoc.
Qed.

(** X4.  The reset of version control removes the old [.git] before it
    runs [git init]: the tree that [git init] works on has nothing at or
    below [.git] and is otherwise the tree as it was.  The removal fails
    when the environment makes it fail (it may then have removed part of
    what is below [.git]) or when its path leads through a regular file
    (nothing is removed then).  When it fails, [git init] is not run and
    the process ends with code 1 after the failure of the spinner; no node
    was added, every node that is not below [.git] is as it was, and when
    the reason of the failure is in the tree, the whole tree is as it was.
    Otherwise the step leaves the tree that [git init] made and ends the
    process with code 1 exactly when [git init] failed. *)
Theorem version_control_reset (env : Env) (targetDir : path) (w : World) :
  let run := setup_version_control env targetDir w in
  let pruned :=
    filter (fun entry : path * node => ~ gitDir targetDir `prefix_of` entry.1)
      (fs w) in
  let init := exec_run env (js "git init") (Some targetDir) pruned in
  absent (gitDir targetDir) pruned
  /\ (forall q, ~ gitDir targetDir `prefix_of` q -> pruned !! q = fs w !! q)
  /\ (if io_fails env (clock w) || not_a_directory (gitDir targetDir) (fs w)
      then run.2 = Exit 1
           /\ fs run.1 ⊆ fs w
           /\ (forall q,
                 ~ gitDir targetDir `prefix_of` q -> fs run.1 !! q = fs w !! q)
           /\ (io_fails env (clock w) = false -> fs run.1 = fs w)
           /\ trace run.1
              = trace w
                ++ [ Spinner Start (js "Setting up version control...");
                     Rm (gitDir targetDir);
                     Spinner Fail (js "Failed to set up version control.") ]
      else fs run.1 = init.1
           /\ run.2 = (if init.2 then Ret tt else Exit 1)).
Proof.
  cbv zeta. split; [|split].
  - intros q Hq. apply map_lookup_filter_None_2. right.
    intros nd _ Hnot. by apply Hnot.
  - intros q Hq. by apply lookup_filter_outside.
  - unfold setup_version_control. erewrite bind_Ret by reflexivity.
    unfold try_catch.
    destruct (io_fails env (clock w) || not_a_directory (gitDir targetDir) (fs w))
      eqn:Hfail.
    + apply orb_true_iff in Hfail.
      match goal with
      | |- context [bind (fs_rm env ?p) ?k ?w0] =>
          destruct (fs_rm_failure env p w0 Hfail)
            as (tree & Hrm & Hsub & Hout & Hsame);
          rewrite (bind_Throw _ k _ _ _ Hrm)
      end.
      cbn [log bind process_exit fst snd fs clock trace] in *.
      split; [done|]. split; [exact Hsub|]. split; [exact Hout|].
      split; [exact Hsame|]. by rewrite <- !app_assoc.
    + apply orb_false_iff in Hfail as [Hio Hdir].
      erewrite bind_Ret by (by apply fs_rm_run).
      unfold bind, execAsync, log, process_exit. cbn [fs clock trace].
      by destruct (exec_run env (js "git init") (Some targetDir) _).2.
Qed.

(** X5.  When [npm install] does not exit with 0, [main] shows the
    failure of the spinner and ends the process with code 1; the report is
    not made, and the tree is as [npm install] left it. *)
Theorem install_failure_aborts
    (rt : Runtime) (env : Env) (css page : jstring)
    (cwd : path) (providedPath : jstring) (rest : list jstring)
    (w0 : World) :
  let targetDir := path_resolve cwd [render_path cwd; providedPath] in
  let projectName := path_basename (path_resolve cwd [providedPath]) in
  let steps := pipeline rt env css page targetDir projectName in
  let before := sequence (take 6 steps) w0 in
  let install := exec_run env (js "npm install") (Some targetDir) (fs before.1) in
  before.2 = Ret tt ->
  install.2 = false ->
  exists w',
    main rt env css page cwd (providedPath :: rest) w0 = (w', Exit 1)
    /\ fs w' = install.1
    /\ trace w'
       = trace before.1
         ++ [ Spinner Start (js "Installing dependencies...");
              Exec (js "npm install") (Some targetDir);
              Spinner Fail (js "Dependency installation failed.") ].
Proof.
  intros targetDir projectName steps before install Hbefore Hfail.
  apply outcome_eq in Hbefore. eexists. split; [|split].
  - apply main_Exit. fold targetDir projectName steps.
    rewrite (sequence_take_Ret _ _ _ _ Hbefore).
    unfold steps, pipeline. cbn [drop]. apply sequence_Exit.
    unfold install_dependencies, bind, try_catch, execAsync, log, process_exit.
    cbn [fs clock trace]. fold install. rewrite Hfail. reflexivity.
  - reflexivity.
  - cbn [trace]. by rewrite <- !app_assoc.
Qed.

Lemma install_failure_aborts_witness :
  exists w',
    main (sample_runtime [sample_manifest; sample_rewritten])
      (offline_env sample_manifest) [] [] sample_cwd [js "my-app"]
      (initial_world empty_home)
    = (w', Exit 1).
Proof.
  destruct (install_failure_aborts
              (sample_runtime [sample_manifest; sample_rewritten])
              (offline_env sample_manifest) [] [] sample_cwd (js "my-app") []
              (initial_world empty_home))
    as (w' & Hmain & _).
  - vm_compute. reflexivity.
  - vm_compute. reflexivity.
  - exists w'. exact Hmain.
Defined.

(** ** The check of the target, again *)

Lemma children_empty (tree : filesystem) (p : path) :
  (forall name, tree !! (p ++ [name]) = None) -> children tree p = [].
Proof.
  intros Hnone. destruct (children tree p) as [|name names] eqn:E; [done|].
  assert (name ∈ children tree p) as Hin by (rewrite E; by left).
  apply children_elem_of in Hin as [nd Hnd]. by rewrite Hnone in Hnd.
Qed.

Lemma list_target_files (env : Env) (targetDir : path) (w w1 : World)
    (files : list jstring) :
  list_target env targetDir w = (w1, Ret files) ->
  files = children (fs w) targetDir.
Proof.
  unfold list_target, bind, fs_access, fs_readdir, fs_call, access_in,
    readdir_in.
  repeat case_match; simplify_eq; by intros [= _ <-].
Qed.

(** X6.  The check of the target only looks: whatever happens, the tree
    is as it was and the calls made are the existence check and the
    listing.  And a target that is missing, or that has nothing in it, is
    accepted whatever the calls do: the check returns normally and prints
    nothing. *)
Theorem target_check_only_looks (env : Env) (targetDir : path) (w : World) :
  let run := check_target env targetDir w in
  fs run.1 = fs w
  /\ (exists evs, trace run.1 = trace w ++ evs /\ read_only evs = true)
  /\ (lookup_node (fs w) targetDir = None
      \/ (forall name, fs w !! (targetDir ++ [name]) = None) ->
      run.2 = Ret tt
      /\ (trace run.1 = trace w ++ [Access targetDir]
          \/ trace run.1 = trace w ++ [Access targetDir; Readdir targetDir])).
Proof.
  cbv zeta.
  destruct (list_target env targetDir w) as [w1 [files|e|c]] eqn:Hlist.
  - destruct (list_target_probes _ _ _ _ _ Hlist) as [Hfs Htrace].
    pose proof (list_target_files _ _ _ _ _ Hlist) as Hfiles.
    rewrite (check_target_listed _ _ _ _ _ Hlist).
    destruct (0 <? length files)%nat eqn:Hlen; cbn [fst snd fs trace].
    + split; [done|]. split.
      * destruct Htrace as [-> | ->]; rewrite <- app_assoc; by eexists.
      * intros [Hmissing | Hempty].
        -- exfalso. revert Hlist.
           unfold list_target, bind, fs_access, fs_call, access_in.
           rewrite Hmissing. by destruct (io_fails env (clock w)).
        -- apply children_empty in Hempty. by rewrite Hfiles, Hempty in Hlen.
    + split; [done|]. split; [|done].
      destruct Htrace as [-> | ->]; by eexists.
  - destruct (list_target_probes _ _ _ _ _ Hlist) as [Hfs Htrace].
    rewrite (check_target_unlisted _ _ _ _ _ Hlist). cbn [fst snd].
    split; [done|]. split; [|done].
    destruct Htrace as [-> | ->]; by eexists.
  - by apply list_target_never_exits in Hlist.
Qed.

Lemma target_check_only_looks_witness :
  (check_target unreadable_env sample_target (initial_world empty_home)).2
  = Ret tt.
Proof.
  apply (proj2 (proj2 (target_check_only_looks unreadable_env sample_target
                         (initial_world empty_home)))).
  left. vm_compute. reflexivity.
Defined.

(** ** What the program stays away from *)

Ltac under_target :=
  simpl; unfold docsDir, blogDir, pkgPath, cssPath, componentsDir, layoutPath,
    pagePath, gitDir, path_join; rewrite <- ?app_assoc;
  first [ exact I | reflexivity | by eexists | by left | by right ].

Ltac inside_steps :=
  repeat first
    [ match goal with
      | |- PreOrder _ => exact _
      | |- forall _, _ => intros ?
      end
    | apply respects_bind
    | apply respects_try_catch
    | apply respects_for_of
    | apply respects_ret
    | apply respects_throw
    | apply respects_exit
    | apply respects_or_throw
    | apply emits_log; under_target
    | apply emits_fs_call; under_target
    | apply emits_fs_rm; under_target
    | apply emits_execAsync; under_target ].

Lemma pipeline_inside_target (rt : Runtime) (env : Env) (css page : jstring)
    (targetDir : path) (projectName : jstring) :
  Forall (respects (emits (inside_target targetDir)))
    (pipeline rt env css page targetDir projectName).
Proof.
  unfold pipeline, check_target, list_target, clone_repository, clone_command,
    setup_directories, setup_package_json, customize, replace_stylesheet,
    remove_components, patch_layout, overwrite_page, setup_version_control,
    install_dependencies, report, parse, fs_access, fs_readdir,
    fs_readFile, fs_writeFile, fs_unlink.
  repeat constructor; inside_steps;
    try (destruct (0 <? length _)%nat; inside_steps).
Qed.

(** X7.  [main] keeps to the target: every call of [fs] it makes, in any
    run, addresses the target directory or a path below it, and every
    command it runs is run in the target directory or is the clone into
    it. *)
Theorem main_keeps_to_target
    (rt : Runtime) (env : Env) (css page : jstring)
    (cwd : path) (providedPath : jstring) (rest : list jstring) (w : World) :
  let targetDir := path_resolve cwd [render_path cwd; providedPath] in
  let run := main rt env css page cwd (providedPath :: rest) w in
  exists evs,
    trace run.1 = trace w ++ evs /\ Forall (inside_target targetDir) evs.
Proof.
  intros targetDir run.
  assert (respects (emits (inside_target targetDir))
            (main rt env css page cwd (providedPath :: rest))) as Hmain.
  { unfold main. apply respects_try_catch; [exact _| |].
    - apply respects_sequence; [exact _|]. apply pipeline_inside_target.
    - inside_steps. }
  destruct run as [w' r] eqn:Hrun. by apply (Hmain _ _ _ Hrun).
Qed.







(** ** The layout patch on a text without the two symbols *)

Lemma starts_with_app (p s b : jstring) :
  starts_with p s = true -> starts_with p (s ++ b) = true.
Proof.
  revert s. induction p as [|a p IH]; intros [|c s]; simpl; try done.
  rewrite !andb_true_iff. intros [? ?]. split; [done | by apply IH].
Qed.

Lemma contains_cons (p : jstring) (c : N) (s : jstring) :
  contains p s = true -> contains p (c :: s) = true.
Proof. intros H. cbn [contains]. rewrite H. apply orb_true_r. Qed.

Lemma contains_app_l (p a s : jstring) :
  contains p s = true -> contains p (a ++ s) = true.
Proof.
  intros H. induction a as [|c a IH]; [done|]. simpl app. by apply contains_cons.
Qed.

Lemma contains_app_r (p s b : jstring) :
  contains p s = true -> contains p (s ++ b) = true.
Proof.
  induction s as [|c s IH].
  - destruct p; [by destruct b | done].
  - cbn [contains app]. rewrite !orb_true_iff. intros [H|H].
    + left. by apply (starts_with_app p (c :: s) b).
    + right. by apply IH.
Qed.

Lemma contains_drop (p : jstring) (n : nat) (s : jstring) :
  contains p (drop n s) = true -> contains p s = true.
Proof.
  revert s. induction n as [|n IH]; intros [|c s]; try done.
  simpl drop. intros H. by apply contains_cons, IH.
Qed.

Lemma contains_starts_with (p s : jstring) :
  starts_with p s = true -> contains p s = true.
Proof. intros H. destruct s; cbn [contains]; by rewrite H. Qed.

(** A line of a text holds nothing that the text does not hold. *)
Lemma contains_line (p : jstring) (sep : N) (ls : list jstring) (l : jstring) :
  l ∈ ls -> contains p l = true -> contains p (join_with [sep] ls) = true.
Proof.
  intros Hl Hp. induction ls as [|l0 ls IH]; [by apply elem_of_nil in Hl|].
  destruct ls as [|l1 ls].
  - apply list_elem_of_singleton in Hl as ->. exact Hp.
  - rewrite join_with_cons. apply elem_of_cons in Hl as [->|Hl].
    + by apply contains_app_r.
    + apply contains_app_l, (contains_app_l p [sep]). by apply IH.
Qed.

Lemma dot_star_symbol_references (s : jstring) :
  dot_star_symbol s = true -> references_symbol s = true.
Proof.
  unfold references_symbol. induction s as [|c s IH]; cbn [dot_star_symbol].
  - rewrite orb_false_r, !orb_true_iff.
    intros [H|H]; [left|right]; by apply contains_starts_with.
  - rewrite !orb_true_iff, andb_true_iff.
    intros [[H|H]|[_ H]].
    + left. by apply contains_starts_with.
    + right. by apply contains_starts_with.
    + apply IH, orb_true_iff in H as [H|H]; [left|right]; by apply contains_cons.
Qed.

Lemma spaces_then_symbol_references (s : jstring) :
  spaces_then_symbol s = true -> references_symbol s = true.
Proof.
  induction s as [|c s IH]; [done|]. cbn [spaces_then_symbol].
  rewrite andb_true_iff, orb_true_iff. intros [_ H].
  assert (references_symbol s = true) as Hs.
  { destruct H as [H|H]; [by apply dot_star_symbol_references | by apply IH]. }
  unfold references_symbol in *.
  apply orb_true_iff in Hs as [Hs|Hs]; apply orb_true_iff;
    [left|right]; by apply contains_cons.
Qed.

(** A match of the import pattern ends with one of the two symbols. *)
Lemma import_re_test_references (line : jstring) :
  import_re_test line = true -> references_symbol line = true.
Proof.
  induction line as [|c line IH].
  - cbn [import_re_test]. rewrite orb_false_r, andb_true_iff.
    intros [_ H]. by destruct (spaces_then_symbol_references _ H).
  - cbn [import_re_test]. rewrite orb_true_iff, andb_true_iff.
    intros [[_ H]|H].
    + apply spaces_then_symbol_references in H. unfold references_symbol in *.
      apply orb_true_iff in H as [H|H]; apply orb_true_iff; [left|right];
        by apply (contains_drop _ 6).
    + apply IH in H. unfold references_symbol in *.
      apply orb_true_iff in H as [H|H]; apply orb_true_iff; [left|right];
        by apply contains_cons.
Qed.

(** A marker holds its symbol. *)
Lemma has_marker_contains (name s : jstring) :
  has_marker name s = true -> contains name s = true.
Proof.
  induction s as [|c s IH]; cbn [has_marker].
  - unfold marker_length. by destruct (starts_with _ _) eqn:E.
  - destruct (marker_length name (c :: s)) as [n|] eqn:Hn.
    + intros _. unfold marker_length in Hn.
      destruct (starts_with (js "<" ++ name) (c :: s)) eqn:E; [|done].
      change (js "<" ++ name) with (60%N :: name) in E. cbn [starts_with] in E.
      apply andb_true_iff in E as [_ E].
      by apply contains_cons, contains_starts_with.
    + intros H. by apply contains_cons, IH.
Qed.

(** X9.  A layout that mentions neither [Header] nor [Footer] is written
    back as it was read: the patch drops no line and no code unit of
    it. *)
Theorem layout_without_symbols_unchanged (text : jstring) :
  contains Header text = false ->
  contains Footer text = false ->
  layout_patch text = text.
Proof.
  intros Hh Hf. apply layout_patch_fixed. unfold clean.
  rewrite !andb_true_iff, !negb_true_iff. repeat split.
  - unfold no_import_line. apply forallb_true_Forall, Forall_forall.
    intros line Hline. apply negb_true_iff.
    destruct (import_re_test line) eqn:Htest; [|done].
    apply import_re_test_references, orb_true_iff in Htest as [H|H];
      apply (contains_line _ LF _ _ Hline) in H;
      rewrite join_split in H; congruence.
  - destruct (has_marker Header text) eqn:H; [|done].
    apply has_marker_contains in H. congruence.
  - destruct (has_marker Footer text) eqn:H; [|done].
    apply has_marker_contains in H. congruence.
Qed.

Lemma layout_without_symbols_unchanged_witness :
  let text := js "import './globals.css';
export default function Layout({ children }) {
  return <main>{children}</main>;
}" in
  layout_patch text = text.
Proof.
  intros text.
  apply (layout_without_symbols_unchanged text); vm_compute; reflexivity.
Defined.


(** ** The order of the keys of the manifest *)

Lemma if_bool_decide_ext {A} (P Q : Prop) {dP : Decision P} {dQ : Decision Q}
    (x y : A) :
  (P <-> Q) ->
  (if bool_decide P then x else y) = (if bool_decide Q then x else y).
Proof. intros HPQ. by rewrite (bool_decide_ext P Q HPQ). Qed.

Lemma keys_set_prop (key : jstring) (v : value) (props : list (jstring * value)) :
  (set_prop key v props).*1
  = props.*1 ++ (if bool_decide (key ∈ props.*1) then [] else [key]).
Proof.
  induction props as [|[k v'] props IH]; [done|].
  cbn [set_prop]. destruct (decide (k = key)) as [->|Hne].
  - cbn [fmap list_fmap fst]. rewrite bool_decide_true by left.
    by rewrite app_nil_r.
  - cbn [fmap list_fmap fst]. fold (props.*1). fold ((set_prop key v props).*1).
    rewrite IH. cbn [app]. do 2 f_equal.
    apply if_bool_decide_ext. rewrite elem_of_cons.
    split; [by right | by intros [?|?]; [congruence|]].
Qed.

Lemma keys_delete_prop (key : jstring) (props : list (jstring * value)) :
  (delete_prop key props).*1
  = List.filter (fun k => negb (bool_decide (k = key))) props.*1.
Proof.
  unfold delete_prop. induction props as [|[k v] props IH]; [done|].
  cbn [List.filter fmap list_fmap fst]. fold (props.*1).
  destruct (bool_decide (k = key)); cbn [negb]; [exact IH|].
  cbn [fmap list_fmap fst]. f_equal. exact IH.
Qed.

Lemma filter_filter_keys (a b : jstring) (keys : list jstring) :
  List.filter (fun k => negb (bool_decide (k = b)))
    (List.filter (fun k => negb (bool_decide (k = a))) keys)
  = List.filter (fun k => negb (bool_decide (k ∈ [a; b]))) keys.
Proof.
  induction keys as [|k keys IH]; [done|]. cbn [List.filter].
  destruct (decide (k = a)) as [->|Ha].
  - rewrite bool_decide_true by done. cbn [negb].
    rewrite (bool_decide_true (a ∈ [a; b])) by left. exact IH.
  - rewrite (bool_decide_false (k = a)) by done. cbn [negb List.filter].
    destruct (decide (k = b)) as [->|Hb].
    + rewrite bool_decide_true by done.
      rewrite (bool_decide_true (b ∈ [a; b])) by (right; left). exact IH.
    + rewrite (bool_decide_false (k = b)) by done.
      rewrite (bool_decide_false (k ∈ [a; b])).
      * cbn [negb]. by rewrite IH.
      * rewrite !elem_of_cons, elem_of_nil. intros [?|[?|[]]]; congruence.
Qed.

Lemma elem_of_filter_keys (key : jstring) (dropped keys : list jstring) :
  key ∉ dropped ->
  key ∈ List.filter (fun k => negb (bool_decide (k ∈ dropped))) keys <-> key ∈ keys.
Proof.
  intros Hkey. rewrite !list_elem_of_In, filter_In, negb_true_iff,
    bool_decide_eq_false. split; [by intros [? _] | done].
Qed.

Lemma filter_keys_app (dropped keys more : list jstring) :
  Forall (fun k => k ∉ dropped) more ->
  List.filter (fun k => negb (bool_decide (k ∈ dropped))) (keys ++ more)
  = List.filter (fun k => negb (bool_decide (k ∈ dropped))) keys ++ more.
Proof.
  intros Hmore. rewrite List.filter_app. f_equal.
  apply filter_id. eapply Forall_impl; [exact Hmore|].
  intros k Hk. by rewrite negb_true_iff, bool_decide_eq_false.
Qed.

(** X10.  The rewrite keeps the order of the keys of the manifest: its
    keys are the keys it had, without [keywords] and [author], each at its
    place, followed by those of [name], [version] and [description] that
    it did not have, in this order. *)
Theorem manifest_key_order (projectName : jstring) (props : list (jstring * value)) :
  exists props',
    rewrite_manifest projectName (VObj props) = Some (VObj props')
    /\ props'.*1
       = List.filter
           (fun k => negb (bool_decide (k ∈ [js "keywords"; js "author"])))
           props.*1
         ++ List.filter (fun k => negb (bool_decide (k ∈ props.*1)))
              [js "name"; js "version"; js "description"].
Proof.
  eexists. split; [reflexivity|].
  set (dropped := [js "keywords"; js "author"]).
  set (keys := props.*1).
  set (kept := List.filter (fun k => negb (bool_decide (k ∈ dropped))) keys).
  assert (forall key, key ∈ [js "name"; js "version"; js "description"] ->
                      key ∉ dropped) as Hkept.
  { intros key Hkey Hdropped. unfold dropped in Hdropped.
    rewrite !elem_of_cons, elem_of_nil in Hkey.
    rewrite !elem_of_cons, elem_of_nil in Hdropped.
    destruct Hkey as [->|[->|[->|[]]]];
      destruct Hdropped as [H|[H|[]]]; vm_compute in H; discriminate H. }
  assert (js "name" ≠ js "version" /\ js "name" ≠ js "description"
          /\ js "version" ≠ js "description") as (Hnv & Hnd & Hvd).
  { repeat split; intros H; vm_compute in H; discriminate H. }
  rewrite !keys_set_prop, !keys_delete_prop, filter_filter_keys, keys_set_prop.
  fold keys dropped.
  set (name' := if bool_decide (js "name" ∈ keys) then [] else [js "name"]).
  assert (List.filter (fun k => negb (bool_decide (k ∈ dropped))) (keys ++ name')
          = kept ++ name') as ->.
  { apply filter_keys_app. unfold name'. case_bool_decide; [done|].
    constructor; [|done]. apply Hkept. left. }
  assert (forall key, key ∈ name' -> key = js "name") as Hname'.
  { unfold name'. intros key. case_bool_decide; [by intros ?%elem_of_nil|].
    by intros ?%list_elem_of_singleton. }
  rewrite (if_bool_decide_ext (js "version" ∈ kept ++ name')
             (js "version" ∈ keys)).
  2: { unfold kept. rewrite elem_of_app, elem_of_filter_keys
         by (apply Hkept; right; left).
       split; [|by left]. intros [H|H]; [done|]. by apply Hname' in H. }
  set (version' := if bool_decide (js "version" ∈ keys) then [] else [js "version"]).
  assert (forall key, key ∈ version' -> key = js "version") as Hversion'.
  { unfold version'. intros key. case_bool_decide; [by intros ?%elem_of_nil|].
    by intros ?%list_elem_of_singleton. }
  rewrite (if_bool_decide_ext (js "description" ∈ (kept ++ name') ++ version')
             (js "description" ∈ keys)).
  2: { unfold kept. rewrite !elem_of_app, elem_of_filter_keys
         by (apply Hkept; right; right; left).
       split; [|by left; left]. intros [[H|H]|H]; [done| |].
       - by apply Hname' in H.
       - by apply Hversion' in H. }
  rewrite <- !app_assoc. f_equal. unfold name', version'. cbn [List.filter].
  by repeat case_bool_decide.
Qed.

Lemma set_prop_same (key : jstring) (v : value) (props : list (jstring * value)) :
  get_prop key props = Some v -> set_prop key v props = props.
Proof.
  induction props as [|[k v'] props IH]; [done|]. cbn [get_prop set_prop].
  destruct (decide (k = key)) as [->|Hne].
  - by intros [= ->].
  - intros H. by rewrite IH.
Qed.

Lemma delete_prop_absent (key : jstring) (props : list (jstring * value)) :
  get_prop key props = None -> delete_prop key props = props.
Proof.
  unfold delete_prop. induction props as [|[k v'] props IH]; [done|].
  cbn [get_prop List.filter fst]. destruct (decide (k = key)) as [->|Hne]; [done|].
  intros H. rewrite bool_decide_false by done. cbn [negb]. by rewrite IH.
Qed.

(** X11.  The rewrite is idempotent: a manifest that it has produced is
    left as it is by a second rewrite for the same project name. *)
Theorem manifest_rewrite_idempotent
    (projectName : jstring) (pkgJson rewritten : value) :
  rewrite_manifest projectName pkgJson = Some rewritten ->
  rewrite_manifest projectName rewritten = Some rewritten.
Proof.
  destruct pkgJson as [| | | | |props]; try (by intros [= <-]).
  destruct (rewrite_manifest_object projectName props)
    as (props' & -> & Hname & Hversion & Hdescription & Hkeywords & Hauthor & _).
  intros [= <-]. cbn [rewrite_manifest].
  rewrite (set_prop_same _ _ _ Hname).
  rewrite (delete_prop_absent _ _ Hkeywords), (delete_prop_absent _ _ Hauthor).
  by rewrite (set_prop_same _ _ _ Hversion), (set_prop_same _ _ _ Hdescription).
Qed.

Lemma manifest_rewrite_idempotent_witness :
  rewrite_manifest (js "my-app") sample_rewritten = Some sample_rewritten.
Proof.
  apply (manifest_rewrite_idempotent (js "my-app") sample_manifest sample_rewritten).
  vm_compute. reflexivity.
Defined.


(** ** The lines of the summary *)

Lemma script_lines_strings (rt : Runtime) (scripts : list (jstring * jstring)) :
  script_lines rt (List.map (fun kc => (kc.1, VStr kc.2)) scripts)
  = Some (List.map
            (fun kc => js "npm run " ++ kc.1 ++ js "  ->  " ++ kc.2) scripts).
Proof.
  induction scripts as [|[k c] scripts IH]; [done|].
  cbn [List.map script_lines script_line to_string fst snd]. by rewrite IH.
Qed.

(** X12.  For scripts whose commands are strings, at least one of them,
    with no line feed in a name or a command, the text of the summary has
    one line per script, in the order of the properties of the object, and
    each line is [npm run <name>  ->  <command>]. *)
Theorem summary_has_a_line_per_script
    (rt : Runtime) (scripts : list (jstring * jstring)) :
  let entries := List.map (fun kc => (kc.1, VStr kc.2)) scripts in
  scripts <> [] ->
  Forall (fun kc => (LF ∉ kc.1) /\ (LF ∉ kc.2)) scripts ->
  exists text,
    describe_scripts rt (Some (VObj entries)) = Some text
    /\ split_on LF text
       = List.map
           (fun kc => js "npm run " ++ kc.1 ++ js "  ->  " ++ kc.2) scripts.
Proof.
  intros entries Hsome Hlines.
  exists (join_with [LF]
            (List.map
               (fun kc => js "npm run " ++ kc.1 ++ js "  ->  " ++ kc.2) scripts)).
  split.
  - unfold describe_scripts. cbn [truthy object_entries andb].
    unfold entries. rewrite script_lines_strings, length_map.
    by destruct scripts.
  - apply split_join.
    + by destruct scripts.
    + apply Forall_forall. intros line Hline.
      apply list_elem_of_In, in_map_iff in Hline as ([k c] & <- & Hkc).
      apply list_elem_of_In in Hkc. rewrite Forall_forall in Hlines.
      destruct (Hlines _ Hkc) as [Hk Hc]. cbn [fst snd] in *.
      rewrite !elem_of_app. intros [H|[H|[H|H]]]; [|done| |done];
        apply list_elem_of_In in H; vm_compute in H;
        repeat (destruct H as [H|H]; [discriminate H|]); exact H.
Qed.

Lemma summary_has_a_line_per_script_witness :
  exists text,
    describe_scripts (sample_runtime [])
      (Some (VObj [ (js "start", VStr (js "peach dev"));
                    (js "build", VStr (js "peach build")) ])) = Some text
    /\ split_on LF text
       = [ js "npm run start  ->  peach dev"; js "npm run build  ->  peach build" ].
Proof.
  apply (summary_has_a_line_per_script (sample_runtime [])
           [ (js "start", js "peach dev"); (js "build", js "peach build") ]).
  - discriminate.
  - repeat constructor;
      (intros H; apply list_elem_of_In in H; vm_compute in H;
       repeat (destruct H as [H|H]; [discriminate H|]); exact H).
Defined.

(** ** What the customization leaves in the tree *)

Section Customized.
Variables (env : Env) (css page : jstring) (targetDir : path).
Hypothesis io_works : forall k, io_fails env k = false.

Lemma swallowed_writeFile_run (dir : path) (name data : jstring) (w : World) :
  fs w !! (dir ++ [name]) <> Some Dir ->
  lookup_node (fs w) dir = Some Dir ->
  try_catch (fs_writeFile env (dir ++ [name]) data) (fun _ => ret tt) w
  = ({| fs := <[dir ++ [name] := File data]> (fs w); clock := S (clock w);
        trace := trace w ++ [WriteFile (dir ++ [name]) data] |}, Ret tt).
Proof.
  intros Hfile Hdir. unfold try_catch, fs_writeFile, fs_call, writeFile_in.
  rewrite io_works, lookup_node_snoc, removelast_last, Hdir.
  by destruct (fs w !! (dir ++ [name])) as [[c|]|].
Qed.

Lemma swallowed_unlink_run (dir : path) (name : jstring) (w : World) :
  try_catch (fs_unlink env (dir ++ [name])) (fun _ => ret tt) w
  = ({| fs := unlinked (dir ++ [name]) (fs w); clock := S (clock w);
        trace := trace w ++ [Unlink (dir ++ [name])] |}, Ret tt).
Proof.
  unfold try_catch, fs_unlink, fs_call, unlink_in, unlinked.
  rewrite io_works, lookup_node_snoc.
  by destruct (fs w !! (dir ++ [name])) as [[c|]|].
Qed.

Lemma swallowed_patch_run (dir : path) (name text : jstring)
    (patch : jstring -> jstring) (w : World) :
  lookup_node (fs w) dir = Some Dir ->
  fs w !! (dir ++ [name]) = Some (File text) ->
  try_catch
    (let* layoutContent := fs_readFile env (dir ++ [name]) in
     fs_writeFile env (dir ++ [name]) (patch layoutContent))
    (fun _ => ret tt) w
  = ({| fs := <[dir ++ [name] := File (patch text)]> (fs w);
        clock := S (S (clock w));
        trace := (trace w ++ [ReadFile (dir ++ [name])])
                 ++ [WriteFile (dir ++ [name]) (patch text)] |}, Ret tt).
Proof.
  intros Hdir Hfile.
  unfold try_catch, bind, fs_readFile, fs_writeFile, fs_call, readFile_in,
    writeFile_in.
  rewrite io_works, lookup_node_snoc, Hfile. cbn [fs clock trace].
  by rewrite io_works, lookup_node_snoc, Hfile, removelast_last, Hdir.
Qed.

Lemma unlinked_lookup_ne (p q : path) (tree : filesystem) :
  p <> q -> unlinked p tree !! q = tree !! q.
Proof.
  intros Hne. unfold unlinked.
  destruct (tree !! p) as [[c|]|]; [by rewrite lookup_delete_ne|done..].
Qed.

Lemma unlinked_lookup (p : path) (tree : filesystem) :
  unlinked p tree !! p
  = match tree !! p with Some (File _) => None | o => o end.
Proof.
  unfold unlinked. destruct (tree !! p) as [[c|]|] eqn:E;
    [by rewrite lookup_delete_eq|done..].
Qed.

(** X13.  When no call of [fs] fails and the stylesheet, the layout and
    the page of the template are where the program expects them, the
    customization leaves the new stylesheet and the new page in their
    files, the patched layout in the layout file, none of the four
    component files, and every other node as it was. *)
Theorem customization_effect (w : World) (text : jstring) :
  let run := customize env css page targetDir w in
  let componentPath file := path_join (componentsDir targetDir) [file] in
  fs w !! path_join targetDir [js "src"] = Some Dir ->
  fs w !! path_join targetDir [js "src"; js "app"] = Some Dir ->
  fs w !! cssPath targetDir <> Some Dir ->
  fs w !! pagePath targetDir <> Some Dir ->
  fs w !! layoutPath targetDir = Some (File text) ->
  run.2 = Ret tt
  /\ fs run.1 !! cssPath targetDir = Some (File css)
  /\ fs run.1 !! layoutPath targetDir = Some (File (layout_patch text))
  /\ fs run.1 !! pagePath targetDir = Some (File page)
  /\ (forall file, file ∈ filesToRemove ->
        fs run.1 !! componentPath file
        = match fs w !! componentPath file with
          | Some (File _) => None
          | o => o
          end)
  /\ (forall q,
        q ∉ [cssPath targetDir; layoutPath targetDir; pagePath targetDir] ->
        q ∉ List.map componentPath filesToRemove ->
        fs run.1 !! q = fs w !! q).
Proof.
  intros run componentPath Hsrc Happ Hcss Hpage Hlayout.
  unfold cssPath, pagePath, layoutPath, componentsDir, path_join in *.
  set (src := targetDir ++ [js "src"]) in *.
  set (app := targetDir ++ [js "src"; js "app"]) in *.
  set (components := targetDir ++ [js "src"; js "components"]) in *.
  assert (forall name, targetDir ++ [js "src"; name] = src ++ [name]) as Esrc.
  { intros name. unfold src. by rewrite <- app_assoc. }
  assert (forall name, targetDir ++ [js "src"; js "app"; name] = app ++ [name])
    as Eapp.
  { intros name. unfold app. by rewrite <- app_assoc. }
  rewrite !Esrc, !Eapp in *.
  assert (forall tree : filesystem, lookup_node tree src = tree !! src) as Nsrc.
  { intros tree. unfold src. by rewrite lookup_node_snoc. }
  assert (forall tree : filesystem, lookup_node tree app = tree !! app) as Napp.
  { intros tree. unfold app.
    change [js "src"; js "app"] with ([js "src"] ++ [js "app"]).
    by rewrite app_assoc, lookup_node_snoc. }
  set (tree1 := <[src ++ [js "index.css"] := File css]> (fs w)).
  set (tree2 := unlinked (components ++ [js "Peach3dModel.js"])
                  (unlinked (components ++ [js "Header.js"])
                     (unlinked (components ++ [js "Footer.js"])
                        (unlinked (components ++ [js "CodeBlock.js"]) tree1)))).
  set (tree3 := <[app ++ [js "layout.js"] := File (layout_patch text)]> tree2).
  set (tree4 := <[app ++ [js "page.js"] := File page]> tree3).
  assert (forall q,
            (forall file, file ∈ filesToRemove -> components ++ [file] <> q) ->
            tree2 !! q = tree1 !! q) as Hlook2.
  { intros q Hq. unfold tree2.
    rewrite !unlinked_lookup_ne; [done|..];
      apply Hq; unfold filesToRemove; rewrite !elem_of_cons; tauto. }
  assert (forall file, components ++ [file] <> app) as Hcomp_app.
  { intros file. unfold app, components. closed_paths_differ. }
  assert (forall name file, components ++ [file] <> app ++ [name]) as Hcomp_in_app.
  { intros name file. unfold app, components. closed_paths_differ. }
  assert (forall name file, components ++ [file] <> src ++ [name]) as Hcomp_in_src.
  { intros name file. unfold src, components. closed_paths_differ. }
  assert (forall name name', src ++ [name] <> app ++ [name']) as Hsrc_app.
  { intros name name'. unfold app, src. closed_paths_differ. }
  assert (src ++ [js "index.css"] <> app) as Hcss_app.
  { unfold app, src. closed_paths_differ. }
  assert (app ++ [js "layout.js"] <> app) as Hlayout_app.
  { intros H. apply (f_equal length) in H. rewrite length_app in H.
    simpl in H. lia. }
  assert (app ++ [js "layout.js"] <> app ++ [js "page.js"]) as Hlayout_page.
  { unfold app. closed_paths_differ. }
  assert (tree2 !! app = Some Dir) as Happ2.
  { rewrite Hlook2 by (intros file _; apply Hcomp_app).
    unfold tree1. by rewrite lookup_insert_ne. }
  assert (tree2 !! (app ++ [js "layout.js"]) = Some (File text)) as Hlayout2.
  { rewrite Hlook2 by (intros file _; apply Hcomp_in_app).
    unfold tree1. by rewrite lookup_insert_ne. }
  assert (tree3 !! (app ++ [js "page.js"]) <> Some Dir) as Hpage3.
  { unfold tree3. rewrite lookup_insert_ne by done.
    rewrite Hlook2 by (intros file _; apply Hcomp_in_app).
    unfold tree1. by rewrite lookup_insert_ne. }
  assert (tree3 !! app = Some Dir) as Happ3.
  { unfold tree3. by rewrite lookup_insert_ne. }
  assert (fs run.1 = tree4 /\ run.2 = Ret tt) as [Hfs Hret].
  { unfold run, customize, replace_stylesheet, remove_components, patch_layout,
      overwrite_page, filesToRemove, componentsDir, cssPath, layoutPath,
      pagePath, path_join.
    fold components. rewrite !Esrc, !Eapp.
    erewrite bind_Ret by reflexivity.
    erewrite bind_Ret
      by (apply swallowed_writeFile_run; [exact Hcss | by rewrite Nsrc]).
    cbn [for_of].
    erewrite bind_Ret.
    2: { erewrite bind_Ret by apply swallowed_unlink_run.
         erewrite bind_Ret by apply swallowed_unlink_run.
         erewrite bind_Ret by apply swallowed_unlink_run.
         erewrite bind_Ret by apply swallowed_unlink_run.
         reflexivity. }
    cbn [fs clock trace]. fold tree1 tree2.
    erewrite bind_Ret
      by (apply (swallowed_patch_run app (js "layout.js") text);
          [by rewrite Napp | exact Hlayout2]).
    cbn [fs clock trace]. fold tree3.
    erewrite bind_Ret
      by (apply swallowed_writeFile_run; [exact Hpage3 | by rewrite Napp]).
    by split. }
  rewrite Hfs. split; [exact Hret|]. unfold tree4, tree3.
  split; [|split; [|split; [|split]]].
  - rewrite !lookup_insert_ne by done.
    rewrite Hlook2 by (intros file _; apply Hcomp_in_src).
    unfold tree1. by rewrite lookup_insert_eq.
  - rewrite lookup_insert_ne by done. by rewrite lookup_insert_eq.
  - by rewrite lookup_insert_eq.
  - intros file Hfile. unfold componentPath.
    rewrite !lookup_insert_ne by (symmetry; apply Hcomp_in_app).
    assert (forall q, tree1 !! (components ++ [q]) = fs w !! (components ++ [q]))
      as Htree1.
    { intros q. unfold tree1. rewrite lookup_insert_ne; [done|].
      symmetry. apply Hcomp_in_src. }
    unfold filesToRemove in Hfile. rewrite !elem_of_cons, elem_of_nil in Hfile.
    unfold tree2.
    destruct Hfile as [->|[->|[->|[->|[]]]]];
      rewrite ?unlinked_lookup_ne by (unfold components; closed_paths_differ);
      rewrite unlinked_lookup;
      rewrite ?unlinked_lookup_ne by (unfold components; closed_paths_differ);
      by rewrite Htree1.
  - intros q Hq Hcomp.
    rewrite !elem_of_cons, elem_of_nil in Hq.
    rewrite !lookup_insert_ne by (intros <-; apply Hq; tauto).
    rewrite Hlook2.
    + unfold tree1. rewrite lookup_insert_ne; [done|].
      intros <-. apply Hq; tauto.
    + intros file Hfile <-. apply Hcomp.
      apply list_elem_of_In. apply (in_map componentPath).
      by apply list_elem_of_In.
Qed.

End Customized.

Lemma customization_effect_witness :
  let run :=
    customize (sample_env sample_manifest) (js "body { margin: 0 }")
      (js "export default function Page() {}") sample_target cloned_project in
  fs run.1 !! cssPath sample_target = Some (File (js "body { margin: 0 }"))
  /\ fs run.1 !! layoutPath sample_target
     = Some (File (layout_patch typical_layout))
  /\ fs run.1 !! path_join (componentsDir sample_target) [js "Header.js"] = None.
Proof.
  intros run.
  destruct (customization_effect (sample_env sample_manifest)
              (js "body { margin: 0 }") (js "export default function Page() {}")
              sample_target (fun k => eq_refl) cloned_project typical_layout)
    as (_ & Hcss & Hlayout & _ & Hcomponents & _).
  - vm_compute. reflexivity.
  - vm_compute. reflexivity.
  - vm_compute. discriminate.
  - vm_compute. discriminate.
  - vm_compute. reflexivity.
  - split; [exact Hcss|]. split; [exact Hlayout|].
    etrans; [apply (Hcomponents (js "Header.js"))|vm_compute; reflexivity].
    unfold filesToRemove. rewrite !elem_of_cons. tauto.
Defined.


(** ** The commands that are run *)

Lemma commands_quiet (evs : list event) :
  Forall (fun e => command_of e = None) evs -> commands evs = [].
Proof.
  induction 1 as [|e evs He _ IH]; [done|].
  unfold commands in *. cbn [omap list_omap]. by rewrite He.
Qed.

Lemma runs_quiet (m : M unit) :
  respects (emits (fun e => command_of e = None)) m -> runs [] m.
Proof.
  intros Hm w w' r Hrun. destruct (Hm _ _ _ Hrun) as (evs & Htrace & Hquiet).
  exists evs. by rewrite (commands_quiet _ Hquiet).
Qed.

Lemma runs_sequence (plans : list (list (jstring * option path)))
    (steps : list (M unit)) :
  Forall2 runs plans steps -> runs (concat plans) (sequence steps).
Proof.
  induction 1 as [|plan step plans steps Hstep _ IH].
  - intros w w' r [= <- <-]. exists []. by rewrite app_nil_r.
  - rewrite sequence_cons. intros w w' r Hrun. cbn [concat].
    destruct (bind_cases step (fun _ => sequence steps) w)
      as [(w1 & [] & Hfirst & Hbind)|[(w1 & e & Hfirst & Hbind)
                                     |(w1 & c & Hfirst & Hbind)]];
      rewrite Hbind in Hrun;
      destruct (Hstep _ _ _ Hfirst) as (evs1 & Htrace1 & Hprefix1 & Hall1).
    + destruct (IH _ _ _ Hrun) as (evs2 & Htrace2 & Hprefix2 & Hall2).
      exists (evs1 ++ evs2). unfold commands in *.
      rewrite omap_app, Hall1 by done. repeat split.
      * by rewrite Htrace2, Htrace1, <- app_assoc.
      * by apply prefix_app.
      * intros Hr. by rewrite Hall2.
    + injection Hrun as <- <-. exists evs1. repeat split; [done| |done].
      by apply prefix_app_r.
    + injection Hrun as <- <-. exists evs1. repeat split; [done| |done].
      by apply prefix_app_r.
Qed.

Section Commands.
Variables (rt : Runtime) (env : Env) (css page : jstring).
Variables (targetDir : path) (projectName : jstring).

Lemma clone_repository_runs :
  runs [(clone_command targetDir, None)] (clone_repository env targetDir).
Proof.
  intros w w' r. unfold clone_repository.
  cbv [bind try_catch log execAsync process_exit ret].
  destruct (exec_run _ _ _ _) as [tree []];
    cbn [fst snd fs clock trace]; intros [= <- <-]; cbn [trace];
    rewrite <- !app_assoc; eexists; (split; [reflexivity|]); by split.
Qed.

Lemma setup_version_control_runs :
  runs [(js "git init", Some targetDir)] (setup_version_control env targetDir).
Proof.
  intros w w' r. unfold setup_version_control.
  cbv [bind try_catch log fs_rm rm_in execAsync process_exit ret].
  cbn [fs clock trace].
  destruct (io_fails _ _); [|destruct (not_a_directory _ _)].
  - intros [= <- <-]; cbn [trace]; rewrite <- !app_assoc.
    eexists; (split; [reflexivity|]). split; [by apply prefix_nil|done].
  - intros [= <- <-]; cbn [trace]; rewrite <- !app_assoc.
    eexists; (split; [reflexivity|]). split; [by apply prefix_nil|done].
  - cbn [fs clock trace].
    destruct (exec_run _ _ _ _) as [tree []];
      cbn [fst snd fs clock trace]; intros [= <- <-]; cbn [trace];
      rewrite <- !app_assoc; eexists; (split; [reflexivity|]); by split.
Qed.

Lemma install_dependencies_runs :
  runs [(js "npm install", Some targetDir)] (install_dependencies env targetDir).
Proof.
  intros w w' r. unfold install_dependencies.
  cbv [bind try_catch log execAsync process_exit ret].
  destruct (exec_run _ _ _ _) as [tree []];
    cbn [fst snd fs clock trace]; intros [= <- <-]; cbn [trace];
    rewrite <- !app_assoc; eexists; (split; [reflexivity|]); by split.
Qed.

Lemma pipeline_runs :
  Forall2 runs
    [ []; [(clone_command targetDir, None)]; []; []; [];
      [(js "git init", Some targetDir)]; [(js "npm install", Some targetDir)];
      [] ]
    (pipeline rt env css page targetDir projectName).
Proof.
  unfold pipeline.
  repeat apply List.Forall2_cons; try apply List.Forall2_nil;
    try apply clone_repository_runs;
    try apply setup_version_control_runs;
    try apply install_dependencies_runs;
    apply runs_quiet;
    unfold check_target, list_target, setup_directories, setup_package_json,
      customize, replace_stylesheet, remove_components, patch_layout,
      overwrite_page, report, parse, fs_access, fs_readdir,
      fs_readFile, fs_writeFile, fs_unlink;
    respects_steps; try (destruct (0 <? length _)%nat; respects_steps).
Qed.

End Commands.

(** X14.  The commands that [main] runs are the clone into the target,
    [git init] and [npm install] in the target, in this order and each
    once: a run that ends with code 0 has run all three, any other run the
    first ones of them, and no run any other command. *)
Theorem commands_run_in_order
    (rt : Runtime) (env : Env) (css page : jstring)
    (cwd : path) (providedPath : jstring) (rest : list jstring) (w : World) :
  let targetDir := path_resolve cwd [render_path cwd; providedPath] in
  let run := main rt env css page cwd (providedPath :: rest) w in
  exists evs,
    trace run.1 = trace w ++ evs
    /\ commands evs `prefix_of` planned_commands targetDir
    /\ (run.2 = Ret tt -> commands evs = planned_commands targetDir).
Proof.
  intros targetDir run.
  pose proof (runs_sequence _ _
                (pipeline_runs rt env css page targetDir
                   (path_basename (path_resolve cwd [providedPath])))) as Hruns.
  unfold run, main. fold targetDir. unfold try_catch.
  destruct (sequence _ w) as [w1 r] eqn:Hrun.
  destruct (Hruns _ _ _ Hrun) as (evs & Htrace & Hprefix & Hall).
  destruct r as [[]|e|c].
  - by exists evs.
  - exists (evs ++ [ConsoleError (js "Unexpected error:")]).
    cbv [bind log process_exit]. cbn [fst snd trace].
    unfold commands in *. rewrite omap_app, app_nil_r.
    split; [by rewrite Htrace, <- app_assoc|]. by split.
  - by exists evs.
Qed.


(** ** The target directory and the name of the project *)

Lemma wf_path_removelast (p : path) : wf_path p -> wf_path (removelast p).
Proof.
  unfold wf_path. induction 1 as [|c p Hc Hp IH]; [constructor|].
  destruct p as [|c' p]; [constructor|].
  change (removelast (c :: c' :: p)) with (c :: removelast (c' :: p)).
  by constructor.
Qed.

Lemma normalize_onto_keeps_wf (base : path) (segments : list jstring) :
  wf_path base -> Forall (fun seg => SLASH ∉ seg) segments ->
  wf_path (normalize_onto base segments).
Proof.
  unfold normalize_onto. intros Hbase Hsegments. revert base Hbase.
  induction Hsegments as [|seg segments Hseg _ IH]; intros base Hbase; [done|].
  cbn [fold_left]. apply IH.
  destruct (decide (seg = [])); [done|].
  destruct (decide (seg = js ".")); [done|].
  destruct (decide (seg = js "..")); [by apply wf_path_removelast|].
  apply Forall_app. split; [done|]. by repeat constructor.
Qed.

Lemma resolve_step_keeps_wf (base : path) (arg : jstring) :
  wf_path base -> wf_path (resolve_step base arg).
Proof.
  intros Hbase. unfold resolve_step. destruct arg as [|c arg]; [done|].
  apply normalize_onto_keeps_wf; [|apply split_on_no_sep].
  destruct (N.eqb c SLASH); [constructor | done].
Qed.

Lemma path_resolve_keeps_wf (cwd : path) (args : list jstring) :
  wf_path cwd -> wf_path (path_resolve cwd args).
Proof.
  unfold path_resolve. revert cwd.
  induction args as [|arg args IH]; intros cwd Hcwd; [done|].
  cbn [fold_left]. by apply IH, resolve_step_keeps_wf.
Qed.

Lemma path_basename_snoc (parent : path) (name : jstring) :
  path_basename (parent ++ [name]) = name.
Proof. unfold path_basename. apply last_last. Qed.

(** X15.  In a process whose working directory is a normalized absolute
    path, the target directory is one too, whatever the argument: no
    component of it is empty, [.] or [..] or has a slash.  The name of the
    project is its last component, so a name of that kind, or the empty
    string when the target is the root.  For an argument that is a plain
    name the target is the directory of that name in the working directory
    and the project has that name. *)
Theorem target_is_normalized (cwd : path) (providedPath : jstring) :
  let targetDir := path_resolve cwd [render_path cwd; providedPath] in
  let projectName := path_basename (path_resolve cwd [providedPath]) in
  wf_path cwd ->
  wf_path targetDir
  /\ projectName = path_basename targetDir
  /\ (targetDir = [] /\ projectName = []
      \/ wf_component projectName
         /\ exists parent, targetDir = parent ++ [projectName])
  /\ (wf_component providedPath ->
      targetDir = cwd ++ [providedPath] /\ projectName = providedPath).
Proof.
  intros targetDir projectName Hcwd.
  assert (path_resolve cwd [providedPath] = targetDir) as Htarget.
  { unfold targetDir. by rewrite resolve_with_cwd. }
  assert (wf_path targetDir) as Hwf.
  { unfold targetDir. by apply path_resolve_keeps_wf. }
  unfold projectName. rewrite Htarget.
  split; [exact Hwf|]. split; [reflexivity|]. split.
  - destruct targetDir as [|c p _] using rev_ind; [by left|]. right.
    rewrite path_basename_snoc. split; [|by exists p].
    apply Forall_app in Hwf as [_ Hc]. by inversion Hc.
  - intros (Hne & Hdot & Hdots & Hslash).
    assert (targetDir = cwd ++ [providedPath]) as ->; [|by rewrite path_basename_snoc].
    rewrite <- Htarget. unfold path_resolve. cbn [fold_left].
    unfold resolve_step. destruct providedPath as [|c s] eqn:E; [done|].
    rewrite <- E in *.
    destruct (N.eqb_spec c SLASH) as [->|_].
    { exfalso. apply Hslash. rewrite E. left. }
    rewrite split_on_free by done. apply normalize_onto_wf.
    by repeat constructor.
Qed.

Lemma target_is_normalized_witness :
  wf_path (path_resolve sample_cwd [render_path sample_cwd; js "../sites//./my-app/"])
  /\ path_basename (path_resolve sample_cwd [js "../sites//./my-app/"]) = js "my-app".
Proof.
  destruct (target_is_normalized sample_cwd (js "../sites//./my-app/")
              sample_cwd_wf) as (Hwf & Hname & _).
  split; [exact Hwf|]. rewrite Hname. vm_compute. reflexivity.
Defined.


(** ** The calls of the spinner *)

Lemma spinner_after_app (spinning : bool) (calls more : list spinner_call) :
  spinner_after spinning (calls ++ more)
  = match spinner_after spinning calls with
    | Some state => spinner_after state more
    | None => None
    end.
Proof.
  revert spinning. induction calls as [|call calls IH]; intros spinning; [done|].
  destruct call, spinning; cbn [app spinner_after]; by rewrite ?IH.
Qed.

Lemma spins_ret {A} (a : A) (state on_throw on_exit : bool) :
  spins (ret a) state state on_throw on_exit.
Proof. intros w w' r [= <- <-]. exists []. by rewrite app_nil_r. Qed.

Lemma spins_throw {A} (e : error) (state on_ret on_exit : bool) :
  spins (throw (A := A) e) state on_ret state on_exit.
Proof. intros w w' r [= <- <-]. exists []. by rewrite app_nil_r. Qed.

Lemma spins_exit {A} (code : Z) (state on_ret on_throw : bool) :
  spins (process_exit (A := A) code) state on_ret on_throw state.
Proof. intros w w' r [= <- <-]. exists []. by rewrite app_nil_r. Qed.

Lemma spins_or_throw {A} (e : error) (o : option A) (state on_exit : bool) :
  spins (or_throw e o) state state state on_exit.
Proof. destruct o; [apply spins_ret | apply spins_throw]. Qed.

Lemma spins_log_start (text : jstring) (on_throw on_exit : bool) :
  spins (log (Spinner Start text)) false true on_throw on_exit.
Proof. intros w w' r [= <- <-]. by exists [Spinner Start text]. Qed.

Lemma spins_log_stop (call : spinner_call) (text : jstring)
    (on_throw on_exit : bool) :
  call <> Start -> spins (log (Spinner call text)) true false on_throw on_exit.
Proof.
  intros Hcall w w' r [= <- <-]. exists [Spinner call text].
  split; [done|]. by destruct call.
Qed.

Lemma spins_log_other (e : event) (state on_throw on_exit : bool) :
  spinner_of e = None -> spins (log e) state state on_throw on_exit.
Proof.
  intros He w w' r [= <- <-]. exists [e]. split; [done|].
  cbn [omap list_omap]. by rewrite He.
Qed.

Lemma spins_fs_call {A : Type} (env : Env) (e : event)
    (run : filesystem -> option (filesystem * A)) (state on_exit : bool) :
  spinner_of e = None -> spins (fs_call env e run) state state state on_exit.
Proof.
  intros He w w' r Hrun. exists [e]. split.
  - unfold fs_call in Hrun. destruct (io_fails env (clock w)).
    + by injection Hrun as <- _.
    + by destruct (run (fs w)) as [[tree a]|]; injection Hrun as <- _.
  - cbn [omap list_omap]. rewrite He. cbn [spinner_after].
    unfold fs_call in Hrun. destruct (io_fails env (clock w)).
    + by injection Hrun as _ <-.
    + by destruct (run (fs w)) as [[tree a]|]; injection Hrun as _ <-.
Qed.

Lemma spins_fs_rm (env : Env) (p : path) (state on_exit : bool) :
  spins (fs_rm env p) state state state on_exit.
Proof.
  intros w w' r Hrun. exists [Rm p].
  assert (trace w' = trace w ++ [Rm p] /\ forall c, r <> Exit c) as [Htrace Hr].
  { unfold fs_rm in Hrun. destruct (io_fails env (clock w)).
    - by injection Hrun as <- <-.
    - by destruct (rm_in p (fs w)) as [[tree a]|]; injection Hrun as <- <-. }
  split; [exact Htrace|]. cbn [omap list_omap spinner_of spinner_after].
  destruct r as [a|e|c]; [done|done|by destruct (Hr c)].
Qed.

Lemma spins_execAsync (env : Env) (command : jstring) (cwd : option path)
    (state on_exit : bool) :
  spins (execAsync env command cwd) state state state on_exit.
Proof.
  intros w w' r. unfold execAsync. intros [= <- <-].
  exists [Exec command cwd]. split; [done|].
  by destruct (exec_run env command cwd (fs w)).2.
Qed.

Lemma spins_bind {A B} (m : M A) (k : A -> M B)
    (before between on_ret on_throw on_exit : bool) :
  spins m before between on_throw on_exit ->
  (forall a, spins (k a) between on_ret on_throw on_exit) ->
  spins (bind m k) before on_ret on_throw on_exit.
Proof.
  intros Hm Hk w w' r Hrun.
  destruct (bind_cases m k w)
    as [(w1 & a & H & Hbind)|[(w1 & e & H & Hbind)|(w1 & c & H & Hbind)]];
    rewrite Hbind in Hrun; destruct (Hm _ _ _ H) as (evs1 & Htrace1 & Hstate1).
  - destruct (Hk _ _ _ _ Hrun) as (evs2 & Htrace2 & Hstate2).
    exists (evs1 ++ evs2). split; [by rewrite Htrace2, Htrace1, <- app_assoc|].
    by rewrite omap_app, spinner_after_app, Hstate1.
  - injection Hrun as <- <-. by exists evs1.
  - injection Hrun as <- <-. by exists evs1.
Qed.

Lemma spins_try_catch {A} (m : M A) (h : error -> M A)
    (before caught on_ret on_throw on_exit : bool) :
  spins m before on_ret caught on_exit ->
  (forall e, spins (h e) caught on_ret on_throw on_exit) ->
  spins (try_catch m h) before on_ret on_throw on_exit.
Proof.
  intros Hm Hh w w' r. unfold try_catch.
  destruct (m w) as [w1 [a|e|c]] eqn:H; intros Hrun;
    destruct (Hm _ _ _ H) as (evs1 & Htrace1 & Hstate1).
  - injection Hrun as <- <-. by exists evs1.
  - destruct (Hh _ _ _ _ Hrun) as (evs2 & Htrace2 & Hstate2).
    exists (evs1 ++ evs2). split; [by rewrite Htrace2, Htrace1, <- app_assoc|].
    by rewrite omap_app, spinner_after_app, Hstate1.
  - injection Hrun as <- <-. by exists evs1.
Qed.

Lemma spins_for_of {X} (xs : list X) (body : X -> M unit)
    (state on_throw on_exit : bool) :
  (forall x, spins (body x) state state on_throw on_exit) ->
  spins (for_of xs body) state state on_throw on_exit.
Proof.
  intros Hbody. induction xs as [|x xs IH]; cbn [for_of].
  - apply spins_ret.
  - eapply spins_bind; [apply Hbody | by intros _].
Qed.

Lemma spins_sequence (steps : list (M unit)) (state on_throw on_exit : bool) :
  Forall (fun step => spins step state state on_throw on_exit) steps ->
  spins (sequence steps) state state on_throw on_exit.
Proof.
  induction 1 as [|step steps Hstep _ IH].
  - apply spins_ret.
  - rewrite sequence_cons. eapply spins_bind; [exact Hstep | by intros _].
Qed.

Ltac spins_steps :=
  repeat first
    [ match goal with
      | |- forall _, _ => intros ?
      | |- spins (if ?b then _ else _) _ _ _ _ => destruct b
      end
    | eapply spins_bind
    | eapply spins_try_catch
    | apply spins_for_of
    | apply spins_ret
    | apply spins_throw
    | apply spins_exit
    | apply spins_or_throw
    | apply spins_log_start
    | apply spins_log_stop; discriminate
    | apply spins_log_other; reflexivity
    | apply spins_fs_call; reflexivity
    | apply spins_fs_rm
    | apply spins_execAsync ].

Lemma pipeline_spins (rt : Runtime) (env : Env) (css page : jstring)
    (targetDir : path) (projectName : jstring) :
  Forall (fun step => spins step false false false false)
    (pipeline rt env css page targetDir projectName).
Proof.
  unfold pipeline, check_target, list_target, clone_repository,
    setup_directories, setup_package_json, customize, replace_stylesheet,
    remove_components, patch_layout, overwrite_page, setup_version_control,
    install_dependencies, report, parse, fs_access, fs_readdir,
    fs_readFile, fs_writeFile, fs_unlink.
  repeat apply List.Forall_cons; try apply List.Forall_nil; spins_steps.
Qed.

(** X16.  The calls of the spinner fit in every run of [main], whatever
    fails: a spinner is started only when none spins, it is stopped (by
    [succeed], [fail] or [warn]) only when one spins, and none spins when
    [main] ends, be it by returning or by ending the process. *)
Theorem spinner_is_always_stopped
    (rt : Runtime) (env : Env) (css page : jstring)
    (cwd : path) (args : list jstring) (w : World) :
  let run := main rt env css page cwd args w in
  exists evs,
    trace run.1 = trace w ++ evs
    /\ spinner_after false (omap spinner_of evs) = Some false.
Proof.
  intros run.
  assert (spins (main rt env css page cwd args) false false false false) as Hmain.
  { unfold main. eapply spins_try_catch.
    - destruct args as [|providedPath rest].
      + spins_steps.
      + apply spins_sequence, pipeline_spins.
    - spins_steps. }
  destruct run as [w' r] eqn:Hrun.
  destruct (Hmain _ _ _ Hrun) as (evs & Htrace & Hstate).
  exists evs. split; [exact Htrace|]. by destruct r.
Qed.

(** ** What is printed with [console.log] *)

Lemma logged_quiet (evs : list event) :
  Forall (fun e => logged_of e = None) evs -> logged evs = [].
Proof.
  induction 1 as [|e evs He _ IH]; [done|].
  unfold logged in *. cbn [omap list_omap]. by rewrite He.
Qed.

Lemma logged_app (evs more : list event) :
  logged (evs ++ more) = logged evs ++ logged more.
Proof. apply omap_app. Qed.

Section Output.
Variables (rt : Runtime) (env : Env) (css page : jstring).
Variables (targetDir : path) (projectName : jstring).

Lemma earlier_steps_log_nothing :
  Forall (respects (emits (fun e => logged_of e = None)))
    (take 7 (pipeline rt env css page targetDir projectName)).
Proof.
  unfold pipeline. cbn [take].
  unfold check_target, list_target, clone_repository,
    setup_directories, setup_package_json, customize, replace_stylesheet,
    remove_components, patch_layout, overwrite_page, setup_version_control,
    install_dependencies, parse, fs_access, fs_readdir,
    fs_readFile, fs_writeFile, fs_unlink.
  repeat apply List.Forall_cons; try apply List.Forall_nil;
    respects_steps; try (destruct (0 <? length _)%nat; respects_steps).
Qed.

Lemma report_logs (w w' : World) (r : outcome unit) :
  report rt env targetDir w = (w', r) ->
  r = Ret tt
  /\ exists evs shown,
       trace w' = trace w ++ evs
       /\ logged evs = [success_banner; boxen rt shown].
Proof.
  unfold report. rewrite <- bind_assoc.
  set (fetch := bind (log (Spinner Start (js "Finalizing setup..."))) _).
  assert (respects (emits (fun e => logged_of e = None)) fetch) as Hquiet.
  { unfold fetch, parse, fs_readFile. respects_steps. }
  assert (never_exits fetch) as Hexits.
  { unfold fetch, parse, fs_readFile.
    repeat first
      [ match goal with
        | |- forall _, _ => intros ?
        end
      | apply never_exits_bind
      | apply never_exits_try_catch
      | apply never_exits_log
      | apply never_exits_fs_call
      | apply never_exits_fs_rm
      | apply never_exits_or_throw
      | apply never_exits_ret ]. }
  assert (never_throws fetch) as Hthrows.
  { unfold fetch. ends_steps. }
  unfold bind at 1. destruct (fetch w) as [w1 [shown|e|c]] eqn:Hfetch.
  - destruct (Hquiet _ _ _ Hfetch) as (evs & Htrace & Hevs).
    cbv [bind log]. cbn [fs clock trace]. intros [= <- <-]. split; [done|].
    exists (evs ++ [ConsoleLog success_banner; ConsoleLog (boxen rt shown)]), shown.
    split.
    + rewrite Htrace, <- !app_assoc. reflexivity.
    + by rewrite logged_app, (logged_quiet _ Hevs).
  - by apply Hthrows in Hfetch.
  - by apply Hexits in Hfetch.
Qed.

End Output.

(** X17.  [console.log] is called in the runs of [main] that end with
    code 0 and in no other: such a run prints the line of success and the
    box of the summary, in this order and once each, and a run that ends
    the process prints nothing with it. *)
Theorem success_is_announced_once
    (rt : Runtime) (env : Env) (css page : jstring)
    (cwd : path) (args : list jstring) (w : World) :
  let run := main rt env css page cwd args w in
  exists evs,
    trace run.1 = trace w ++ evs
    /\ match run.2 with
       | Ret _ => exists shown, logged evs = [success_banner; boxen rt shown]
       | _ => logged evs = []
       end.
Proof.
  intros run. destruct args as [|providedPath rest].
  { by exists [ConsoleError (js "Usage: create-peachy-app <project-directory>")]. }
  set (targetDir := path_resolve cwd [render_path cwd; providedPath]).
  set (projectName := path_basename (path_resolve cwd [providedPath])).
  set (steps := pipeline rt env css page targetDir projectName).
  destruct (sequence (take 7 steps) w) as [w1 r1] eqn:Hfirst.
  destruct (respects_sequence _ _
              (earlier_steps_log_nothing rt env css page targetDir projectName)
              _ _ _ Hfirst) as (evs1 & Htrace1 & Hquiet1).
  apply logged_quiet in Hquiet1.
  assert (sequence steps w
          = bind (sequence (take 7 steps)) (fun _ => sequence (drop 7 steps)) w)
    as Hsplit.
  { by rewrite <- sequence_app, take_drop. }
  destruct r1 as [[]|e|c].
  - destruct (report rt env targetDir w1) as [w2 r2] eqn:Hreport.
    destruct (report_logs _ _ _ _ _ _ Hreport)
      as (-> & evs2 & shown & Htrace2 & Hlogged2).
    assert (main rt env css page cwd (providedPath :: rest) w = (w2, Ret tt))
      as Hmain.
    { apply main_Ret. fold targetDir projectName steps.
      rewrite Hsplit, (bind_Ret _ _ _ _ _ Hfirst).
      unfold steps, pipeline. cbn [drop].
      by rewrite sequence_cons, (bind_Ret _ _ _ _ _ Hreport). }
    unfold run. rewrite Hmain. cbn [fst snd]. exists (evs1 ++ evs2). split.
    + by rewrite Htrace2, Htrace1, <- app_assoc.
    + exists shown. by rewrite logged_app, Hquiet1.
  - assert (sequence steps w = (w1, Throw e)) as Hsteps.
    { by rewrite Hsplit, (bind_Throw _ _ _ _ _ Hfirst). }
    unfold run, main. fold targetDir projectName steps.
    rewrite (try_catch_Throw _ _ _ _ _ Hsteps).
    exists (evs1 ++ [ConsoleError (js "Unexpected error:")]). split.
    + cbv [bind log process_exit]. cbn [fst snd trace].
      by rewrite Htrace1, <- app_assoc.
    + by rewrite logged_app, Hquiet1.
  - assert (sequence steps w = (w1, Exit c)) as Hsteps.
    { by rewrite Hsplit, (bind_Exit _ _ _ _ _ Hfirst). }
    unfold run. rewrite (main_Exit _ _ _ _ _ _ _ _ _ _ Hsteps).
    by exists evs1.
Qed.

(** ** A run in which nothing fails *)

Section Success.
Variables (rt : Runtime) (env : Env) (css page : jstring).
Variables (targetDir : path) (projectName : jstring).
Hypothesis io_works : forall k, io_fails env k = false.










End Success.



(** ** The customization when calls fail *)

Section PerFile.
Variable env : Env.

Lemma swallowed_writeFile_cases (p : path) (data : jstring) (w : World) :
  exists w',
    try_catch (fs_writeFile env p data) (fun _ => ret tt) w = (w', Ret tt)
    /\ (fs w' = fs w \/ fs w' = <[p := File data]> (fs w)).
Proof.
  unfold try_catch.
  destruct (fs_writeFile env p data w) as [w1 [[]|e|c]] eqn:Hrun.
  - exists w1. split; [done|]. right. by apply fs_writeFile_Ret in Hrun.
  - eexists. split; [reflexivity|]. left. by apply fs_call_Throw in Hrun as [? _].
  - by apply never_exits_fs_call in Hrun.
Qed.

Lemma swallowed_unlink_cases (p : path) (w : World) :
  exists w',
    try_catch (fs_unlink env p) (fun _ => ret tt) w = (w', Ret tt)
    /\ (fs w' = fs w
        \/ (exists content, lookup_node (fs w) p = Some (File content))
           /\ fs w' = delete p (fs w)).
Proof.
  unfold try_catch.
  destruct (fs_unlink env p w) as [w1 [[]|e|c]] eqn:Hrun.
  - exists w1. split; [done|]. right. revert Hrun.
    unfold fs_unlink, fs_call, unlink_in.
    destruct (io_fails env (clock w)); [done|].
    destruct (lookup_node (fs w) p) as [[content|]|]; [|done..].
    intros [= <-]. split; [by exists content | done].
  - eexists. split; [reflexivity|]. left. by apply fs_call_Throw in Hrun as [? _].
  - by apply never_exits_fs_call in Hrun.
Qed.

Lemma swallowed_patch_cases (p : path) (patch : jstring -> jstring) (w : World) :
  exists w',
    try_catch
      (let* layoutContent := fs_readFile env p in
       fs_writeFile env p (patch layoutContent))
      (fun _ => ret tt) w = (w', Ret tt)
    /\ (fs w' = fs w
        \/ exists text,
             lookup_node (fs w) p = Some (File text)
             /\ fs w' = <[p := File (patch text)]> (fs w)).
Proof.
  unfold try_catch, bind. rewrite fs_readFile_run.
  destruct (io_fails env (clock w)); [by eexists; split; [|left]|].
  destruct (lookup_node (fs w) p) as [[text|]|] eqn:Hfile;
    [|by eexists; split; [|left]..].
  match goal with |- context [fs_writeFile env p (patch text) ?w0] =>
    destruct (fs_writeFile env p (patch text) w0) as [w1 [[]|e|c]] eqn:Hrun
  end.
  - exists w1. split; [done|]. right. exists text. split; [done|].
    by apply fs_writeFile_Ret in Hrun.
  - eexists. split; [reflexivity|]. left. by apply fs_call_Throw in Hrun as [? _].
  - by apply never_exits_fs_call in Hrun.
Qed.

End PerFile.

Lemma lookup_node_nonempty (tree : filesystem) (p : path) (name : jstring)
    (names : list jstring) :
  lookup_node tree (p ++ name :: names) = tree !! (p ++ name :: names).
Proof. unfold lookup_node. by destruct p. Qed.

Lemma written_lookup (p q : path) (nd : node) (tree tree' : filesystem) :
  tree' = tree \/ tree' = <[p := nd]> tree ->
  tree' !! q = tree !! q \/ (q = p /\ tree' !! q = Some nd).
Proof.
  intros [->| ->]; [by left|]. destruct (decide (q = p)) as [->|Hne].
  - right. by rewrite lookup_insert_eq.
  - left. by rewrite lookup_insert_ne.
Qed.

Lemma unlinked_lookup_cases (p q : path) (tree tree' : filesystem) :
  p <> [] ->
  tree' = tree
  \/ (exists content, lookup_node tree p = Some (File content))
     /\ tree' = delete p tree ->
  tree' !! q = tree !! q
  \/ (q = p /\ (exists content, tree !! q = Some (File content))
      /\ tree' !! q = None).
Proof.
  intros Hp [->|[Hfile ->]]; [by left|]. destruct (decide (q = p)) as [->|Hne].
  - right. rewrite lookup_delete_eq. split; [done|]. split; [|done].
    unfold lookup_node in Hfile. by destruct p.
  - left. by rewrite lookup_delete_ne.
Qed.

Lemma patched_lookup_cases (p q : path) (patch : jstring -> jstring)
    (tree tree' : filesystem) :
  p <> [] ->
  tree' = tree
  \/ (exists text,
        lookup_node tree p = Some (File text)
        /\ tree' = <[p := File (patch text)]> tree) ->
  tree' !! q = tree !! q
  \/ (q = p
      /\ exists text,
           tree !! q = Some (File text) /\ tree' !! q = Some (File (patch text))).
Proof.
  intros Hp [->|(text & Hfile & ->)]; [by left|].
  destruct (decide (q = p)) as [->|Hne].
  - right. rewrite lookup_insert_eq. split; [done|]. exists text. split; [|done].
    unfold lookup_node in Hfile. by destruct p.
  - left. by rewrite lookup_insert_ne.
Qed.

Ltac customized_paths_differ :=
  let H := fresh in
  intros H;
  unfold cssPath, pagePath, layoutPath, componentsDir, path_join in H;
  rewrite <- ?app_assoc in H; apply app_inv_head in H;
  vm_compute in H; discriminate H.

Ltac customized_path_nonempty :=
  let H := fresh in
  intros H; apply (f_equal length) in H;
  unfold cssPath, pagePath, layoutPath, componentsDir, path_join in H;
  rewrite !length_app in H; simpl in H; lia.

Ltac others_left :=
  repeat match goal with
  | F : _ \/ (_ = _ /\ _) |- _ =>
      let Hne := fresh in
      destruct F as [F|[Hne _]]; [|exfalso; revert Hne; customized_paths_differ]
  end.

(** X19.  Whatever fails, the customization leaves every node either as it
    was or as it is meant to be, each for itself (a call that fails being
    taken to change nothing): the stylesheet and the page hold the new
    contents, the layout holds the patch of what it held before the
    customization, a component file that was a file is gone.  Nothing else
    changes, no directory is removed, and no layout is made where none
    was. *)
Theorem customization_is_per_file
    (env : Env) (css page : jstring) (targetDir : path) (w : World) (q : path) :
  let run := customize env css page targetDir w in
  let before := fs w !! q in
  let after := fs run.1 !! q in
  after = before
  \/ (q = cssPath targetDir /\ after = Some (File css))
  \/ (q = pagePath targetDir /\ after = Some (File page))
  \/ (q = layoutPath targetDir
      /\ exists text,
           before = Some (File text) /\ after = Some (File (layout_patch text)))
  \/ (q ∈ List.map (fun file => path_join (componentsDir targetDir) [file])
            filesToRemove
      /\ (exists content, before = Some (File content)) /\ after = None).
Proof.
  cbv zeta.
  unfold customize, replace_stylesheet, remove_components, patch_layout,
    overwrite_page, filesToRemove.
  cbn [for_of List.map].
  erewrite bind_Ret by reflexivity.
  match goal with |- context [bind _ _ ?w0] => set (w1 := w0) end.
  assert (fs w1 = fs w) as E0 by reflexivity. clearbody w1.
  destruct (swallowed_writeFile_cases env (cssPath targetDir) css w1)
    as (w2 & H2 & C2).
  rewrite (bind_Ret _ _ _ _ _ H2). clear H2.
  destruct (swallowed_unlink_cases env
              (path_join (componentsDir targetDir) [js "CodeBlock.js"]) w2)
    as (w3 & H3 & C3).
  rewrite ?bind_assoc, (bind_Ret _ _ _ _ _ H3). clear H3.
  destruct (swallowed_unlink_cases env
              (path_join (componentsDir targetDir) [js "Footer.js"]) w3)
    as (w4 & H4 & C4).
  rewrite ?bind_assoc, (bind_Ret _ _ _ _ _ H4). clear H4.
  destruct (swallowed_unlink_cases env
              (path_join (componentsDir targetDir) [js "Header.js"]) w4)
    as (w5 & H5 & C5).
  rewrite ?bind_assoc, (bind_Ret _ _ _ _ _ H5). clear H5.
  destruct (swallowed_unlink_cases env
              (path_join (componentsDir targetDir) [js "Peach3dModel.js"]) w5)
    as (w6 & H6 & C6).
  rewrite ?bind_assoc, (bind_Ret _ _ _ _ _ H6). clear H6.
  rewrite ?bind_assoc. erewrite bind_Ret by reflexivity.
  destruct (swallowed_patch_cases env (layoutPath targetDir) layout_patch w6)
    as (w7 & H7 & C7).
  rewrite ?bind_assoc, (bind_Ret _ _ _ _ _ H7). clear H7.
  destruct (swallowed_writeFile_cases env (pagePath targetDir) page w7)
    as (w8 & H8 & C8).
  rewrite ?bind_assoc, (bind_Ret _ _ _ _ _ H8). clear H8.
  cbn [log fst fs]. rewrite <- E0. clear E0.
  apply (written_lookup _ q) in C2, C8.
  apply (unlinked_lookup_cases _ q) in C3, C4, C5, C6;
    try customized_path_nonempty.
  apply (patched_lookup_cases _ q) in C7; [|customized_path_nonempty].
  destruct C2 as [C2|[-> C2]].
  2: { others_left. right. left. split; [done|]. congruence. }
  destruct C3 as [C3|(-> & Hfile & C3)].
  2: { others_left. do 4 right. split; [by left|].
       split; [by rewrite <- C2|congruence]. }
  destruct C4 as [C4|(-> & Hfile & C4)].
  2: { others_left. do 4 right. split; [right; by left|].
       split; [by rewrite <- C2, <- C3|congruence]. }
  destruct C5 as [C5|(-> & Hfile & C5)].
  2: { others_left. do 4 right. split; [do 2 right; by left|].
       split; [by rewrite <- C2, <- C3, <- C4|congruence]. }
  destruct C6 as [C6|(-> & Hfile & C6)].
  2: { others_left. do 4 right. split; [do 3 right; by left|].
       split; [by rewrite <- C2, <- C3, <- C4, <- C5|congruence]. }
  destruct C7 as [C7|(-> & text & Hfile & C7)].
  2: { others_left. do 3 right. left. split; [done|]. exists text.
       split; [by rewrite <- C2, <- C3, <- C4, <- C5, <- C6|congruence]. }
  destruct C8 as [C8|[-> C8]].
  2: { right. right. left. by split. }
  left. congruence.
Qed.
